(** * sb_generator: the layer compositing engine

    A shallow embedding of the NFT generation script (the stand-alone
    generator with [getRandomComponent], [generate2DImage], [drawLayer],
    [pixelateImage], [uploadToSupabase], [generateNFT] and
    [generateMultipleNFTs]) and of the [Generator] class, which has the same
    [drawLayer] and [generate2DImage] with the canvas size and the layer
    configuration taken from [this]; then of the storage providers
    ([S3Storage.getRandomComponent], [SupabaseStorage.uploadFile]), of
    [Generator.generateNFT], of the transparency analysis and of
    [ImageUtils].

    Conventions of the embedding.
    - A JavaScript number is a finite IEEE double, represented by the
      rational it denotes ([Q]).  The arithmetic of the placement and of the
      random index rounds every operation and every decimal constant to
      the nearest double, as the machine does ([Double.round]: 53 bits,
      ties to even).  Overflow, underflow, [Infinity], [NaN] and the sign of
      zero are outside the model: a division by zero cannot arise for an
      image of positive size.  The percentages of the transparency analysis
      and the heightmap colours are computed exactly, and the [NaN]
      percentage of an image without pixels is [None].
    - Strings are [string]; [toLowerCase]/[toUpperCase] act on ASCII letters.
    - Everything the script obtains from outside (storage listings,
      [Math.random], [loadImage], file-system faults, Jimp, uploads,
      environment variables, [path.extname]) is read from a [World]; each
      query is stamped with a clock so that two queries may answer
      differently.
    - A JavaScript exception is the [Throw] result of the monad [M]; state
      changes made before a throw are kept, as in JavaScript. *)

From Stdlib Require Import QArith Qminmax Qround Qabs Qpower.
From Stdlib Require Import String Ascii ZArith Lia Lqa.
From stdpp Require Import gmap strings list pretty.

Open Scope Q_scope.
Open Scope string_scope.

(** ** JavaScript string primitives used by the source *)

Module JsString.

Definition lower_ascii (c : ascii) : ascii :=
  let n := nat_of_ascii c in
  if (Nat.leb 65 n && Nat.leb n 90)%bool then ascii_of_nat (n + 32) else c.

Definition upper_ascii (c : ascii) : ascii :=
  let n := nat_of_ascii c in
  if (Nat.leb 97 n && Nat.leb n 122)%bool then ascii_of_nat (n - 32) else c.

(** [toLowerCase] and [toUpperCase] map the ASCII letters and leave every
    other character alone: on a string of ASCII characters they are what
    JavaScript computes. *)
Fixpoint toLowerCase (s : string) : string :=
  match s with
  | EmptyString => EmptyString
  | String c s' => String (lower_ascii c) (toLowerCase s')
  end.

Fixpoint toUpperCase (s : string) : string :=
  match s with
  | EmptyString => EmptyString
  | String c s' => String (upper_ascii c) (toUpperCase s')
  end.

(** The strings of ASCII characters (code units below 128). *)
Fixpoint is_ascii (s : string) : bool :=
  match s with
  | EmptyString => true
  | String c s' => (Nat.ltb (nat_of_ascii c) 128 && is_ascii s')%bool
  end.

(** [s.endsWith(suffix)] *)
Definition endsWith (s suffix : string) : bool :=
  let n := String.length s in
  let k := String.length suffix in
  (Nat.leb k n && String.eqb (String.substring (n - k) k s) suffix)%bool.

(** [s.startsWith(p)] *)
Definition startsWith (s p : string) : bool := String.prefix p s.

Fixpoint lastIndexOf_from (c : ascii) (s : string) (i acc : Z) : Z :=
  match s with
  | EmptyString => acc
  | String a s' =>
      lastIndexOf_from c s' (i + 1) (if Ascii.eqb a c then i else acc)
  end.

(** [s.lastIndexOf(c)]: the last position of [c], or -1. *)
Definition lastIndexOf (c : ascii) (s : string) : Z :=
  lastIndexOf_from c s 0 (-1).

(** [s.substring(0, k)]; a negative [k] counts as 0. *)
Definition substring0 (k : Z) (s : string) : string :=
  String.substring 0 (Z.to_nat k) s.

(** [s.charAt(0)] *)
Definition charAt0 (s : string) : string :=
  match s with
  | EmptyString => EmptyString
  | String c _ => String c EmptyString
  end.

(** [s.slice(1)] *)
Definition slice1 (s : string) : string :=
  match s with
  | EmptyString => EmptyString
  | String _ s' => s'
  end.

(** [a || b] on strings: the empty string is falsy. *)
Definition or_else (a b : string) : string :=
  match a with
  | EmptyString => b
  | _ => a
  end.

End JsString.

(** ** [path.extname] of the POSIX flavour of Node

    The scan runs from the last character to the first, as Node's does; it
    is the instance of [path_extname] used by the concrete worlds below.
    The theorems do not depend on it. *)

Module NodePath.

Record scan := {
  startDot : Z;
  startPart : Z;
  endPos : Z;
  matchedSlash : bool;
  preDotState : Z
}.

Definition scan0 : scan :=
  {| startDot := -1; startPart := 0; endPos := -1;
     matchedSlash := true; preDotState := 0 |}.

Fixpoint scan_back (rev_chars : list ascii) (i : Z) (st : scan) : scan :=
  match rev_chars with
  | [] => st
  | code :: rest =>
      if Ascii.eqb code "/" then
        if negb (matchedSlash st) then
          {| startDot := startDot st; startPart := i + 1;
             endPos := endPos st; matchedSlash := matchedSlash st;
             preDotState := preDotState st |}
        else scan_back rest (i - 1) st
      else
        let st1 :=
          if Z.eqb (endPos st) (-1) then
            {| startDot := startDot st; startPart := startPart st;
               endPos := i + 1; matchedSlash := false;
               preDotState := preDotState st |}
          else st in
        let st2 :=
          if Ascii.eqb code "." then
            if Z.eqb (startDot st1) (-1) then
              {| startDot := i; startPart := startPart st1;
                 endPos := endPos st1; matchedSlash := matchedSlash st1;
                 preDotState := preDotState st1 |}
            else
              {| startDot := startDot st1; startPart := startPart st1;
                 endPos := endPos st1; matchedSlash := matchedSlash st1;
                 preDotState := 1 |}
          else if negb (Z.eqb (startDot st1) (-1)) then
            {| startDot := startDot st1; startPart := startPart st1;
               endPos := endPos st1; matchedSlash := matchedSlash st1;
               preDotState := -1 |}
          else st1 in
        scan_back rest (i - 1) st2
  end.

Definition posix_extname (p : string) : string :=
  let chars := list_ascii_of_string p in
  let st := scan_back (rev chars) (Z.of_nat (List.length chars) - 1) scan0 in
  if (Z.eqb (startDot st) (-1)
      || Z.eqb (endPos st) (-1)
      || Z.eqb (preDotState st) 0
      || (Z.eqb (preDotState st) 1
          && Z.eqb (startDot st) (endPos st - 1)
          && Z.eqb (startDot st) (startPart st + 1)))%bool
  then EmptyString
  else String.substring (Z.to_nat (startDot st))
         (Z.to_nat (endPos st - startDot st)) p.

(** [path.basename] for a path that does not end in a slash: what follows
    the last slash. *)
Definition posix_basename (p : string) : string :=
  let k := JsString.lastIndexOf "/" p in
  String.substring (Z.to_nat (k + 1)) (String.length p) p.

End NodePath.

(** ** JavaScript numbers

    A finite double is the rational it denotes.  [round] maps a rational to
    the nearest double: to 53 significant bits, ties to the even
    significand, without the bounds on the exponent.  Every arithmetic
    operation of the source is the exact operation followed by [round], and
    a decimal constant such as [0.9] stands for [round 0.9]. *)

Module Double.

(** The power [2 ^ z] of two, for any integer [z]. *)
Definition pow2 (z : Z) : Q := Qpower 2 z.

(** The binary exponent of a positive [x]: the [e] with
    [2 ^ e <= x < 2 ^ (e + 1)]. *)
Definition exponent (x : Q) : Z :=
  let e0 := (Z.log2 (Qnum x) - Z.log2 (Zpos (Qden x)))%Z in
  if Qle_bool (pow2 e0) x then e0 else (e0 - 1)%Z.

(** The integer nearest to [y], an even one if two are as near. *)
Definition round_half_even (y : Q) : Z :=
  let f := Qfloor y in
  match Qcompare (y - inject_Z f) (1 # 2) with
  | Lt => f
  | Gt => (f + 1)%Z
  | Eq => if Z.even f then f else (f + 1)%Z
  end.

(** The nearest multiple of the unit in the last place of a positive [x]. *)
Definition round_positive (x : Q) : Q :=
  let ulp := pow2 (exponent x - 52) in
  inject_Z (round_half_even (x / ulp)) * ulp.

Definition round (x : Q) : Q :=
  Qred match Qcompare x 0 with
       | Eq => 0
       | Gt => round_positive x
       | Lt => - round_positive (- x)
       end.

Definition add (a b : Q) : Q := round (a + b).

Definition sub (a b : Q) : Q := round (a - b).

Definition mul (a b : Q) : Q := round (a * b).

Definition div (a b : Q) : Q := round (a / b).

(** Half the distance from 1 to the next double: the relative error of one
    rounding is at most [epsilon]. *)
Definition epsilon : Q := pow2 (-53).

End Double.

(** ** Data model *)

(** An entry of [layerConfig]: [{ category, type, optional }].  A missing
    [optional] is [undefined], hence falsy: [false]. *)
Record LayerInfo := {
  category : string;
  type : string;
  optional : bool
}.

(** The default [layerConfig] of the script and of [Generator]. *)
Definition layerConfig : list LayerInfo := [
  {| category := "background"; type := "background"; optional := false |};
  {| category := "head"; type := "base"; optional := false |};
  {| category := "eyes"; type := "feature"; optional := false |};
  {| category := "clothing"; type := "outfit"; optional := false |};
  {| category := "neck"; type := "accessory"; optional := false |};
  {| category := "hats"; type := "accessory"; optional := false |};
  {| category := "binky"; type := "accessory"; optional := true |};
  {| category := "special"; type := "special"; optional := true |}
].

(** A loaded image: only its natural size matters to the placement. *)
Record Image := {
  image_src : string;
  image_width : Q;
  image_height : Q
}.

(** The destination rectangle handed to [ctx.drawImage]. *)
Record Rect := {
  drawX : Q;
  drawY : Q;
  drawWidth : Q;
  drawHeight : Q
}.

(** ** Placement: the [if (type === ...)] cascade of [drawLayer]

    [width] and [height] are the canvas size (the constants 512 of the script,
    [this.width] and [this.height] of [Generator]); [Math.min] of two
    finite numbers is their minimum. *)

Definition placement (width height : Q) (type category : string)
    (image : Image) : Rect :=
  if String.eqb type "background" then
    {| drawX := 0; drawY := 0; drawWidth := width; drawHeight := height |}
  else if String.eqb type "base" then
    let scale :=
      Qmin (Double.div width (image_width image))
           (Double.div height (image_height image)) in
    let drawWidth := Double.mul (image_width image) scale in
    let drawHeight := Double.mul (image_height image) scale in
    {| drawX := Double.div (Double.sub width drawWidth) 2;
       drawY := Double.mul (Double.sub height drawHeight) (Double.round 0.4);
       drawWidth := drawWidth; drawHeight := drawHeight |}
  else if String.eqb type "feature" then
    let scale :=
      Qmin (Double.mul (Double.div width (image_width image))
              (Double.round 0.8))
           (Double.mul (Double.div height (image_height image))
              (Double.round 0.5)) in
    let drawWidth := Double.mul (image_width image) scale in
    let drawHeight := Double.mul (image_height image) scale in
    {| drawX := Double.div (Double.sub width drawWidth) 2;
       drawY := Double.mul height (Double.round 0.3);
       drawWidth := drawWidth; drawHeight := drawHeight |}
  else if String.eqb type "outfit" then
    let heightScale :=
      Qmin (Double.mul (Double.div width (image_width image))
              (Double.round 0.9))
           (Double.mul (Double.div height (image_height image))
              (Double.round 0.9)) in
    let widthScale := Double.mul heightScale (Double.round 1.15) in
    let drawWidth := Double.mul (image_width image) widthScale in
    let drawHeight := Double.mul (image_height image) heightScale in
    {| drawX := Double.div (Double.sub width drawWidth) 2;
       drawY := Double.mul height (Double.round 0.1);
       drawWidth := drawWidth; drawHeight := drawHeight |}
  else
    let scale :=
      Qmin (Double.mul (Double.div width (image_width image))
              (Double.round 0.7))
           (Double.mul (Double.div height (image_height image))
              (Double.round 0.5)) in
    let drawWidth := Double.mul (image_width image) scale in
    let drawHeight := Double.mul (image_height image) scale in
    {| drawX := Double.div (Double.sub width drawWidth) 2;
       drawY :=
         if String.eqb category "hats" then
           Double.mul height (Double.round 0.05)
         else if String.eqb category "neck" then
           Double.mul height (Double.round 0.69)
         else if String.eqb category "binky" then
           Double.mul height (Double.round 0.4)
         else Double.mul height (Double.round 0.2);
       drawWidth := drawWidth; drawHeight := drawHeight |}.

(** ** Components, traits, canvas and files *)

(** An element of [files] in [getRandomComponent]: [{ url, type, name }]. *)
Record FileEntry := {
  file_url : string;
  file_type : string;
  file_name : string
}.

(** What [getRandomComponent] returns: [{ url, name, category, type }]. *)
Record ComponentInfo := {
  ci_url : string;
  ci_name : string;
  ci_category : string;
  ci_type : string
}.

(** An element of [attributes]: [{ trait_type, value }]. *)
Record Attribute := {
  trait_type : string;
  value : string
}.

(** Calls on the 2D context that leave a mark on the canvas. *)
Inductive DrawOp :=
| ClearRect (x y w h : Q)
| FillRect (style : string) (x y w h : Q)
| DrawImage (image : Image) (r : Rect)
| FillText (style font align text : string) (x y : Q).

(** The 2D context [ctx]: its settings and the calls made so far, the latest
    first. *)
Record Ctx := {
  fillStyle : string;
  font : string;
  textAlign : string;
  globalCompositeOperation : string;
  drawn : list DrawOp
}.

(** The metadata document written by [generateNFT]; a failed upload leaves
    [null] ([None]) in [images]. *)
Record Metadata := {
  md_id : nat;
  md_name : string;
  md_description : string;
  md_image2D : option string;
  md_pixelated : option string;
  md_attributes : list Attribute
}.

(** What a path of the file system holds. *)
Inductive Content :=
| Directory
| Png (canvas : list DrawOp)
| PixelatedPng (pixelSize : nat) (source : Content)
| Json (m : Metadata)
| Blob (tag : string).

(** [{ nftPath, attributes, species }] of [generate2DImage]. *)
Record Generated := {
  nftPath : string;
  gen_attributes : list Attribute;
  gen_species : string
}.

(** [{ id, species, nftUrl, pixelatedUrl, metadata }] of [generateNFT]. *)
Record NFT := {
  nft_id : nat;
  nft_species : string;
  nftUrl : option string;
  pixelatedUrl : option string;
  metadata : Metadata
}.

(** ** The world outside the script *)

(** The [{ data, error }] answer of [storage.from(bucket).list(path)]; of a
    listed file only [name] is read. *)
Inductive ListResponse :=
| ListError (message : string)
| ListData (data : option (list string)).

(** What Jimp does with the primary artifact: [Jimp.read] or [writeAsync]
    throws, [writeAsync] resolves without a file, or the file is written. *)
Inductive JimpOutcome := JimpThrows | JimpNoFile | JimpWrites.

Record World := {
  env_SPECIES : option string;
  SUPABASE_URL : string;
  path_extname : string -> string;
  path_basename : string -> string;
  Math_random : nat -> Q;
  storage_list : nat -> string -> string -> ListResponse;
  (** [upload(key, ...)]: the [error] of the answer, if any *)
  storage_upload : nat -> string -> string -> option string;
  (** [loadImage(url)]: [None] when the promise rejects *)
  loadImage : nat -> string -> option Image;
  drawImage_throws : nat -> Image -> Rect -> bool;
  (** a write, copy or mkdir aimed at this path fails *)
  fs_fault : nat -> string -> bool;
  jimp : nat -> JimpOutcome
}.

(** The constants and flags of the script; the fields of [this] in
    [Generator]. *)
Record Config := {
  width : Q;
  height : Q;
  cfg_layerConfig : list LayerInfo;
  outputFolder : string;
  availableSpecies : list string;
  SKIP_PIXELATION : bool;
  SAVE_INTERMEDIATE_LAYERS : bool;
  (** [this.storage] is set (always so in the script) *)
  storage_configured : bool
}.

Inductive Error :=
| JsError (message : string)
| TypeError (message : string)
| StorageError (message : string)
| SystemError (syscall path : string).

(** The mutable state: the clock of the world, the files, the shared canvas
    context, and the locals [attributes], [backgroundDrawn] and
    [drawnCategories] of the running [generate2DImage]. *)
Record State := {
  clock : nat;
  fs : gmap string Content;
  ctx : Ctx;
  attributes : list Attribute;
  backgroundDrawn : bool;
  drawnCategories : gset string
}.

Definition with_clock (n : nat) (s : State) : State :=
  {| clock := n; fs := fs s; ctx := ctx s; attributes := attributes s;
     backgroundDrawn := backgroundDrawn s;
     drawnCategories := drawnCategories s |}.

Definition with_fs (f : gmap string Content) (s : State) : State :=
  {| clock := clock s; fs := f; ctx := ctx s; attributes := attributes s;
     backgroundDrawn := backgroundDrawn s;
     drawnCategories := drawnCategories s |}.

Definition with_ctx (c : Ctx) (s : State) : State :=
  {| clock := clock s; fs := fs s; ctx := c; attributes := attributes s;
     backgroundDrawn := backgroundDrawn s;
     drawnCategories := drawnCategories s |}.

Definition with_attributes (a : list Attribute) (s : State) : State :=
  {| clock := clock s; fs := fs s; ctx := ctx s; attributes := a;
     backgroundDrawn := backgroundDrawn s;
     drawnCategories := drawnCategories s |}.

Definition with_backgroundDrawn (b : bool) (s : State) : State :=
  {| clock := clock s; fs := fs s; ctx := ctx s; attributes := attributes s;
     backgroundDrawn := b; drawnCategories := drawnCategories s |}.

Definition with_drawnCategories (d : gset string) (s : State) : State :=
  {| clock := clock s; fs := fs s; ctx := ctx s; attributes := attributes s;
     backgroundDrawn := backgroundDrawn s; drawnCategories := d |}.

(** ** The monad of effects: state and exceptions *)

Inductive Outcome (A : Type) :=
| Return (a : A)
| Throw (e : Error).
Arguments Return {A} a.
Arguments Throw {A} e.

Definition M (A : Type) : Type := State -> Outcome A * State.

Definition ret {A} (a : A) : M A := fun s => (Return a, s).

Definition throw {A} (e : Error) : M A := fun s => (Throw e, s).

Definition bind {A B} (m : M A) (k : A -> M B) : M B :=
  fun s =>
    match m s with
    | (Return a, s') => k a s'
    | (Throw e, s') => (Throw e, s')
    end.

(** [try { body } catch (e) { handler }] *)
Definition try_catch {A} (body : M A) (handler : Error -> M A) : M A :=
  fun s =>
    match body s with
    | (Return a, s') => (Return a, s')
    | (Throw e, s') => handler e s'
    end.

Definition get {A} (f : State -> A) : M A := fun s => (Return (f s), s).

Definition modify (f : State -> State) : M unit := fun s => (Return tt, f s).

Notation "x <- m ;; k" := (bind m (fun x => k))
  (at level 100, m at next level, right associativity).
Notation "m ;; k" := (bind m (fun _ => k))
  (at level 100, right associativity).

(** [arr[i]]: [None] stands for [undefined]. *)
Definition js_index {A} (arr : list A) (i : Z) : option A :=
  if (i <? 0)%Z then None else arr !! Z.to_nat i.

(** [Math.floor(r * n)]: the floor of the rounded product *)
Definition floor_scaled (r : Q) (n : nat) : Z :=
  Qfloor (Double.mul r (inject_Z (Z.of_nat n))).

(** The two errors [getRandomComponent] raises for a required layer: no
    entry at all in the folder, and no entry with an image extension. *)
Definition EmptyLayer (fullPath : string) : Error :=
  JsError ("No components found for layer: " +:+ fullPath
           +:+ ". Please add image files to the " +:+ fullPath
           +:+ " folder in your Supabase bucket.").

Definition NoRenderableComponent (fullPath : string) : Error :=
  JsError ("No image files found for layer: " +:+ fullPath
           +:+ ". Please ensure you have image files in the "
           +:+ fullPath +:+ " folder.").

Section Engine.

Context (w : World) (cfg : Config).

(** Every question put to the world advances the clock. *)
Definition tick : M nat :=
  fun s => (Return (clock s), with_clock (S (clock s)) s).

(** *** File system ([fs]) and canvas ([canvas], [ctx]) primitives *)

Definition existsSync (p : string) : M bool :=
  get (fun s => bool_decide (is_Some (fs s !! p))).

Definition writeFileSync (p : string) (c : Content) : M unit :=
  t <- tick ;;
  if fs_fault w t p then throw (SystemError "open" p)
  else modify (fun s => with_fs (<[p := c]> (fs s)) s).

Definition mkdirSync (p : string) : M unit :=
  t <- tick ;;
  if fs_fault w t p then throw (SystemError "mkdir" p)
  else modify (fun s => with_fs (<[p := Directory]> (fs s)) s).

Definition readFileSync (p : string) : M Content :=
  found <- get (fun s => fs s !! p) ;;
  match found with
  | Some c => ret c
  | None => throw (SystemError "open" p)
  end.

Definition copyFileSync (src dest : string) : M unit :=
  t <- tick ;;
  found <- get (fun s => fs s !! src) ;;
  match found with
  | None => throw (SystemError "copyfile" src)
  | Some c =>
      if fs_fault w t dest then throw (SystemError "copyfile" dest)
      else modify (fun s => with_fs (<[dest := c]> (fs s)) s)
  end.

(** [canvas.toBuffer("image/png")] *)
Definition toBuffer : M Content := get (fun s => Png (drawn (ctx s))).

Definition set_fillStyle (v : string) : M unit :=
  modify (fun s => with_ctx
    {| fillStyle := v; font := font (ctx s); textAlign := textAlign (ctx s);
       globalCompositeOperation := globalCompositeOperation (ctx s);
       drawn := drawn (ctx s) |} s).

Definition set_font (v : string) : M unit :=
  modify (fun s => with_ctx
    {| fillStyle := fillStyle (ctx s); font := v;
       textAlign := textAlign (ctx s);
       globalCompositeOperation := globalCompositeOperation (ctx s);
       drawn := drawn (ctx s) |} s).

Definition set_textAlign (v : string) : M unit :=
  modify (fun s => with_ctx
    {| fillStyle := fillStyle (ctx s); font := font (ctx s); textAlign := v;
       globalCompositeOperation := globalCompositeOperation (ctx s);
       drawn := drawn (ctx s) |} s).

Definition set_globalCompositeOperation (v : string) : M unit :=
  modify (fun s => with_ctx
    {| fillStyle := fillStyle (ctx s); font := font (ctx s);
       textAlign := textAlign (ctx s); globalCompositeOperation := v;
       drawn := drawn (ctx s) |} s).

Definition mark (op : Ctx -> DrawOp) : M unit :=
  modify (fun s => with_ctx
    {| fillStyle := fillStyle (ctx s); font := font (ctx s);
       textAlign := textAlign (ctx s);
       globalCompositeOperation := globalCompositeOperation (ctx s);
       drawn := op (ctx s) :: drawn (ctx s) |} s).

Definition clearRect (x y w' h : Q) : M unit :=
  mark (fun _ => ClearRect x y w' h).

Definition fillRect (x y w' h : Q) : M unit :=
  mark (fun c => FillRect (fillStyle c) x y w' h).

Definition fillText (text : string) (x y : Q) : M unit :=
  mark (fun c => FillText (fillStyle c) (font c) (textAlign c) text x y).

Definition drawImage (image : Image) (r : Rect) : M unit :=
  t <- tick ;;
  if drawImage_throws w t image r then throw (JsError "drawImage failed")
  else mark (fun _ => DrawImage image r).

(** [Math.random()] *)
Definition random : M Q := t <- tick ;; ret (Math_random w t).

(** *** [getSpeciesToGenerate] of the script

    [availableSpecies[randomIndex]] is in range because [Math.random() < 1];
    out of range JavaScript yields [undefined], which the template literals
    that consume the species print as the string of that name. *)
Definition getSpeciesToGenerate : M string :=
  let speciesEnv := option_map JsString.toLowerCase (env_SPECIES w) in
  match speciesEnv with
  | Some env =>
      if String.eqb env "random" then
        r <- random ;;
        let randomIndex := floor_scaled r (length (availableSpecies cfg)) in
        let species :=
          default "undefined" (js_index (availableSpecies cfg) randomIndex) in
        ret species
      else if existsb (String.eqb env) (availableSpecies cfg) then ret env
      else ret "indigo"
  | None => ret "indigo"
  end.

(** *** [getRandomComponent] (the script's, and [SupabaseStorage]'s) *)

(** The predicate of [data.filter(...)]. *)
Definition is_image_file (name : string) : bool :=
  (JsString.endsWith (JsString.toLowerCase name) ".png"
   || JsString.endsWith (JsString.toLowerCase name) ".svg"
   || JsString.endsWith (JsString.toLowerCase name) ".jpg"
   || JsString.endsWith (JsString.toLowerCase name) ".jpeg")%bool.

(** The function of [.map(file => ...)]. *)
Definition describe_file (fullPath name : string) : FileEntry :=
  let extension := JsString.toLowerCase (path_extname w name) in
  let fileType := if String.eqb extension ".svg" then "svg" else "bitmap" in
  {| file_url := SUPABASE_URL w
       +:+ "/storage/v1/object/public/space-babiez/"
       +:+ fullPath +:+ "/" +:+ name;
     file_type := fileType;
     file_name := name |}.

Definition is_svg (f : FileEntry) : bool := String.eqb (file_type f) "svg".

(** [arr[Math.floor(Math.random() * arr.length)]]; reading a property of
    [undefined] is a [TypeError]. *)
Definition pick_random (arr : list FileEntry) : M FileEntry :=
  r <- random ;;
  match js_index arr (floor_scaled r (length arr)) with
  | Some f => ret f
  | None => throw (TypeError "Cannot read properties of undefined")
  end.

(** The block that assigns [selectedFile]. *)
Definition select_file (type : string) (files : list FileEntry)
    : M FileEntry :=
  if ((String.eqb type "base" || String.eqb type "feature")
      && existsb is_svg files)%bool
  then
    let svgFiles := List.filter is_svg files in
    pick_random svgFiles
  else pick_random files.

Definition getRandomComponent (layerInfo : LayerInfo) (species : string)
    : M (option ComponentInfo) :=
  let fullPath := species +:+ "/" +:+ category layerInfo in
  t <- tick ;;
  match storage_list w t "space-babiez" fullPath with
  | ListError e => throw (StorageError e)
  | ListData None | ListData (Some []) =>
      if optional layerInfo then ret None
      else throw (EmptyLayer fullPath)
  | ListData (Some data) =>
      let files :=
        List.map (describe_file fullPath) (List.filter is_image_file data) in
      match files with
      | [] =>
          if optional layerInfo then ret None
          else throw (NoRenderableComponent fullPath)
      | _ =>
          selectedFile <- select_file (type layerInfo) files ;;
          ret (Some {| ci_url := file_url selectedFile;
                       ci_name := file_name selectedFile;
                       ci_category := category layerInfo;
                       ci_type := type layerInfo |})
      end
  end.

(** [this.getRandomComponent] of [Generator]; in the script the storage is
    always there and this is [getRandomComponent]. *)
Definition this_getRandomComponent (layerInfo : LayerInfo) (species : string)
    : M (option ComponentInfo) :=
  if storage_configured cfg then getRandomComponent layerInfo species
  else throw (JsError
    "Storage provider not configured. Please set up a storage provider.").

(** *** [drawLayer] *)

Definition white_fill : M unit :=
  set_fillStyle "#FFFFFF" ;;
  fillRect 0 0 (width cfg) (height cfg).

Definition drawLayer (imageInfo : ComponentInfo) (id : nat) : M bool :=
  if String.eqb (ci_url imageInfo) EmptyString then ret false
  else
    try_catch
      (try_catch
         (t <- tick ;;
          match loadImage w t (ci_url imageInfo) with
          | None => throw (JsError "loadImage failed")
          | Some image =>
              set_globalCompositeOperation "source-over" ;;
              let r := placement (width cfg) (height cfg)
                         (ci_type imageInfo) (ci_category imageInfo) image in
              try_catch
                (drawImage image r ;; ret true)
                (fun drawError =>
                   if String.eqb (ci_type imageInfo) "background" then
                     white_fill ;; ret true
                   else ret false)
          end)
         (fun imageError =>
            if String.eqb (ci_type imageInfo) "background" then
              white_fill ;; ret true
            else ret false))
      (fun outerError => ret false).

(** *** [generate2DImage] *)

(** [fileName.substring(0, fileName.lastIndexOf('.')) || fileName] *)
Definition fileNameWithoutExt (fileName : string) : string :=
  JsString.or_else
    (JsString.substring0 (JsString.lastIndexOf "." fileName) fileName)
    fileName.

Definition push_attribute (a : Attribute) : M unit :=
  modify (fun s => with_attributes (attributes s ++ [a])%list s).

(** One turn of the loop over the layers. *)
Definition process_layer (id : nat) (species : string) (layerIndex : nat)
    (layerInfo : LayerInfo) : M unit :=
  seen <- get (fun s =>
    bool_decide (category layerInfo ∈ drawnCategories s)) ;;
  if seen : bool then ret tt
  else
    try_catch
      (componentInfo <- this_getRandomComponent layerInfo species ;;
       match componentInfo with
       | None => ret tt
       | Some componentInfo =>
           let fileName := ci_name componentInfo in
           layerDrawn <- drawLayer componentInfo id ;;
           (if String.eqb (category layerInfo) "background"
            then modify (with_backgroundDrawn layerDrawn)
            else ret tt) ;;
           if layerDrawn : bool then
             modify (fun s => with_drawnCategories
               ({[category layerInfo]} ∪ drawnCategories s) s) ;;
             push_attribute {| trait_type := category layerInfo;
                               value := fileNameWithoutExt fileName |} ;;
             if SAVE_INTERMEDIATE_LAYERS cfg then
               let layerProgressPath :=
                 outputFolder cfg +:+ "layer_" +:+ pretty (layerIndex + 1)%nat
                 +:+ "_" +:+ category layerInfo +:+ "_" +:+ pretty id
                 +:+ ".png" in
               buffer <- toBuffer ;;
               writeFileSync layerProgressPath buffer
             else ret tt
           else ret tt
       end)
      (fun error => ret tt).

(** [for (let layerIndex = 0; layerIndex < layerConfig.length; layerIndex++)] *)
Fixpoint process_layers (id : nat) (species : string) (layerIndex : nat)
    (layers : list LayerInfo) : M unit :=
  match layers with
  | [] => ret tt
  | layerInfo :: rest =>
      process_layer id species layerIndex layerInfo ;;
      process_layers id species (S layerIndex) rest
  end.

(** The [try] block of [generate2DImage] from the clearing of the canvas
    on, that is, once the species is known. *)
Definition composite (id : nat) (species : string) : M Generated :=
  clearRect 0 0 (width cfg) (height cfg) ;;
  set_fillStyle "#FFFFFF" ;;
  fillRect 0 0 (width cfg) (height cfg) ;;
  modify (with_attributes []) ;;
  modify (with_backgroundDrawn false) ;;
  modify (with_drawnCategories ∅) ;;
  push_attribute {| trait_type := "species"; value := species |} ;;
  process_layers id species 0 (cfg_layerConfig cfg) ;;
  let nftPath :=
    outputFolder cfg +:+ species +:+ "_nft_" +:+ pretty id +:+ ".png" in
  early <- try_catch
    (buffer <- toBuffer ;;
     writeFileSync nftPath buffer ;;
     ret None)
    (fun saveError =>
       let altPath :=
         outputFolder cfg +:+ "fallback_" +:+ species +:+ "_" +:+ pretty id
         +:+ ".png" in
       buffer <- toBuffer ;;
       writeFileSync altPath buffer ;;
       attributes <- get attributes ;;
       ret (Some {| nftPath := altPath; gen_attributes := attributes;
                    gen_species := species |})) ;;
  match early with
  | Some result => ret result
  | None =>
      attributes <- get attributes ;;
      ret {| nftPath := nftPath; gen_attributes := attributes;
             gen_species := species |}
  end.

(** The [catch (error)] block of [generate2DImage]. *)
Definition emergency (id : nat) (error : Error) : M Generated :=
  clearRect 0 0 (width cfg) (height cfg) ;;
  set_fillStyle "#FF00FF" ;;
  fillRect 0 0 (width cfg) (height cfg) ;;
  set_fillStyle "black" ;;
  set_font "20px Arial" ;;
  set_textAlign "center" ;;
  fillText ("Error generating NFT #" +:+ pretty id)
    (width cfg / 2) (height cfg / 2) ;;
  let emergencyPath :=
    outputFolder cfg +:+ "emergency_" +:+ pretty id +:+ ".png" in
  buffer <- toBuffer ;;
  writeFileSync emergencyPath buffer ;;
  ret {| nftPath := emergencyPath;
         gen_attributes :=
           [{| trait_type := "error"; value := "generation_failed" |}];
         gen_species := "error" |}.

Definition ensure_outputFolder : M unit :=
  present <- existsSync (outputFolder cfg) ;;
  if present : bool then ret tt else mkdirSync (outputFolder cfg).

(** The whole [try] block of the script's [generate2DImage]. *)
Definition generate2DImage_try (id : nat) : M Generated :=
  ensure_outputFolder ;;
  species <- getSpeciesToGenerate ;;
  composite id species.

(** [generate2DImage(id)] of the script. *)
Definition generate2DImage (id : nat) : M Generated :=
  try_catch (generate2DImage_try id) (emergency id).

(** *** [pixelateImage], [uploadToSupabase], [generateNFT] *)

Definition pixelateImage (inputPath outputPath : string)
    : M (option string) :=
  present <- existsSync inputPath ;;
  if negb present then ret None
  else if SKIP_PIXELATION cfg then
    try_catch
      (copyFileSync inputPath outputPath ;; ret (Some outputPath))
      (fun copyError => ret None)
  else
    try_catch
      (buffer <- readFileSync inputPath ;;
       t <- tick ;;
       match jimp w t with
       | JimpThrows => throw (JsError "Jimp failed")
       | JimpNoFile => ret (Some outputPath)
       | JimpWrites =>
           let pixelSize := 8%nat in
           modify (fun s => with_fs
             (<[outputPath := PixelatedPng pixelSize buffer]> (fs s)) s) ;;
           ret (Some outputPath)
       end)
      (fun error =>
         try_catch
           (copyFileSync inputPath outputPath ;; ret (Some outputPath))
           (fun copyError => ret None)).

Definition createFolderIfNotExists (bucketName folderPath : string)
    : M bool :=
  t <- tick ;;
  match storage_list w t bucketName folderPath with
  | ListData _ => ret true
  | ListError _ =>
      t' <- tick ;;
      match storage_upload w t' bucketName (folderPath +:+ "/.keep") with
      | Some message =>
          if negb (String.eqb message "The resource already exists")
          then ret false else ret true
      | None => ret true
      end
  end.

Definition uploadToSupabase (filePath bucket : string) (nftId : nat)
    : M (option string) :=
  present <- existsSync filePath ;;
  if negb present then ret None
  else
    let fileName := path_basename w filePath in
    let species :=
      if JsString.startsWith fileName "green_" then "green"
      else if JsString.startsWith fileName "indigo_" then "indigo"
      else "unknown" in
    try_catch
      (fileContent <- readFileSync filePath ;;
       let folderPath := "nfts/" +:+ species +:+ "/" +:+ pretty nftId in
       createFolderIfNotExists bucket folderPath ;;
       t <- tick ;;
       match storage_upload w t bucket (folderPath +:+ "/" +:+ fileName) with
       | Some error => ret None
       | None =>
           ret (Some (SUPABASE_URL w +:+ "/storage/v1/object/public/"
                      +:+ bucket +:+ "/" +:+ folderPath +:+ "/" +:+ fileName))
       end)
      (fun error => ret None).

(** The [try]/[catch] around [pixelateImage] in [generateNFT]. *)
Definition pixelate_or_copy (nftPath pixelatedPath : string) : M string :=
  try_catch
    (pixelatedImagePath <- pixelateImage nftPath pixelatedPath ;;
     missing <- match pixelatedImagePath with
                | None => ret true
                | Some p => present <- existsSync p ;; ret (negb present)
                end ;;
     if missing : bool then
       copyFileSync nftPath pixelatedPath ;;
       ret pixelatedPath
     else ret (default pixelatedPath pixelatedImagePath))
    (fun pixelateError =>
       copyFileSync nftPath pixelatedPath ;;
       ret pixelatedPath).

Definition generateNFT (id : nat) : M NFT :=
  clearRect 0 0 (width cfg) (height cfg) ;;
  generated <- generate2DImage id ;;
  let nftPath := nftPath generated in
  let attributes := gen_attributes generated in
  let species := gen_species generated in
  present <- existsSync nftPath ;;
  if negb present then
    throw (JsError ("Failed to create 2D image at " +:+ nftPath))
  else
    let pixelatedPath :=
      outputFolder cfg +:+ species +:+ "_nft_" +:+ pretty id
      +:+ "_pixelated.png" in
    pixelatedImagePath <- pixelate_or_copy nftPath pixelatedPath ;;
    nftUrl <- uploadToSupabase nftPath "nft-storage" id ;;
    pixelatedUrl <- uploadToSupabase pixelatedImagePath "nft-storage" id ;;
    let metadata :=
      {| md_id := id;
         md_name := JsString.toUpperCase (JsString.charAt0 species)
                    +:+ JsString.slice1 species +:+ " Babiez #" +:+ pretty id;
         md_description := "Generated " +:+ species
                    +:+ " Space Babiez NFT with 2D and pixel art";
         md_image2D := nftUrl;
         md_pixelated := pixelatedUrl;
         md_attributes := attributes |} in
    writeFileSync
      (outputFolder cfg +:+ species +:+ "_nft_" +:+ pretty id +:+ ".json")
      (Json metadata) ;;
    ret {| nft_id := id; nft_species := species; nftUrl := nftUrl;
           pixelatedUrl := pixelatedUrl; metadata := metadata |}.

(** *** [generateMultipleNFTs]: [for (let i = 1; i <= count; i++)] *)

Fixpoint generate_from (i remaining : nat) (results : list NFT)
    : M (list NFT) :=
  match remaining with
  | O => ret results
  | S remaining' =>
      results' <- try_catch
        (result <- generateNFT i ;; ret (results ++ [result])%list)
        (fun error => ret results) ;;
      generate_from (S i) remaining' results'
  end.

Definition generateMultipleNFTs (count : nat) : M (list NFT) :=
  generate_from 1 count [].

End Engine.

(** ** The [Generator] class: the entry points that differ from the script *)

Module Generator.

Section Class.

Context (w : World) (this : Config).

Definition getSpeciesToGenerate : M string :=
  if Nat.eqb (length (availableSpecies this)) 0 then ret "indigo"
  else
    r <- random w ;;
    let randomIndex := floor_scaled r (length (availableSpecies this)) in
    ret (default "undefined" (js_index (availableSpecies this) randomIndex)).

(** [generate2DImage(id, species)]; [species || this.getSpeciesToGenerate()]
    takes the argument unless it is missing or empty. *)
Definition generate2DImage_try (id : nat) (species : option string)
    : M Generated :=
  ensure_outputFolder w this ;;
  species <- match species with
             | Some (String c s) => ret (String c s)
             | Some EmptyString | None => getSpeciesToGenerate
             end ;;
  composite w this id species.

Definition generate2DImage (id : nat) (species : option string)
    : M Generated :=
  try_catch (generate2DImage_try id species) (emergency w this id).

End Class.

End Generator.

(** ** The storage providers *)

(** *** [S3Storage.getRandomComponent] *)

(** The promise of [s3.listObjectsV2({ Bucket, Prefix })]: it rejects, or it
    resolves to an answer whose [Contents] may be missing; of a listed object
    only [Key] is read. *)
Inductive S3Listing :=
| S3Rejects (message : string)
| S3Contents (Contents : option (list string)).

Module S3Storage.

(** [this.config] *)
Record S3Config := {
  debug : bool;
  componentsBucket : string;
  storageBucket : string;
  region : string
}.

Section Provider.

Context (w : World) (this : S3Config)
        (listObjectsV2 : nat -> string -> string -> S3Listing).

Definition describe_object (Key : string) : FileEntry :=
  let fileName := path_basename w Key in
  let extension := JsString.toLowerCase (path_extname w fileName) in
  let fileType := if String.eqb extension ".svg" then "svg" else "bitmap" in
  {| file_url := "https://" +:+ componentsBucket this +:+ ".s3."
                 +:+ region this +:+ ".amazonaws.com/" +:+ Key;
     file_type := fileType;
     file_name := fileName |}.

Definition getRandomComponent (layerInfo : LayerInfo) (species : string)
    : M (option ComponentInfo) :=
  let prefix := species +:+ "/" +:+ category layerInfo +:+ "/" in
  try_catch
    (t <- tick ;;
     match listObjectsV2 t (componentsBucket this) prefix with
     | S3Rejects message => throw (StorageError message)
     | S3Contents Contents =>
         if Nat.eqb (length (default [] Contents)) 0 then
           if optional layerInfo then ret None
           else throw (JsError ("No components found for layer: " +:+ prefix))
         else
           let files :=
             List.map describe_object
               (List.filter is_image_file (default [] Contents)) in
           if Nat.eqb (length files) 0 then
             if optional layerInfo then ret None
             else throw (JsError ("No image files found for layer: "
                                  +:+ prefix))
           else
             selectedFile <- select_file w (type layerInfo) files ;;
             ret (Some {| ci_url := file_url selectedFile;
                          ci_name := file_name selectedFile;
                          ci_category := category layerInfo;
                          ci_type := type layerInfo |})
     end)
    (fun error => if optional layerInfo then ret None else throw error).

End Provider.

End S3Storage.

(** *** [SupabaseStorage.uploadFile] *)

Module SupabaseStorage.

Section Provider.

(** [this.storageBucket], and [path.dirname]. *)
Context (w : World) (storageBucket : string)
        (path_dirname : string -> string).

Definition uploadFile (filePath destinationPath : string) : M string :=
  present <- existsSync filePath ;;
  if negb present then
    throw (JsError ("File does not exist: " +:+ filePath))
  else
    try_catch
      (fileContent <- readFileSync filePath ;;
       let folderPath := path_dirname destinationPath in
       (if negb (String.eqb folderPath ".") then
          createFolderIfNotExists w storageBucket folderPath ;; ret tt
        else ret tt) ;;
       t <- tick ;;
       match storage_upload w t storageBucket destinationPath with
       | Some error => throw (StorageError error)
       | None =>
           let fileUrl :=
             SUPABASE_URL w +:+ "/storage/v1/object/public/"
             +:+ storageBucket +:+ "/" +:+ destinationPath in
           ret fileUrl
       end)
      (fun error => throw error).

End Provider.

End SupabaseStorage.

(** ** [Generator.generateNFT] *)

Module GeneratorNFT.

Section Class.

(** [this], and [this.storage.uploadFile] when [this.storage] is set and has
    such a method. *)
Context (w : World) (this : Config)
        (storage_uploadFile : option (string -> string -> M string)).

(** [pixelateImage(inputPath, outputPath, pixelSize = 8)] *)
Definition pixelateImage (inputPath outputPath : string) (pixelSize : nat)
    : M (option string) :=
  present <- existsSync inputPath ;;
  if negb present then ret None
  else if SKIP_PIXELATION this then
    try_catch
      (copyFileSync w inputPath outputPath ;; ret (Some outputPath))
      (fun copyError => ret None)
  else
    try_catch
      (buffer <- readFileSync inputPath ;;
       t <- tick ;;
       match jimp w t with
       | JimpThrows => throw (JsError "Jimp failed")
       | JimpNoFile => ret (Some outputPath)
       | JimpWrites =>
           modify (fun s => with_fs
             (<[outputPath := PixelatedPng pixelSize buffer]> (fs s)) s) ;;
           ret (Some outputPath)
       end)
      (fun error =>
         try_catch
           (copyFileSync w inputPath outputPath ;; ret (Some outputPath))
           (fun copyError => ret None)).

(** The [try]/[catch] around [this.pixelateImage] in [generateNFT]. *)
Definition pixelate_or_copy (nftPath pixelatedPath : string) : M string :=
  try_catch
    (pixelatedImagePath <- pixelateImage nftPath pixelatedPath 8 ;;
     missing <- match pixelatedImagePath with
                | None => ret true
                | Some p => present <- existsSync p ;; ret (negb present)
                end ;;
     if missing : bool then
       copyFileSync w nftPath pixelatedPath ;;
       ret pixelatedPath
     else ret (default pixelatedPath pixelatedImagePath))
    (fun pixelateError =>
       copyFileSync w nftPath pixelatedPath ;;
       ret pixelatedPath).

(** The upload step; it yields the final [(nftUrl, pixelatedUrl)]. Both
    start as the local paths, each is reassigned when its upload resolves,
    and one [catch] absorbs a rejection of either upload: a rejection of the
    second leaves the first reassigned. *)
Definition upload_artifacts (species : string) (id : nat)
    (nftPath pixelatedImagePath : string) : M (string * string) :=
  match storage_uploadFile with
  | Some uploadFile =>
      try_catch
        (nftUrl <- uploadFile nftPath
           ("nfts/" +:+ species +:+ "/" +:+ pretty id +:+ "/image.png") ;;
         try_catch
           (pixelatedUrl <- uploadFile pixelatedImagePath
              ("nfts/" +:+ species +:+ "/" +:+ pretty id
               +:+ "/image_pixelated.png") ;;
            ret (nftUrl, pixelatedUrl))
           (fun uploadError => ret (nftUrl, pixelatedImagePath)))
        (fun uploadError => ret (nftPath, pixelatedImagePath))
  | None => ret (nftPath, pixelatedImagePath)
  end.

(** [generateNFT(id, speciesOverride = null)] *)
Definition generateNFT (id : nat) (speciesOverride : option string)
    : M NFT :=
  clearRect 0 0 (width this) (height this) ;;
  species <- match speciesOverride with
             | Some (String c s) => ret (String c s)
             | Some EmptyString | None => Generator.getSpeciesToGenerate w this
             end ;;
  generated <- Generator.generate2DImage w this id (Some species) ;;
  let nftPath := nftPath generated in
  let attributes := gen_attributes generated in
  present <- existsSync nftPath ;;
  if negb present then
    throw (JsError ("Failed to create 2D image at " +:+ nftPath))
  else
    let pixelatedPath :=
      outputFolder this +:+ species +:+ "_nft_" +:+ pretty id
      +:+ "_pixelated.png" in
    pixelatedImagePath <- pixelate_or_copy nftPath pixelatedPath ;;
    urls <- upload_artifacts species id nftPath pixelatedImagePath ;;
    let nftUrl := fst urls in
    let pixelatedUrl := snd urls in
    let metadata :=
      {| md_id := id;
         md_name := JsString.toUpperCase (JsString.charAt0 species)
                    +:+ JsString.slice1 species +:+ " Babiez #" +:+ pretty id;
         md_description := "Generated " +:+ species
                    +:+ " Space Babiez NFT with 2D and pixel art";
         md_image2D := Some nftUrl;
         md_pixelated := Some pixelatedUrl;
         md_attributes := attributes |} in
    writeFileSync w
      (outputFolder this +:+ species +:+ "_nft_" +:+ pretty id +:+ ".json")
      (Json metadata) ;;
    ret {| nft_id := id; nft_species := species; nftUrl := Some nftUrl;
           pixelatedUrl := Some pixelatedUrl; metadata := metadata |}.

End Class.

End GeneratorNFT.

(** ** Transparency analysis *)

(** A decoded Jimp image: [bitmap.width], [bitmap.height] and the RGBA bytes
    of [bitmap.data]. *)
Record Bitmap := {
  bitmap_width : nat;
  bitmap_height : nat;
  bitmap_data : list Z
}.

(** [image.scan(x, y, w, h, f)]: [f] is called row by row with [x], [y] and
    the index [idx] of the pixel in the buffer. *)
Definition scan {A} (image : Bitmap) (x0 y0 w h : nat)
    (f : nat -> nat -> nat -> A -> A) (acc : A) : A :=
  fold_left
    (fun acc y =>
       fold_left
         (fun acc x => f x y (4 * (bitmap_width image * y + x))%nat acc)
         (seq x0 w) acc)
    (seq y0 h) acc.

(** [this.bitmap.data[idx + 3] < 255]; a read beyond the buffer gives
    [undefined], which is not below 255. *)
Definition alpha_below_255 (image : Bitmap) (idx : nat) : bool :=
  match bitmap_data image !! (idx + 3)%nat with
  | Some alpha => (alpha <? 255)%Z
  | None => false
  end.

(** What [Jimp.read(path)] resolves to, if it does. *)
Inductive JimpRead :=
| ReadFails (message : string)
| ReadImage (image : Bitmap).

(** A percentage computed as [transparentPixels / totalPixels * scale]; it is
    [NaN], here [None], for an image without pixels. *)
Definition percentage (transparentPixels totalPixels : nat) (scale : Q)
    : option Q :=
  if Nat.eqb totalPixels 0 then None
  else Some (inject_Z (Z.of_nat transparentPixels)
             / inject_Z (Z.of_nat totalPixels) * scale).

(** Comparisons of a number that may be [NaN] with a constant. *)
Definition js_lt (a : option Q) (b : Q) : bool :=
  match a with Some a => negb (Qle_bool b a) | None => false end.

Definition js_gt (a : option Q) (b : Q) : bool :=
  match a with Some a => negb (Qle_bool a b) | None => false end.

Definition js_ge (a : option Q) (b : Q) : bool :=
  match a with Some a => Qle_bool b a | None => false end.

Module TransparencyChecker.

(** The two messages of [getTransparencyWarnings], by what they report. *)
Inductive Warning :=
| BackgroundNotOpaque (transparencyPercent : option Q)
| LayerTooOpaque (layerType : string) (transparencyPercent : option Q).

Definition getTransparencyWarnings (layerType : string)
    (transparencyPercent : option Q) : list Warning :=
  let warnings := [] in
  if String.eqb layerType "background" && js_gt transparencyPercent 5 then
    (warnings ++ [BackgroundNotOpaque transparencyPercent])%list
  else if negb (String.eqb layerType "background")
          && js_lt transparencyPercent 30 then
    (warnings ++ [LayerTooOpaque layerType transparencyPercent])%list
  else warnings.

Definition appropriateTransparency (layerType : string)
    (transparencyPercent : option Q) : bool :=
  (String.eqb layerType "background" && js_lt transparencyPercent 5)
  || (negb (String.eqb layerType "background")
      && js_ge transparencyPercent 30).

Record Raster := {
  r_file : string;
  r_layer : string;
  r_width : nat;
  r_height : nat;
  r_transparentPixels : nat;
  r_totalPixels : nat;
  r_transparencyPercent : option Q;
  r_appropriateTransparency : bool;
  r_warnings : list Warning
}.

Inductive Analysis :=
| Vector (file layer : string)
| Bitmapped (report : Raster).

Section Checker.

Context (w : World) (Jimp_read : nat -> string -> JimpRead).

Definition checkImage (filePath layerType : string) : M Analysis :=
  present <- existsSync filePath ;;
  if negb present then
    throw (JsError ("File does not exist: " +:+ filePath))
  else if JsString.endsWith (JsString.toLowerCase filePath) ".svg" then
    ret (Vector (path_basename w filePath) layerType)
  else
    try_catch
      (t <- tick ;;
       match Jimp_read t filePath with
       | ReadFails message => throw (JsError message)
       | ReadImage image =>
           let width := bitmap_width image in
           let height := bitmap_height image in
           let totalPixels := (width * height)%nat in
           let transparentPixels :=
             scan image 0 0 width height
               (fun x y idx transparentPixels =>
                  if alpha_below_255 image idx then S transparentPixels
                  else transparentPixels)
               0%nat in
           let transparencyPercent :=
             percentage transparentPixels totalPixels 100 in
           ret (Bitmapped
             {| r_file := path_basename w filePath;
                r_layer := layerType;
                r_width := width;
                r_height := height;
                r_transparentPixels := transparentPixels;
                r_totalPixels := totalPixels;
                r_transparencyPercent := transparencyPercent;
                r_appropriateTransparency :=
                  appropriateTransparency layerType transparencyPercent;
                r_warnings :=
                  getTransparencyWarnings layerType transparencyPercent |})
       end)
      (fun error =>
         throw (JsError ("Error analyzing " +:+ filePath +:+ ": "
                         +:+ match error with
                             | JsError message | TypeError message
                             | StorageError message => message
                             | SystemError syscall path =>
                                 syscall +:+ " " +:+ path
                             end))).

(** [checkImageTransparency(imagePath, layerType)] of the script: the scan
    keeps the flag [hasTransparency] and the counter [transparentPixels]. *)
Definition checkImageTransparency (imagePath layerType : string) : M bool :=
  present <- existsSync imagePath ;;
  if negb present then ret false
  else
    try_catch
      (t <- tick ;;
       match Jimp_read t imagePath with
       | ReadFails message => throw (JsError message)
       | ReadImage image =>
           let scanned :=
             scan image 0 0 (bitmap_width image) (bitmap_height image)
               (fun x y idx '(hasTransparency, transparentPixels) =>
                  if alpha_below_255 image idx
                  then (true, S transparentPixels)
                  else (hasTransparency, transparentPixels))
               (false, 0%nat) in
           ret (fst scanned)
       end)
      (fun error => ret false).

End Checker.

End TransparencyChecker.

(** ** [ImageUtils] *)

Module ImageUtils.

(** The colour [{ r, g, b, a }] that [createTextureFromHeightmap] computes
    for a pixel. *)
Record Color := {
  color_r : Q;
  color_g : Q;
  color_b : Q;
  color_a : Q
}.

(** [a < b] on numbers *)
Definition lt_num (a b : Q) : bool := negb (Qle_bool b a).

(** The body of the scan callback of [createTextureFromHeightmap], from the
    bytes [r], [g], [b] of the heightmap pixel to [color]. *)
Definition color (r g b : Z) : Color :=
  let brightness := inject_Z (r + g + b) / 3 in
  let normalizedHeight := brightness / 255 in
  if lt_num normalizedHeight 0.2 then
    {| color_r := 0; color_g := 50 + normalizedHeight * 150; color_b := 200;
       color_a := 255 |}
  else if lt_num normalizedHeight 0.3 then
    {| color_r := 240; color_g := 220; color_b := 130; color_a := 255 |}
  else if lt_num normalizedHeight 0.7 then
    {| color_r := 50 + (normalizedHeight - 0.3) * 100;
       color_g := 100 + (normalizedHeight - 0.3) * 80;
       color_b := 50; color_a := 255 |}
  else
    let grey := 150 + (normalizedHeight - 0.7) * 420 in
    {| color_r := grey; color_g := grey; color_b := grey; color_a := 255 |}.

(** The answer of [checkTransparency]. *)
Record Transparency := {
  hasTransparency : bool;
  transparentPixels : nat;
  totalPixels : nat;
  transparencyPercent : option Q;
  dimensions : nat * nat
}.

Section Utils.

Context (Jimp_read : nat -> string -> JimpRead).

Definition checkTransparency (imagePath : string) : M Transparency :=
  present <- existsSync imagePath ;;
  if negb present then
    throw (JsError ("File does not exist: " +:+ imagePath))
  else
    try_catch
      (t <- tick ;;
       match Jimp_read t imagePath with
       | ReadFails message => throw (JsError message)
       | ReadImage image =>
           let width := bitmap_width image in
           let height := bitmap_height image in
           let totalPixels := (width * height)%nat in
           let transparentPixels :=
             scan image 0 0 width height
               (fun x y idx transparentPixels =>
                  if alpha_below_255 image idx then S transparentPixels
                  else transparentPixels)
               0%nat in
           let transparencyPercent :=
             percentage transparentPixels totalPixels 100 in
           ret {| hasTransparency := (0 <? transparentPixels)%nat;
                  transparentPixels := transparentPixels;
                  totalPixels := totalPixels;
                  transparencyPercent := transparencyPercent;
                  dimensions := (width, height) |}
       end)
      (fun error =>
         throw (JsError ("Error analyzing image: "
                         +:+ match error with
                             | JsError message | TypeError message
                             | StorageError message => message
                             | SystemError syscall path =>
                                 syscall +:+ " " +:+ path
                             end))).

End Utils.

End ImageUtils.


(** ** The script's constants, and concrete worlds to run it in *)

(** [width], [height], [layerConfig], [outputFolder], [availableSpecies] and
    the two [DEBUG] flags read from the environment. *)
Definition script (skipPixelation saveIntermediateLayers : bool) : Config :=
  {| width := 512; height := 512;
     cfg_layerConfig := layerConfig;
     outputFolder := "./output/";
     availableSpecies := ["indigo"; "green"];
     SKIP_PIXELATION := skipPixelation;
     SAVE_INTERMEDIATE_LAYERS := saveIntermediateLayers;
     storage_configured := true |}.

(** A context as [canvas.getContext("2d")] hands it out. *)
Definition fresh_ctx : Ctx :=
  {| fillStyle := "#000000"; font := "10px sans-serif"; textAlign := "start";
     globalCompositeOperation := "source-over"; drawn := [] |}.

(** The state at start-up, over the files already on disk. *)
Definition boot (files : gmap string Content) : State :=
  {| clock := 0; fs := files; ctx := fresh_ctx; attributes := [];
     backgroundDrawn := false; drawnCategories := ∅ |}.

(** A world whose answers do not change with time: every folder lists
    [listing], images load as [load] says, [Math.random()] is always [r],
    writes fail on the paths [faulty], and Jimp behaves as [j]. *)
Definition steady_world (listing : string -> ListResponse)
    (load : string -> option Image) (r : Q) (faulty : string -> bool)
    (j : JimpOutcome) : World :=
  {| env_SPECIES := None;
     SUPABASE_URL := "https://sb.example";
     path_extname := NodePath.posix_extname;
     path_basename := NodePath.posix_basename;
     Math_random := fun _ => r;
     storage_list := fun _ _ path => listing path;
     storage_upload := fun _ _ _ => None;
     loadImage := fun _ url => load url;
     drawImage_throws := fun _ _ _ => false;
     fs_fault := fun _ path => faulty path;
     jimp := fun _ => j |}.

Definition square_image (url : string) : option Image :=
  Some {| image_src := url; image_width := 512; image_height := 512 |}.

(** Every folder of the bucket is empty. *)
Definition empty_bucket_world : World :=
  steady_world (fun _ => ListData (Some [])) square_image 0
    (fun _ => false) JimpWrites.

(** Every folder holds one PNG, and every image loads. *)
Definition one_png_world : World :=
  steady_world (fun _ => ListData (Some ["cap.png"])) square_image 0
    (fun _ => false) JimpWrites.

(** Every folder holds one PNG, and no image can be decoded. *)
Definition undecodable_world : World :=
  steady_world (fun _ => ListData (Some ["sky.png"])) (fun _ => None) 0
    (fun _ => false) JimpWrites.

(** No file can be written, copied or created. *)
Definition read_only_world : World :=
  steady_world (fun _ => ListData (Some ["cap.png"])) square_image 0
    (fun _ => true) JimpWrites.

(** Only the pixelated artifact cannot be written, and Jimp throws. *)
Definition no_pixelated_world : World :=
  steady_world (fun _ => ListData (Some ["cap.png"])) square_image 0
    (fun path => JsString.endsWith path "_pixelated.png") JimpThrows.

(** Only the emergency image of identifier 1 can be written. *)
Definition emergency_only_world : World :=
  steady_world (fun _ => ListData (Some ["cap.png"])) square_image 0
    (fun path => negb (String.eqb path "./output/emergency_1.png"))
    JimpWrites.

(** Every file operation succeeds, but Jimp throws. *)
Definition jimp_throws_world : World :=
  steady_world (fun _ => ListData (Some ["cap.png"])) square_image 0
    (fun _ => false) JimpThrows.

(** A configuration, as [Generator] accepts one, with a layer whose category
    is named like the species trait. *)
Definition species_layer_config : Config :=
  {| width := 512; height := 512;
     cfg_layerConfig :=
       [{| category := "species"; type := "accessory"; optional := false |}];
     outputFolder := "./output/";
     availableSpecies := ["indigo"; "green"];
     SKIP_PIXELATION := false;
     SAVE_INTERMEDIATE_LAYERS := false;
     storage_configured := true |}.

(** ** More concrete worlds *)

(** Every folder holds one PNG, every image loads, and no image can be
    drawn. *)
Definition undrawable_world : World :=
  {| env_SPECIES := None;
     SUPABASE_URL := "https://sb.example";
     path_extname := NodePath.posix_extname;
     path_basename := NodePath.posix_basename;
     Math_random := fun _ => 0;
     storage_list := fun _ _ _ => ListData (Some ["cap.png"]);
     storage_upload := fun _ _ _ => None;
     loadImage := fun _ url => square_image url;
     drawImage_throws := fun _ _ _ => true;
     fs_fault := fun _ _ => false;
     jimp := fun _ => JimpWrites |}.

(** Listing any folder of the bucket fails. *)
Definition unlisted_world : World :=
  steady_world (fun _ => ListError "Bucket not found") square_image 0
    (fun _ => false) JimpWrites.

(** The species is asked for at random, and no upload goes through. *)
Definition offline_world : World :=
  {| env_SPECIES := Some "random";
     SUPABASE_URL := "https://sb.example";
     path_extname := NodePath.posix_extname;
     path_basename := NodePath.posix_basename;
     Math_random := fun _ => 1 # 2;
     storage_list := fun _ _ _ => ListData (Some ["cap.png"]);
     storage_upload := fun _ _ _ => Some "offline";
     loadImage := fun _ url => square_image url;
     drawImage_throws := fun _ _ _ => false;
     fs_fault := fun _ _ => false;
     jimp := fun _ => JimpWrites |}.





(** ** Vocabulary of the statements *)

(** [r] lies in the [k]-th of the [n] equal slices of the unit interval:
    [k / n <= r < (k + 1) / n]. *)
Definition in_slice (k n : nat) (r : Q) : Prop :=
  inject_Z (Z.of_nat k) / inject_Z (Z.of_nat n) <= r
  /\ r < inject_Z (Z.of_nat k + 1) / inject_Z (Z.of_nat n).

(** [x] is the element of [pool] whose slice holds the draw [r].  The slices
    are as many as the elements, equally wide and disjoint, so a draw that
    is uniform on the unit interval picks every element equally often. *)
Definition picked_uniformly {A} (pool : list A) (r : Q) (x : A) : Prop :=
  exists k : nat, pool !! k = Some x /\ in_slice k (length pool) r.

(** [x] is [y] up to the relative error [d]. *)
Definition within (d x y : Q) : Prop := Qabs (x - y) <= Qabs y * d.

(** What [Math.random()] can return: a double of the interval from 0 to 1,
    1 excluded. *)
Definition unit_double (r : Q) : Prop :=
  0 <= r /\ r < 1 /\ Double.round r == r.

(** [r] lies in the [k]-th of the [n] equal slices of the unit interval up
    to the rounding of the product [r * n]: the slice is widened at both
    ends by the relative error of one rounding. *)
Definition near_slice (k n : nat) (r : Q) : Prop :=
  inject_Z (Z.of_nat k)
  <= r * inject_Z (Z.of_nat n) * (1 + Double.epsilon)
  /\ r * inject_Z (Z.of_nat n) * (1 - Double.epsilon)
     < inject_Z (Z.of_nat k + 1).

(** [x] is the element of [pool] whose slice holds the draw [r] up to the
    rounding of the product, and exactly so when the product [r * n] is a
    double. *)
Definition picked_nearly_uniformly {A} (pool : list A) (r : Q) (x : A)
    : Prop :=
  exists k : nat,
    pool !! k = Some x
    /\ near_slice k (length pool) r
    /\ (Double.round (r * inject_Z (Z.of_nat (length pool)))
        == r * inject_Z (Z.of_nat (length pool)) ->
        in_slice k (length pool) r).


(** The trait list of the emergency result. *)
Definition emergency_traits : list Attribute :=
  [{| trait_type := "error"; value := "generation_failed" |}].

(** The species trait first, no trait type twice, and every other trait
    named after a category of the configuration. *)
Definition well_formed_traits (cfg : Config) (species : string)
    (traits : list Attribute) : Prop :=
  exists rest,
    traits = {| trait_type := "species"; value := species |} :: rest
    /\ NoDup (List.map trait_type traits)
    /\ forall a, In a rest ->
         exists l, In l (cfg_layerConfig cfg) /\ category l = trait_type a.

(** What the loop over the layers keeps true: after the species trait come
    traits of distinct types, all of them drawn categories of the
    configuration. *)
Definition loop_invariant (cfg : Config) (species : string) (s : State)
    : Prop :=
  exists rest,
    attributes s = {| trait_type := "species"; value := species |} :: rest
    /\ NoDup (List.map trait_type rest)
    /\ (forall c, In c (List.map trait_type rest) -> c ∈ drawnCategories s)
    /\ (forall c, In c (List.map trait_type rest) ->
        exists l, In l (cfg_layerConfig cfg) /\ category l = c).

(** A pixel of the image is not fully opaque. *)
Definition transparent_at (image : Bitmap) (x y : nat) : bool :=
  alpha_below_255 image (4 * (bitmap_width image * y + x))%nat.

Definition some_pixel_transparent (image : Bitmap) : Prop :=
  exists x y,
    (x < bitmap_width image)%nat /\ (y < bitmap_height image)%nat
    /\ transparent_at image x y = true.

(** The state in which [generateMultipleNFTs] starts on the identifier
    [k + 1]: the state the generations 1 to [k] leave, whether they
    returned or threw. *)
Fixpoint loop_state (w : World) (cfg : Config) (k : nat) (s : State)
    : State :=
  match k with
  | O => s
  | S k' => snd (generateNFT w cfg k (loop_state w cfg k' s))
  end.

(** * Properties *)

(** ** Rounding to the nearest double *)

Section DoubleFacts.

Import Double.

Lemma pow2_pos (z : Z) : 0 < pow2 z.
Proof. apply Qpower_0_lt. reflexivity. Qed.

Lemma pow2_succ (z : Z) : pow2 (z + 1) == 2 * pow2 z.
Proof.
  unfold pow2. rewrite Qpower_plus by discriminate.
  rewrite Qpower_1_r. ring.
Qed.

Lemma pow2_inject (z : Z) : (0 <= z)%Z -> pow2 z == inject_Z (2 ^ z).
Proof.
  intros Hz. unfold pow2. rewrite Zpower_Qpower by exact Hz. reflexivity.
Qed.

Lemma pow2_le (a b : Z) : (a <= b)%Z -> pow2 a <= pow2 b.
Proof. intros Hab. apply Qpower_le_compat_l; [exact Hab | discriminate]. Qed.

Lemma pow2_lt_inv (a b : Z) : pow2 a < pow2 b -> (a < b)%Z.
Proof.
  intros Hab. apply (Qpower_lt_compat_l_inv 2); [exact Hab | reflexivity].
Qed.

(** [exponent] finds the binade of a positive rational. *)
Lemma exponent_spec (x : Q) :
  0 < x -> pow2 (exponent x) <= x /\ x < pow2 (exponent x + 1).
Proof.
  intros Hx. destruct x as [a b].
  assert (Ha : (0 < a)%Z).
  { unfold Qlt in Hx. cbn in Hx. lia. }
  unfold exponent. cbn [Qnum Qden].
  set (la := Z.log2 a). set (lb := Z.log2 (Z.pos b)).
  destruct (Z.log2_spec a Ha) as [Ha1 Ha2]. fold la in Ha1, Ha2.
  destruct (Z.log2_spec (Z.pos b) eq_refl) as [Hb1 Hb2].
  fold lb in Hb1, Hb2.
  assert (Hla : (0 <= la)%Z) by apply Z.log2_nonneg.
  assert (Hlb : (0 <= lb)%Z) by apply Z.log2_nonneg.
  rewrite Z.pow_succ_r in Ha2, Hb2 by assumption.
  set (A := inject_Z a). set (B := inject_Z (Z.pos b)).
  set (P := inject_Z (2 ^ la)). set (R := inject_Z (2 ^ lb)).
  assert (HP : 0 < P).
  { subst P. change 0 with (inject_Z 0). rewrite <- Zlt_Qlt. lia. }
  assert (HR : 0 < R).
  { subst R. change 0 with (inject_Z 0). rewrite <- Zlt_Qlt. lia. }
  assert (HPA : P <= A) by (subst P A; rewrite <- Zle_Qle; lia).
  assert (HAP : A < 2 * P).
  { subst P A. change 2 with (inject_Z 2). rewrite <- inject_Z_mult.
    rewrite <- Zlt_Qlt. lia. }
  assert (HRB : R <= B) by (subst R B; rewrite <- Zle_Qle; lia).
  assert (HBR : B < 2 * R).
  { subst R B. change 2 with (inject_Z 2). rewrite <- inject_Z_mult.
    rewrite <- Zlt_Qlt. lia. }
  assert (Hx' : a # b == A / B) by apply Qmake_Qdiv.
  assert (He0 : pow2 (la - lb) == P / R).
  { unfold pow2. rewrite Qpower_minus by discriminate.
    fold (pow2 la). fold (pow2 lb).
    rewrite (pow2_inject la Hla), (pow2_inject lb Hlb). reflexivity. }
  assert (HB : 0 < B) by lra.
  assert (HXB : A / B * B == A) by (field; lra).
  assert (HYR : P / R * R == P) by (field; lra).
  assert (HY : 0 < P / R) by (apply Qlt_shift_div_l; lra).
  assert (HX : 0 < A / B) by (apply Qlt_shift_div_l; lra).
  destruct (Qle_bool (pow2 (la - lb)) (a # b)) eqn:Hle.
  - apply Qle_bool_iff in Hle. split; [exact Hle|].
    rewrite pow2_succ, He0, Hx'.
    apply Qlt_shift_div_r; [exact HB|].
    assert (Hstep : 2 * P <= 2 * (P / R) * B).
    { setoid_replace (2 * P) with (2 * (P / R) * R) using relation Qeq
        by (rewrite <- HYR at 1; ring).
      apply Qmult_le_l; [lra|]. exact HRB. }
    lra.
  - assert (Hlt : a # b < pow2 (la - lb)).
    { apply Qnot_le_lt. intros Hc. apply Qle_bool_iff in Hc. congruence. }
    replace (la - lb - 1 + 1)%Z with (la - lb)%Z by lia.
    split; [|exact Hlt].
    assert (Hhalf : pow2 (la - lb) == 2 * pow2 (la - lb - 1)).
    { rewrite <- pow2_succ.
      replace (la - lb - 1 + 1)%Z with (la - lb)%Z by lia. reflexivity. }
    assert (Hgoal : 2 * pow2 (la - lb - 1) <= 2 * (a # b)); [|lra].
    rewrite <- Hhalf, He0, Hx'.
    apply Qle_shift_div_r; [exact HR|].
    assert (Hstep : 2 * (A / B) * R >= (A / B) * B).
    { setoid_replace (2 * (A / B) * R) with ((A / B) * (2 * R)) using relation Qeq by ring.
      apply Qmult_le_l; [exact HX|]. lra. }
    lra.
Qed.

Lemma exponent_unique (x : Q) (e : Z) :
  pow2 e <= x -> x < pow2 (e + 1) -> exponent x = e.
Proof.
  intros He1 He2.
  assert (Hx : 0 < x) by (pose proof (pow2_pos e); lra).
  destruct (exponent_spec x Hx) as [Hs1 Hs2].
  assert (H1 : (e < exponent x + 1)%Z) by (apply pow2_lt_inv; lra).
  assert (H2 : (exponent x < e + 1)%Z) by (apply pow2_lt_inv; lra).
  lia.
Qed.

Lemma round_half_even_error (y : Q) :
  y - (1 # 2) <= inject_Z (round_half_even y)
  /\ inject_Z (round_half_even y) <= y + (1 # 2).
Proof.
  unfold round_half_even.
  pose proof (Qfloor_le y) as Hlo. pose proof (Qlt_floor y) as Hhi.
  rewrite inject_Z_plus in Hhi. change (inject_Z 1) with 1 in Hhi.
  destruct (Qcompare_spec (y - inject_Z (Qfloor y)) (1 # 2))
    as [Heq|Hlt|Hgt].
  - destruct (Z.even (Qfloor y)).
    + split; lra.
    + rewrite inject_Z_plus. change (inject_Z 1) with 1. split; lra.
  - split; lra.
  - rewrite inject_Z_plus. change (inject_Z 1) with 1. split; lra.
Qed.

Lemma round_half_even_comp (x y : Q) :
  x == y -> round_half_even x = round_half_even y.
Proof.
  intros Hxy. unfold round_half_even.
  rewrite (Qfloor_comp _ _ Hxy).
  rewrite (Qcompare_comp (x - inject_Z (Qfloor y)) (y - inject_Z (Qfloor y))
             ltac:(rewrite Hxy; reflexivity) (1 # 2) (1 # 2)
             ltac:(reflexivity)).
  reflexivity.
Qed.

Lemma round_positive_error (x : Q) :
  0 < x ->
  x * (1 - epsilon) <= round_positive x
  /\ round_positive x <= x * (1 + epsilon).
Proof.
  intros Hx. unfold round_positive.
  destruct (exponent_spec x Hx) as [He _].
  set (e := exponent x) in *.
  set (u := pow2 (e - 52)).
  assert (Hu : 0 < u) by apply pow2_pos.
  assert (Hue : u == pow2 e * (2 * epsilon)).
  { subst u. unfold pow2. change (e - 52)%Z with (e + -52)%Z.
    rewrite Qpower_plus by discriminate.
    apply Qmult_comp; reflexivity. }
  destruct (round_half_even_error (x / u)) as [Hlo Hhi].
  set (m := inject_Z (round_half_even (x / u))) in *.
  assert (Hxu : x / u * u == x) by (field; lra).
  set (y := x / u) in *.
  assert (Heps : 0 < epsilon) by reflexivity.
  assert (Hhalf : u * (1 # 2) <= x * epsilon).
  { rewrite Hue.
    setoid_replace (pow2 e * (2 * epsilon) * (1 # 2))
      with (pow2 e * epsilon) using relation Qeq by ring.
    apply Qmult_le_compat_r; lra. }
  assert (H1 : (y - (1 # 2)) * u <= m * u)
    by (apply Qmult_le_compat_r; lra).
  assert (H2 : m * u <= (y + (1 # 2)) * u)
    by (apply Qmult_le_compat_r; lra).
  setoid_replace ((y - (1 # 2)) * u) with (x - u * (1 # 2)) using relation Qeq in H1
    by (rewrite <- Hxu at 1; ring).
  setoid_replace ((y + (1 # 2)) * u) with (x + u * (1 # 2)) using relation Qeq in H2
    by (rewrite <- Hxu at 1; ring).
  split; lra.
Qed.

Lemma round_value (x : Q) :
  round x == match Qcompare x 0 with
             | Eq => 0
             | Gt => round_positive x
             | Lt => - round_positive (- x)
             end.
Proof. unfold round. apply Qred_correct. Qed.

(** One rounding changes a number by at most the fraction [epsilon] of
    it. *)
Lemma round_error (x : Q) : within epsilon (round x) x.
Proof.
  unfold within.
  assert (Heps : 0 < epsilon) by reflexivity.
  rewrite round_value.
  destruct (Qcompare_spec x 0) as [Heq|Hlt|Hgt].
  - rewrite Heq. cbn. discriminate.
  - assert (Hpos : 0 < - x) by lra.
    destruct (round_positive_error (- x) Hpos) as [Hlo Hhi].
    rewrite (Qabs_neg x) by lra.
    apply Qabs_case; intros _; lra.
  - destruct (round_positive_error x Hgt) as [Hlo Hhi].
    rewrite (Qabs_pos x) by lra.
    apply Qabs_case; intros _; lra.
Qed.

Lemma round_nonneg_error (x : Q) :
  0 <= x ->
  x * (1 - epsilon) <= round x /\ round x <= x * (1 + epsilon).
Proof.
  intros Hx. pose proof (round_error x) as Herr. unfold within in Herr.
  rewrite (Qabs_pos x) in Herr by exact Hx.
  assert (Heps : 0 < epsilon) by reflexivity.
  assert (Hxe : 0 <= x * epsilon) by (apply Qmult_le_0_compat; lra).
  revert Herr. apply Qabs_case; intros Hsign Herr; split; lra.
Qed.

Lemma round_positive_comp (x y : Q) :
  0 < x -> x == y -> round_positive x == round_positive y.
Proof.
  intros Hx Hxy. unfold round_positive.
  assert (He : exponent y = exponent x).
  { destruct (exponent_spec x Hx) as [H1 H2].
    apply exponent_unique; rewrite <- Hxy; assumption. }
  rewrite He.
  rewrite (round_half_even_comp (x / pow2 (exponent x - 52))
             (y / pow2 (exponent x - 52)))
    by (apply Qdiv_comp; [exact Hxy | reflexivity]).
  reflexivity.
Qed.

(** Equal rationals round to the same double. *)
Lemma round_comp (x y : Q) : x == y -> round x = round y.
Proof.
  intros Hxy. unfold round. apply Qred_complete.
  rewrite (Qcompare_comp x y Hxy 0 0 ltac:(reflexivity)).
  destruct (Qcompare_spec y 0) as [Heq|Hlt|Hgt].
  - reflexivity.
  - apply Qopp_comp. apply round_positive_comp; lra.
  - apply round_positive_comp; lra.
Qed.

Lemma round_positive_twice (x : Q) :
  0 < x -> round_positive (2 * x) == 2 * round_positive x.
Proof.
  intros Hx. unfold round_positive.
  destruct (exponent_spec x Hx) as [H1 H2].
  assert (He : exponent (2 * x) = (exponent x + 1)%Z).
  { apply exponent_unique; rewrite !pow2_succ in *; lra. }
  rewrite He.
  replace (exponent x + 1 - 52)%Z with (exponent x - 52 + 1)%Z by lia.
  set (u := pow2 (exponent x - 52)).
  assert (Hu : 0 < u) by apply pow2_pos.
  rewrite (round_half_even_comp (2 * x / pow2 (exponent x - 52 + 1)) (x / u)).
  - rewrite pow2_succ. fold u. ring.
  - rewrite pow2_succ. fold u. field. lra.
Qed.

(** Doubling is exact: it only moves the exponent. *)
Lemma round_twice (x : Q) : round (2 * x) == 2 * round x.
Proof.
  rewrite !round_value.
  destruct (Qcompare_spec x 0) as [Heq|Hlt|Hgt];
    destruct (Qcompare_spec (2 * x) 0) as [Heq'|Hlt'|Hgt']; try lra.
  - rewrite (round_positive_comp (- (2 * x)) (2 * - x)) by (lra || ring).
    rewrite round_positive_twice by lra. ring.
  - apply round_positive_twice. exact Hgt.
Qed.

(** A double below 1 is at most the largest double below 1. *)
Lemma representable_below_one (r : Q) :
  0 <= r -> r < 1 -> round r == r -> r <= 1 - epsilon.
Proof.
  intros H0 H1 Hr.
  assert (Heps : 0 < epsilon) by reflexivity.
  assert (Heps1 : epsilon < 1) by reflexivity.
  rewrite round_value in Hr.
  destruct (Qcompare_spec r 0) as [Heq|Hlt|Hgt]; [lra | lra |].
  unfold round_positive in Hr.
  destruct (exponent_spec r Hgt) as [He1 He2].
  set (e := exponent r) in *.
  assert (He : (e < 0)%Z).
  { apply pow2_lt_inv. change (pow2 0) with 1. lra. }
  set (u := pow2 (e - 52)) in *.
  assert (Hu : 0 < u) by apply pow2_pos.
  set (m := round_half_even (r / u)) in *.
  assert (Htop : pow2 (e + 1) == inject_Z (2 ^ 53) * u).
  { subst u. rewrite <- (pow2_inject 53) by lia.
    unfold pow2. rewrite <- Qpower_plus by discriminate.
    replace (53 + (e - 52))%Z with (e + 1)%Z by lia. reflexivity. }
  assert (Hm : (m < 2 ^ 53)%Z).
  { rewrite Zlt_Qlt.
    apply (Qmult_lt_r _ _ u Hu). rewrite Hr, <- Htop. exact He2. }
  assert (Hm' : inject_Z m <= inject_Z (2 ^ 53 - 1)).
  { rewrite <- Zle_Qle. lia. }
  assert (Hu' : u <= epsilon).
  { subst u. unfold epsilon. apply pow2_le. lia. }
  assert (Hstep : inject_Z m * u <= inject_Z (2 ^ 53 - 1) * u)
    by (apply Qmult_le_compat_r; lra).
  assert (Hstep' :
    inject_Z (2 ^ 53 - 1) * u <= inject_Z (2 ^ 53 - 1) * epsilon).
  { apply Qmult_le_l; [reflexivity | exact Hu']. }
  assert (Hval : inject_Z (2 ^ 53 - 1) * epsilon == 1 - epsilon)
    by reflexivity.
  lra.
Qed.

(** *** Relative errors *)

Lemma within_eq (d x y y' : Q) : y == y' -> within d x y -> within d x y'.
Proof. unfold within. intros Hy Hw. rewrite <- Hy. exact Hw. Qed.

Lemma mult_le_l (a x y : Q) : 0 <= a -> x <= y -> a * x <= a * y.
Proof.
  intros Ha Hxy. rewrite (Qmult_comm a x), (Qmult_comm a y).
  apply Qmult_le_compat_r; assumption.
Qed.

Lemma within_weaken (d d' x y : Q) :
  d <= d' -> within d x y -> within d' x y.
Proof.
  unfold within. intros Hd Hw.
  eapply Qle_trans; [exact Hw|].
  apply mult_le_l; [apply Qabs_nonneg | exact Hd].
Qed.

Lemma within_scale (d k x y : Q) :
  within d x y -> within d (k * x) (k * y).
Proof.
  unfold within. intros Hw.
  setoid_replace (k * x - k * y) with (k * (x - y)) using relation Qeq by ring.
  rewrite !Qabs_Qmult, <- Qmult_assoc.
  apply mult_le_l; [apply Qabs_nonneg | exact Hw].
Qed.

Lemma within_trans (d1 d2 x y z : Q) :
  0 <= d1 -> 0 <= d2 ->
  within d1 x y -> within d2 y z -> within (d1 + d2 + d1 * d2) x z.
Proof.
  unfold within. intros Hd1 Hd2 Hxy Hyz.
  assert (Hy : Qabs y <= Qabs z + Qabs z * d2).
  { setoid_replace y with (z + (y - z)) using relation Qeq at 1 by ring.
    eapply Qle_trans; [apply Qabs_triangle|]. lra. }
  assert (Htri : Qabs (x - z) <= Qabs (x - y) + Qabs (y - z)).
  { setoid_replace (x - z) with ((x - y) + (y - z)) using relation Qeq by ring.
    apply Qabs_triangle. }
  assert (Hprod : Qabs y * d1 <= (Qabs z + Qabs z * d2) * d1)
    by (apply Qmult_le_compat_r; assumption).
  pose proof (Qabs_nonneg z) as Hz.
  setoid_replace (Qabs z * (d1 + d2 + d1 * d2))
    with ((Qabs z + Qabs z * d2) * d1 + Qabs z * d2) using relation Qeq by ring.
  lra.
Qed.

(** A rectangle of width [d] put at [(W - d) / 2], both operations
    rounded, leaves the same margin on both sides of a canvas of width [W]
    up to the rounding of the free width [W - d]. *)
Lemma centred_margins (W d : Q) :
  let x := div (sub W d) 2 in
  Qabs (x + d + x - W) <= Qabs (W - d) * (3 * epsilon).
Proof.
  cbv zeta. unfold div, sub.
  assert (Heps : 0 <= epsilon) by discriminate.
  pose proof (round_error (W - d)) as Hs.
  pose proof (round_error (round (W - d) / 2)) as Hx.
  assert (Hhalf : within epsilon (round (W - d) / 2) ((W - d) / 2)).
  { apply (within_scale _ (1 # 2)) in Hs.
    unfold within in *.
    setoid_replace (round (W - d) / 2 - (W - d) / 2)
      with ((1 # 2) * round (W - d) - (1 # 2) * (W - d)) using relation Qeq by field.
    setoid_replace ((W - d) / 2) with ((1 # 2) * (W - d)) using relation Qeq by field.
    exact Hs. }
  pose proof (within_trans _ _ _ _ _ Heps Heps Hx Hhalf) as Hboth.
  apply (within_scale _ 2) in Hboth.
  apply (within_weaken _ (3 * epsilon)) in Hboth; [|vm_compute; discriminate].
  unfold within in Hboth.
  setoid_replace (2 * ((W - d) / 2)) with (W - d) using relation Qeq
    in Hboth by field.
  setoid_replace (round (round (W - d) / 2) + d + round (round (W - d) / 2)
                  - W)
    with (2 * round (round (W - d) / 2) - (W - d)) using relation Qeq
    by ring.
  exact Hboth.
Qed.

End DoubleFacts.

(** ** The placement resolver *)

Section Placement.

Variables (W H : Q) (category : string) (image : Image).


(** The stretched width of an outfit is three roundings away from 1.15
    times the width the height scale gives. *)
Lemma stretched_width (imgW heightScale : Q) :
  within (4 * Double.epsilon)
    (Double.mul imgW (Double.mul heightScale (Double.round 1.15)))
    (1.15 * (imgW * heightScale)).
Proof.
  unfold Double.mul.
  assert (Heps : 0 <= Double.epsilon) by discriminate.
  pose proof (round_error 1.15) as Hc.
  apply (within_scale _ heightScale) in Hc.
  pose proof (round_error (heightScale * Double.round 1.15)) as Hs.
  pose proof (within_trans _ _ _ _ _ Heps Heps Hs Hc) as Hw.
  apply (within_scale _ imgW) in Hw.
  pose proof (round_error
                (imgW * Double.round (heightScale * Double.round 1.15)))
    as Hd.
  assert (Heps2 : 0 <= Double.epsilon + Double.epsilon
                       + Double.epsilon * Double.epsilon) by discriminate.
  pose proof (within_trans _ _ _ _ _ Heps Heps2 Hd Hw) as Hall.
  apply (within_weaken _ (4 * Double.epsilon)) in Hall;
    [|vm_compute; discriminate].
  apply (within_eq _ _ (imgW * (heightScale * 1.15))); [ring | exact Hall].
Qed.

(** C5, amended. A layer of type outfit, for an image of positive size:
    the height scale is the smaller of [W / imgW * 0.9] and
    [H / imgH * 0.9]; the drawn width is [imgW * (heightScale * 1.15)],
    every operation rounded, which is 1.15 times the width the height scale
    alone would give up to the relative error of three roundings; the
    rectangle is centred with that stretched width, the two margins equal
    up to the rounding of the free width, and it sits at [H * 0.1]. *)
Theorem outfit_placement :
  0 < image_width image -> 0 < image_height image ->
  let heightScale :=
    Qmin (Double.mul (Double.div W (image_width image)) (Double.round 0.9))
         (Double.mul (Double.div H (image_height image)) (Double.round 0.9))
  in
  let r := placement W H "outfit" category image in
  drawHeight r = Double.mul (image_height image) heightScale
  /\ drawWidth r
     = Double.mul (image_width image)
         (Double.mul heightScale (Double.round 1.15))
  /\ within (4 * Double.epsilon) (drawWidth r)
       (1.15 * (image_width image * heightScale))
  /\ drawX r = Double.div (Double.sub W (drawWidth r)) 2
  /\ Qabs (drawX r + drawWidth r + drawX r - W)
     <= Qabs (W - drawWidth r) * (3 * Double.epsilon)
  /\ drawY r = Double.mul H (Double.round 0.1).
Proof.
  intros _ _. cbv zeta.
  cbn [placement String.eqb Ascii.eqb Bool.eqb drawX drawY drawWidth
       drawHeight].
  split; [reflexivity|]. split; [reflexivity|].
  split; [apply stretched_width|]. split; [reflexivity|].
  split; [apply centred_margins | reflexivity].
Qed.



End Placement.

(** A coat of 100 by 200 pixels on the script's canvas. *)
Lemma outfit_placement_witness :
  let image := {| image_src := "coat.png"; image_width := 100;
                  image_height := 200 |} in
  let heightScale :=
    Qmin (Double.mul (Double.div 512 100) (Double.round 0.9))
         (Double.mul (Double.div 512 200) (Double.round 0.9)) in
  let r := placement 512 512 "outfit" "clothing" image in
  drawHeight r = Double.mul 200 heightScale
  /\ drawWidth r = Double.mul 100 (Double.mul heightScale (Double.round 1.15))
  /\ within (4 * Double.epsilon) (drawWidth r) (1.15 * (100 * heightScale))
  /\ drawX r = Double.div (Double.sub 512 (drawWidth r)) 2
  /\ Qabs (drawX r + drawWidth r + drawX r - 512)
     <= Qabs (512 - drawWidth r) * (3 * Double.epsilon)
  /\ drawY r = Double.mul 512 (Double.round 0.1).
Proof.
  apply (outfit_placement 512 512 "clothing"
           {| image_src := "coat.png"; image_width := 100;
              image_height := 200 |});
    reflexivity.
Defined.

(** C5 as stated fails: for that coat the drawn width, 264.96 to the
    nearest double below, is not 1.15 times the width the height scale
    gives, neither as the machine multiplies nor exactly. *)
Lemma outfit_width_is_not_exactly_stretched :
  let image := {| image_src := "coat.png"; image_width := 100;
                  image_height := 200 |} in
  let heightScale :=
    Qmin (Double.mul (Double.div 512 100) (Double.round 0.9))
         (Double.mul (Double.div 512 200) (Double.round 0.9)) in
  let r := placement 512 512 "outfit" "clothing" image in
  drawWidth r = 4661225614328463 # 17592186044416
  /\ Double.mul (Double.round 1.15) (Double.mul 100 heightScale)
     = 291326600895529 # 1099511627776
  /\ ~ drawWidth r
       == Double.mul (Double.round 1.15) (Double.mul 100 heightScale)
  /\ ~ drawWidth r == 1.15 * (100 * heightScale).
Proof.
  cbv zeta. split; [vm_compute; reflexivity|].
  split; [vm_compute; reflexivity|].
  split; intros Heq; vm_compute in Heq; discriminate.
Qed.



(** ** The component selector *)

Lemma inject_nat_pos (n : nat) : (0 < n)%nat -> 0 < inject_Z (Z.of_nat n).
Proof.
  intros Hn. change 0 with (inject_Z 0). rewrite <- Zlt_Qlt. lia.
Qed.

(** The index is within the list: the rounded product of a double below 1
    and a length stays below the length. *)
Lemma floor_scaled_bounds (r : Q) (n : nat) :
  (0 < n)%nat -> unit_double r ->
  (0 <= floor_scaled r n < Z.of_nat n)%Z.
Proof.
  intros Hn (H0 & H1 & Hr). unfold floor_scaled, Double.mul.
  pose proof (inject_nat_pos n Hn) as Hpos.
  pose proof (representable_below_one r H0 H1 Hr) as Htop.
  set (N := inject_Z (Z.of_nat n)) in *.
  assert (Hx : 0 <= r * N) by (apply Qmult_le_0_compat; lra).
  destruct (round_nonneg_error (r * N) Hx) as [Hlo Hhi].
  assert (Heps : 0 < Double.epsilon) by reflexivity.
  assert (Heps1 : Double.epsilon < 1) by reflexivity.
  split.
  - rewrite <- (Qfloor_Z 0). apply Qfloor_resp_le.
    change (inject_Z 0) with 0.
    assert (0 <= r * N * (1 - Double.epsilon))
      by (apply Qmult_le_0_compat; lra).
    lra.
  - rewrite Zlt_Qlt. fold N.
    eapply Qle_lt_trans; [apply Qfloor_le|].
    assert (Hprod : r * N <= (1 - Double.epsilon) * N)
      by (apply Qmult_le_compat_r; lra).
    assert (Hprod' :
      r * N * (1 + Double.epsilon)
      <= (1 - Double.epsilon) * N * (1 + Double.epsilon))
      by (apply Qmult_le_compat_r; lra).
    assert (Hsq : 0 < N * (Double.epsilon * Double.epsilon)).
    { apply Qmult_lt_0_compat; [exact Hpos | reflexivity]. }
    assert (Hexp : (1 - Double.epsilon) * N * (1 + Double.epsilon)
                   == N - N * (Double.epsilon * Double.epsilon)) by ring.
    lra.
Qed.

(** The floor of the exact product names the slice of the draw. *)
Lemma floor_slice (r : Q) (n k : nat) :
  (0 < n)%nat ->
  Qfloor (r * inject_Z (Z.of_nat n)) = Z.of_nat k <-> in_slice k n r.
Proof.
  intros Hn. pose proof (inject_nat_pos n Hn) as Hpos.
  unfold in_slice. split.
  - intros Hk. split.
    + apply Qle_shift_div_r; [exact Hpos|]. rewrite <- Hk. apply Qfloor_le.
    + apply Qlt_shift_div_l; [exact Hpos|]. rewrite <- Hk. apply Qlt_floor.
  - intros [Hlo Hhi].
    assert (Hlo' : inject_Z (Z.of_nat k) <= r * inject_Z (Z.of_nat n)).
    { apply (Qmult_le_r _ _ (/ inject_Z (Z.of_nat n))).
      - apply Qinv_lt_0_compat, Hpos.
      - rewrite <- Qmult_assoc, Qmult_inv_r, Qmult_1_r; [exact Hlo|].
        intros Hz. rewrite Hz in Hpos. revert Hpos. apply Qlt_irrefl. }
    assert (Hhi' : r * inject_Z (Z.of_nat n) < inject_Z (Z.of_nat k + 1)).
    { apply (Qmult_lt_r _ _ (/ inject_Z (Z.of_nat n))).
      - apply Qinv_lt_0_compat, Hpos.
      - rewrite <- Qmult_assoc, Qmult_inv_r, Qmult_1_r; [exact Hhi|].
        intros Hz. rewrite Hz in Hpos. revert Hpos. apply Qlt_irrefl. }
    apply Z.le_antisymm.
    + apply Z.lt_succ_r. rewrite Zlt_Qlt.
      eapply Qle_lt_trans; [apply Qfloor_le|]. exact Hhi'.
    + rewrite <- (Qfloor_Z (Z.of_nat k)). apply Qfloor_resp_le. exact Hlo'.
Qed.

(** When the product needs no rounding, the index names the slice of the
    draw. *)
Lemma floor_scaled_slice (r : Q) (n k : nat) :
  (0 < n)%nat ->
  Double.round (r * inject_Z (Z.of_nat n)) == r * inject_Z (Z.of_nat n) ->
  floor_scaled r n = Z.of_nat k <-> in_slice k n r.
Proof.
  intros Hn Hexact. unfold floor_scaled, Double.mul.
  rewrite (Qfloor_comp _ _ Hexact). apply floor_slice. exact Hn.
Qed.

(** In general it names the slice up to the rounding of the product. *)
Lemma floor_scaled_near_slice (r : Q) (n k : nat) :
  0 <= r -> floor_scaled r n = Z.of_nat k -> near_slice k n r.
Proof.
  intros H0 Hk. unfold floor_scaled, Double.mul in Hk. unfold near_slice.
  set (N := inject_Z (Z.of_nat n)) in *.
  assert (HN : 0 <= N).
  { subst N. change 0 with (inject_Z 0). rewrite <- Zle_Qle. lia. }
  assert (Hx : 0 <= r * N) by (apply Qmult_le_0_compat; assumption).
  destruct (round_nonneg_error (r * N) Hx) as [Hlo Hhi].
  pose proof (Qfloor_le (Double.round (r * N))) as Hfl.
  pose proof (Qlt_floor (Double.round (r * N))) as Hfu.
  rewrite Hk in Hfl, Hfu. split; lra.
Qed.

Lemma in_slice_unique (r : Q) (n j k : nat) :
  (0 < n)%nat -> in_slice j n r -> in_slice k n r -> j = k.
Proof.
  intros Hn Hj Hk.
  apply (floor_slice r n j Hn) in Hj.
  apply (floor_slice r n k Hn) in Hk. lia.
Qed.

Lemma slice_width (n k : nat) :
  (0 < n)%nat ->
  inject_Z (Z.of_nat k + 1) / inject_Z (Z.of_nat n)
  - inject_Z (Z.of_nat k) / inject_Z (Z.of_nat n)
  == 1 / inject_Z (Z.of_nat n).
Proof.
  intros Hn. pose proof (inject_nat_pos n Hn) as Hpos.
  rewrite inject_Z_plus. change (inject_Z 1) with 1. field.
  intros Hz. rewrite Hz in Hpos. revert Hpos. apply Qlt_irrefl.
Qed.

Lemma js_index_floor {A} (pool : list A) (r : Q) :
  pool <> [] -> unit_double r ->
  exists x, js_index pool (floor_scaled r (length pool)) = Some x
            /\ picked_nearly_uniformly pool r x.
Proof.
  intros Hne Hr.
  assert (Hn : (0 < length pool)%nat)
    by (destruct pool; [congruence | simpl; lia]).
  pose proof (floor_scaled_bounds r (length pool) Hn Hr) as [Hlo Hhi].
  unfold js_index.
  destruct (Z.ltb_spec (floor_scaled r (length pool)) 0) as [Hneg|_]; [lia|].
  destruct (lookup_lt_is_Some_2 pool (Z.to_nat (floor_scaled r (length pool))))
    as [x Hx]; [lia|].
  exists x. split; [exact Hx|].
  exists (Z.to_nat (floor_scaled r (length pool))). split; [exact Hx|].
  split.
  - apply floor_scaled_near_slice; [apply Hr | lia].
  - intros Hexact. apply (floor_scaled_slice _ _ _ Hn Hexact). lia.
Qed.

(** Twice a double is a double: over two elements the slices are exact. *)
Lemma picked_of_two {A} (pool : list A) (r : Q) (x : A) :
  length pool = 2%nat -> unit_double r ->
  picked_nearly_uniformly pool r x -> picked_uniformly pool r x.
Proof.
  intros Hlen (_ & _ & Hr) (k & Hk & _ & Hexact).
  exists k. split; [exact Hk|]. apply Hexact. rewrite Hlen.
  change (inject_Z (Z.of_nat 2)) with 2.
  rewrite (round_comp (r * 2) (2 * r)) by ring.
  rewrite round_twice, Hr. ring.
Qed.

Section Selection.

Context (w : World).




Lemma picked_in {A} (pool : list A) (r : Q) (x : A) :
  picked_nearly_uniformly pool r x -> In x pool.
Proof.
  intros (k & Hk & _). apply list_elem_of_In.
  eapply list_elem_of_lookup_2. exact Hk.
Qed.



End Selection.



(** ** Reasoning about runs *)

Ltac unfold_run :=
  cbv [bind ret throw try_catch get modify tick random toBuffer existsSync
       writeFileSync mkdirSync readFileSync copyFileSync set_fillStyle
       set_font set_textAlign set_globalCompositeOperation mark clearRect
       fillRect fillText drawImage white_fill push_attribute].

Ltac simpl_state :=
  cbn [fst snd clock fs ctx attributes backgroundDrawn drawnCategories
       with_clock with_fs with_ctx with_attributes with_backgroundDrawn
       with_drawnCategories fillStyle font textAlign
       globalCompositeOperation drawn].

Tactic Notation "simpl_state" "in" hyp(H) :=
  cbn [fst snd clock fs ctx attributes backgroundDrawn drawnCategories
       with_clock with_fs with_ctx with_attributes with_backgroundDrawn
       with_drawnCategories fillStyle font textAlign
       globalCompositeOperation drawn] in H.

Section Runs.

Context (w : World) (cfg : Config).

Lemma bind_return {A B} (m : M A) (k : A -> M B) s a s' :
  m s = (Return a, s') -> bind m k s = k a s'.
Proof. intros Hm. unfold bind. rewrite Hm. reflexivity. Qed.

Lemma bind_throw {A B} (m : M A) (k : A -> M B) s e s' :
  m s = (Throw e, s') -> bind m k s = (Throw e, s').
Proof. intros Hm. unfold bind. rewrite Hm. reflexivity. Qed.

Lemma try_catch_return {A} (m : M A) (h : Error -> M A) s a s' :
  m s = (Return a, s') -> try_catch m h s = (Return a, s').
Proof. intros Hm. unfold try_catch. rewrite Hm. reflexivity. Qed.

Lemma try_catch_throw {A} (m : M A) (h : Error -> M A) s e s' :
  m s = (Throw e, s') -> try_catch m h s = h e s'.
Proof. intros Hm. unfold try_catch. rewrite Hm. reflexivity. Qed.

(** The selector only asks questions: it moves the clock and nothing else. *)
Lemma pick_random_frame (arr : list FileEntry) s :
  exists o, pick_random w arr s = (o, with_clock (S (clock s)) s).
Proof.
  unfold pick_random. unfold_run. simpl_state.
  destruct (js_index arr _); eexists; reflexivity.
Qed.

Lemma select_file_frame type files s :
  exists o, select_file w type files s = (o, with_clock (S (clock s)) s).
Proof.
  unfold select_file. destruct (_ && _)%bool; apply pick_random_frame.
Qed.

Lemma getRandomComponent_frame layerInfo species s :
  exists o n, getRandomComponent w layerInfo species s = (o, with_clock n s).
Proof.
  unfold getRandomComponent.
  unfold bind at 1. unfold tick at 1.
  destruct (storage_list w (clock s) "space-babiez" _) as [e|[data|]].
  - eexists _, _. reflexivity.
  - destruct data as [|name data'].
    + destruct (optional layerInfo); eexists _, _; reflexivity.
    + destruct (List.map _ _) as [|f files'] eqn:Hfiles.
      * destruct (optional layerInfo); eexists _, _; reflexivity.
      * destruct (select_file_frame (type layerInfo) (f :: files')
                    (with_clock (S (clock s)) s)) as [o Ho].
        unfold bind. rewrite Ho. destruct o; eexists _, _; reflexivity.
  - destruct (optional layerInfo); eexists _, _; reflexivity.
Qed.

Lemma this_getRandomComponent_frame layerInfo species s :
  exists o n,
    this_getRandomComponent w cfg layerInfo species s = (o, with_clock n s).
Proof.
  unfold this_getRandomComponent. destruct (storage_configured cfg).
  - apply getRandomComponent_frame.
  - exists (Throw (JsError
      "Storage provider not configured. Please set up a storage provider.")),
      (clock s).
    unfold throw. destruct s; reflexivity.
Qed.

(** [drawLayer] never throws, and touches only the clock and the canvas. *)
Lemma drawLayer_frame imageInfo id s :
  exists b s',
    drawLayer w cfg imageInfo id s = (Return b, s')
    /\ attributes s' = attributes s
    /\ drawnCategories s' = drawnCategories s
    /\ backgroundDrawn s' = backgroundDrawn s
    /\ fs s' = fs s.
Proof.
  unfold drawLayer.
  destruct (String.eqb (ci_url imageInfo) EmptyString).
  { eexists _, _. split; [reflexivity|]. auto. }
  unfold_run. simpl_state.
  destruct (loadImage w (clock s) (ci_url imageInfo)) as [image|].
  - simpl_state.
    destruct (drawImage_throws w _ image _);
      [destruct (String.eqb (ci_type imageInfo) "background")|];
      eexists _, _; (split; [reflexivity|]); simpl_state; auto.
  - destruct (String.eqb (ci_type imageInfo) "background");
      eexists _, _; (split; [reflexivity|]); simpl_state; auto.
Qed.


(** Saving the canvas to a file leaves the locals alone, thrown or not. *)
Lemma save_canvas_frame (p : string) s :
  exists o s',
    (buffer <- toBuffer ;; writeFileSync w p buffer) s = (o, s')
    /\ attributes s' = attributes s
    /\ drawnCategories s' = drawnCategories s
    /\ ctx s' = ctx s.
Proof.
  unfold_run. simpl_state.
  destruct (fs_fault w (clock s) p); eexists _, _;
    (split; [reflexivity|]); simpl_state; auto.
Qed.

(** One turn of the loop returns normally; it leaves [attributes] and
    [drawnCategories] alone, or records its own category, not seen before,
    in both. *)
Lemma process_layer_cases id species layerIndex layerInfo s :
  exists s',
    process_layer w cfg id species layerIndex layerInfo s = (Return tt, s')
    /\ ((attributes s' = attributes s
         /\ drawnCategories s' = drawnCategories s)
        \/ ((category layerInfo ∉ drawnCategories s)
            /\ exists v,
                attributes s'
                = (attributes s
                   ++ [{| trait_type := category layerInfo; value := v |}])%list
                /\ drawnCategories s'
                   = {[category layerInfo]} ∪ drawnCategories s)).
Proof.
  unfold process_layer. unfold bind at 1, get at 1.
  destruct (bool_decide (category layerInfo ∈ drawnCategories s)) eqn:Hseen.
  { exists s. split; [reflexivity|]. left. auto. }
  apply bool_decide_eq_false in Hseen.
  destruct (this_getRandomComponent_frame layerInfo species s)
    as (o & n & Hsel).
  unfold try_catch.
  destruct o as [[componentInfo|]|e].
  - rewrite (bind_return _ _ _ _ _ Hsel). cbv beta iota.
    destruct (drawLayer_frame componentInfo id (with_clock n s))
      as (layerDrawn & s2 & Hdraw & Hattr & Hcats & _ & _).
    simpl_state in Hattr. simpl_state in Hcats.
    rewrite (bind_return _ _ _ _ _ Hdraw).
    set (s3 := if String.eqb (category layerInfo) "background"
               then with_backgroundDrawn layerDrawn s2 else s2).
    assert (Hflag :
      (if String.eqb (category layerInfo) "background"
       then modify (with_backgroundDrawn layerDrawn) else ret tt) s2
      = (Return tt, s3)).
    { subst s3. destruct (String.eqb (category layerInfo) "background");
        reflexivity. }
    assert (Hattr3 : attributes s3 = attributes s)
      by (subst s3; destruct (String.eqb _ _); exact Hattr).
    assert (Hcats3 : drawnCategories s3 = drawnCategories s)
      by (subst s3; destruct (String.eqb _ _); exact Hcats).
    rewrite (bind_return _ _ _ _ _ Hflag).
    destruct layerDrawn.
    + erewrite bind_return by reflexivity.
      erewrite bind_return by reflexivity.
      destruct (SAVE_INTERMEDIATE_LAYERS cfg).
      * match goal with
        | |- context [ bind toBuffer ?k ?st ] =>
            destruct (save_canvas_frame
              (outputFolder cfg +:+ "layer_" +:+ pretty (layerIndex + 1)%nat
               +:+ "_" +:+ category layerInfo +:+ "_" +:+ pretty id
               +:+ ".png") st) as (o & s' & Hsave & Ha & Hc & _)
        end.
        rewrite Hsave. simpl_state in Ha. simpl_state in Hc.
        exists s'. split; [destruct o as [[]|]; reflexivity|].
        right. split; [exact Hseen|]. eexists. split.
        -- rewrite Ha, Hattr3. reflexivity.
        -- rewrite Hc, Hcats3. reflexivity.
      * eexists. split; [reflexivity|]. right. split; [exact Hseen|].
        eexists. simpl_state. rewrite Hattr3, Hcats3. split; reflexivity.
    + eexists. split; [reflexivity|]. left. auto.
  - rewrite (bind_return _ _ _ _ _ Hsel).
    eexists. split; [reflexivity|]. left. simpl_state. auto.
  - rewrite (bind_throw _ _ _ _ _ Hsel).
    eexists. split; [reflexivity|]. left. simpl_state. auto.
Qed.


(** *** The trait list of a composite *)

Lemma process_layer_invariant id species layerIndex layerInfo s :
  In layerInfo (cfg_layerConfig cfg) ->
  loop_invariant cfg species s ->
  exists s',
    process_layer w cfg id species layerIndex layerInfo s = (Return tt, s')
    /\ loop_invariant cfg species s'.
Proof.
  intros Hin (rest & Hattr & Hnodup & Hdrawn & Hcfg).
  destruct (process_layer_cases id species layerIndex layerInfo s)
    as (s' & Hrun & [[Ha Hc] | (Hfresh & v & Ha & Hc)]);
    exists s'; (split; [exact Hrun|]).
  - exists rest. rewrite Ha, Hc. auto.
  - exists (rest ++ [{| trait_type := category layerInfo; value := v |}])%list.
    rewrite Ha, Hattr, Hc, List.map_app. cbn [List.map trait_type].
    split; [reflexivity|]. split; [|split].
    + apply NoDup_app. split; [exact Hnodup|]. split.
      * intros c Hc1 Hc2. apply list_elem_of_In in Hc1.
        apply list_elem_of_In in Hc2 as [<-|[]].
        apply Hfresh, Hdrawn, Hc1.
      * apply NoDup_singleton.
    + intros c Hc1. apply in_app_or in Hc1 as [Hc1|[<-|[]]].
      * apply elem_of_union_r, Hdrawn, Hc1.
      * apply elem_of_union_l, elem_of_singleton. reflexivity.
    + intros c Hc1. apply in_app_or in Hc1 as [Hc1|[<-|[]]].
      * apply Hcfg, Hc1.
      * exists layerInfo. auto.
Qed.

Lemma process_layers_invariant id species layers :
  forall layerIndex s,
    (forall l, In l layers -> In l (cfg_layerConfig cfg)) ->
    loop_invariant cfg species s ->
    exists s',
      process_layers w cfg id species layerIndex layers s = (Return tt, s')
      /\ loop_invariant cfg species s'.
Proof.
  induction layers as [|layerInfo rest IH]; intros layerIndex s Hsub Hinv.
  - exists s. split; [reflexivity | exact Hinv].
  - destruct (process_layer_invariant id species layerIndex layerInfo s)
      as (s1 & Hrun1 & Hinv1); [apply Hsub; left; reflexivity | exact Hinv |].
    destruct (IH (S layerIndex) s1) as (s2 & Hrun2 & Hinv2);
      [intros l Hl; apply Hsub; right; exact Hl | exact Hinv1 |].
    exists s2. split; [|exact Hinv2].
    cbn [process_layers]. rewrite (bind_return _ _ _ _ _ Hrun1). exact Hrun2.
Qed.

(** A composite that returns hands back the traits the loop left. *)
Lemma composite_traits id species s g s' :
  composite w cfg id species s = (Return g, s') ->
  exists s1, loop_invariant cfg species s1 /\ gen_attributes g = attributes s1.
Proof.
  unfold composite.
  do 7 (erewrite bind_return by reflexivity).
  match goal with
  | |- context [ bind (process_layers _ _ _ _ _ _) _ ?st ] =>
      destruct (process_layers_invariant id species (cfg_layerConfig cfg)
                  0%nat st)
        as (s1 & Hloop & Hinv)
  end.
  { auto. }
  { exists []. simpl_state.
    repeat split; [constructor | intros c [] | intros c []]. }
  rewrite (bind_return _ _ _ _ _ Hloop).
  unfold_run. simpl_state.
  repeat match goal with
         | |- context [ fs_fault w ?t ?p ] => destruct (fs_fault w t p)
         end;
    intros Hrun; inversion Hrun; subst; exists s1; split; auto.
Qed.


Lemma bind_inv_return {A B} (m : M A) (k : A -> M B) s b s' :
  bind m k s = (Return b, s') ->
  exists a s1, m s = (Return a, s1) /\ k a s1 = (Return b, s').
Proof.
  unfold bind. destruct (m s) as [[a|e] s1]; intros Hrun.
  - exists a, s1. auto.
  - discriminate.
Qed.

Lemma emergency_result id e s g s' :
  emergency w cfg id e s = (Return g, s') ->
  g = {| nftPath := outputFolder cfg +:+ "emergency_" +:+ pretty id +:+ ".png";
         gen_attributes := emergency_traits;
         gen_species := "error" |}.
Proof.
  unfold emergency. unfold_run. simpl_state.
  match goal with
  | |- context [ fs_fault w ?t ?p ] => destruct (fs_fault w t p)
  end; intros Hrun; inversion Hrun; reflexivity.
Qed.

Lemma invariant_well_formed species s :
  (forall l, In l (cfg_layerConfig cfg) -> category l <> "species") ->
  loop_invariant cfg species s -> well_formed_traits cfg species (attributes s).
Proof.
  intros Hnosp (rest & Hattr & Hnodup & _ & Hcfg).
  exists rest. split; [exact Hattr|]. split.
  - rewrite Hattr. cbn [List.map trait_type]. apply NoDup_cons. split.
    + intros Hin. apply list_elem_of_In in Hin.
      destruct (Hcfg _ Hin) as (l & Hl & Hcat). exact (Hnosp l Hl Hcat).
    + exact Hnodup.
  - intros a Ha. apply Hcfg. apply in_map. exact Ha.
Qed.

(** C2, amended.  When no layer of the configuration has the category
    species, every composite that completes returns the species trait once,
    as the first entry, and no trait type twice; [generate2DImage], of the
    script and of [Generator], returns such a list or the emergency list. *)
Theorem traits_unique_and_species_first :
  (forall l, In l (cfg_layerConfig cfg) -> category l <> "species") ->
  (forall id species s g s',
      composite w cfg id species s = (Return g, s') ->
      well_formed_traits cfg species (gen_attributes g))
  /\ (forall id s g s',
        generate2DImage w cfg id s = (Return g, s') ->
        gen_attributes g = emergency_traits
        \/ exists species, well_formed_traits cfg species (gen_attributes g))
  /\ (forall id given s g s',
        Generator.generate2DImage w cfg id given s = (Return g, s') ->
        gen_attributes g = emergency_traits
        \/ exists species, well_formed_traits cfg species (gen_attributes g)).
Proof.
  intros Hnosp.
  assert (Hcomposite : forall id species s g s',
    composite w cfg id species s = (Return g, s') ->
    well_formed_traits cfg species (gen_attributes g)).
  { intros id species s g s' Hrun.
    destruct (composite_traits id species s g s' Hrun) as (s1 & Hinv & ->).
    apply invariant_well_formed; assumption. }
  split; [exact Hcomposite|]. split.
  - intros id s g s'. unfold generate2DImage, try_catch.
    destruct (generate2DImage_try w cfg id s) as [[g0|e] s1] eqn:Htry.
    + intros Hrun. inversion Hrun; subst. right.
      unfold generate2DImage_try in Htry.
      apply bind_inv_return in Htry as (? & s2 & _ & Htry).
      apply bind_inv_return in Htry as (species & s3 & _ & Htry).
      exists species. eapply Hcomposite. exact Htry.
    + intros Hrun. apply emergency_result in Hrun. subst g. left. reflexivity.
  - intros id given s g s'. unfold Generator.generate2DImage, try_catch.
    destruct (Generator.generate2DImage_try w cfg id given s)
      as [[g0|e] s1] eqn:Htry.
    + intros Hrun. inversion Hrun; subst. right.
      unfold Generator.generate2DImage_try in Htry.
      apply bind_inv_return in Htry as (? & s2 & _ & Htry).
      apply bind_inv_return in Htry as (species & s3 & _ & Htry).
      exists species. eapply Hcomposite. exact Htry.
    + intros Hrun. apply emergency_result in Hrun. subst g. left. reflexivity.
Qed.

End Runs.

(** The default configuration has no layer of the category species. *)
Lemma traits_unique_and_species_first_witness :
  (forall l, In l (cfg_layerConfig (script false false)) ->
     category l <> "species")
  /\ (forall id species s g s',
        composite one_png_world (script false false) id species s
        = (Return g, s') ->
        well_formed_traits (script false false) species (gen_attributes g))
  /\ (forall id s g s',
        generate2DImage one_png_world (script false false) id s
        = (Return g, s') ->
        gen_attributes g = emergency_traits
        \/ exists species,
             well_formed_traits (script false false) species
               (gen_attributes g))
  /\ (forall id given s g s',
        Generator.generate2DImage one_png_world (script false false) id given s
        = (Return g, s') ->
        gen_attributes g = emergency_traits
        \/ exists species,
             well_formed_traits (script false false) species
               (gen_attributes g)).
Proof.
  assert (Hnosp : forall l, In l (cfg_layerConfig (script false false)) ->
                    category l <> "species").
  { cbn. intros l Hl.
    repeat (destruct Hl as [<-|Hl]; [discriminate|]). destruct Hl. }
  split; [exact Hnosp|].
  exact (traits_unique_and_species_first one_png_world (script false false)
           Hnosp).
Defined.

(** C2 as stated fails: a configuration whose only layer has the category
    species yields two traits of the type species. *)
Lemma species_category_repeats_trait_type :
  fst (Generator.generate2DImage one_png_world species_layer_config 1
         (Some "indigo") (boot ∅))
  = Return {| nftPath := "./output/indigo_nft_1.png";
              gen_attributes :=
                [{| trait_type := "species"; value := "indigo" |};
                 {| trait_type := "species"; value := "cap" |}];
              gen_species := "indigo" |}
  /\ ~ NoDup (List.map trait_type
               [{| trait_type := "species"; value := "indigo" |};
                {| trait_type := "species"; value := "cap" |}]).
Proof.
  split; [vm_compute; reflexivity|].
  cbn. intros Hnd. apply NoDup_cons in Hnd as [Hnotin _].
  apply Hnotin. left.
Qed.

(** The default configuration over folders of one PNG each: one trait per
    layer, in the order of the configuration, after the species. *)
Example default_run_traits :
  fst (generate2DImage one_png_world (script false false) 1 (boot ∅))
  = Return {| nftPath := "./output/indigo_nft_1.png";
              gen_attributes :=
                [{| trait_type := "species"; value := "indigo" |};
                 {| trait_type := "background"; value := "cap" |};
                 {| trait_type := "head"; value := "cap" |};
                 {| trait_type := "eyes"; value := "cap" |};
                 {| trait_type := "clothing"; value := "cap" |};
                 {| trait_type := "neck"; value := "cap" |};
                 {| trait_type := "hats"; value := "cap" |};
                 {| trait_type := "binky"; value := "cap" |};
                 {| trait_type := "special"; value := "cap" |}];
              gen_species := "indigo" |}.
Proof. vm_compute. reflexivity. Qed.

(** ** What [drawLayer] draws *)

Section Drawing.

Context (w : World) (cfg : Config).

(** When the image loads and [ctx.drawImage] does not throw, the layer is
    drawn into the rectangle of [placement] and reported as drawn. *)
Lemma drawLayer_draws_at_placement imageInfo id s image :
  ci_url imageInfo <> EmptyString ->
  loadImage w (clock s) (ci_url imageInfo) = Some image ->
  drawImage_throws w (S (clock s)) image
    (placement (width cfg) (height cfg) (ci_type imageInfo)
       (ci_category imageInfo) image) = false ->
  exists s',
    drawLayer w cfg imageInfo id s = (Return true, s')
    /\ drawn (ctx s')
       = DrawImage image
           (placement (width cfg) (height cfg) (ci_type imageInfo)
              (ci_category imageInfo) image)
         :: drawn (ctx s).
Proof.
  intros Hurl Hload Hdraw. unfold drawLayer.
  rewrite (proj2 (String.eqb_neq _ _) Hurl).
  unfold_run. simpl_state. rewrite Hload. simpl_state. rewrite Hdraw.
  eexists. split; reflexivity.
Qed.

(** C7. A layer of type background is placed over exactly the whole canvas,
    at the origin, whatever the natural size of its image; and that is the
    rectangle [drawLayer] draws it into. *)
Theorem background_fills_canvas :
  (forall (W H : Q) (category : string) (image : Image),
      placement W H "background" category image
      = {| drawX := 0; drawY := 0; drawWidth := W; drawHeight := H |})
  /\ (forall imageInfo id s image,
        ci_type imageInfo = "background" ->
        ci_url imageInfo <> EmptyString ->
        loadImage w (clock s) (ci_url imageInfo) = Some image ->
        drawImage_throws w (S (clock s)) image
          {| drawX := 0; drawY := 0; drawWidth := width cfg;
             drawHeight := height cfg |} = false ->
        exists s',
          drawLayer w cfg imageInfo id s = (Return true, s')
          /\ drawn (ctx s')
             = DrawImage image
                 {| drawX := 0; drawY := 0; drawWidth := width cfg;
                    drawHeight := height cfg |}
               :: drawn (ctx s)).
Proof.
  split.
  - intros W H category image. reflexivity.
  - intros imageInfo id s image Htype Hurl Hload Hdraw.
    destruct (drawLayer_draws_at_placement imageInfo id s image Hurl Hload)
      as (s' & Hrun & Hmark).
    + rewrite Htype. exact Hdraw.
    + exists s'. split; [exact Hrun|]. rewrite Hmark, Htype. reflexivity.
Qed.

End Drawing.

(** ** Layers that cannot be drawn *)

Section Layers.

Context (w : World) (cfg : Config).

(** *** A required layer without candidates *)

Lemma getRandomComponent_no_candidates layerInfo species s data :
  optional layerInfo = false ->
  storage_list w (clock s) "space-babiez"
    (species +:+ "/" +:+ category layerInfo) = ListData data ->
  List.filter is_image_file (default [] data) = [] ->
  exists e,
    getRandomComponent w layerInfo species s
    = (Throw e, with_clock (S (clock s)) s)
    /\ (e = EmptyLayer (species +:+ "/" +:+ category layerInfo)
        \/ e = NoRenderableComponent
                 (species +:+ "/" +:+ category layerInfo)).
Proof.
  intros Hreq Hlist Hnone.
  unfold getRandomComponent. unfold bind at 1, tick at 1.
  rewrite Hlist, Hreq.
  destruct data as [[|name data']|].
  - eexists. split; [reflexivity|]. left. reflexivity.
  - change (List.filter is_image_file (name :: data') = []) in Hnone.
    rewrite Hnone. cbn [List.map].
    eexists. split; [reflexivity|]. right. reflexivity.
  - eexists. split; [reflexivity|]. left. reflexivity.
Qed.

(** C1, amended.  For a required layer whose folder yields no entry, or no
    entry with an image extension, [getRandomComponent] throws the
    empty-layer or the no-renderable-component error; the loop of
    [generate2DImage] catches it, appends no trait, draws nothing and goes
    on to the next layer. *)
Theorem required_layer_without_candidates_is_skipped
    id species layerIndex layerInfo s data :
  optional layerInfo = false ->
  storage_configured cfg = true ->
  storage_list w (clock s) "space-babiez"
    (species +:+ "/" +:+ category layerInfo) = ListData data ->
  List.filter is_image_file (default [] data) = [] ->
  (exists e,
     getRandomComponent w layerInfo species s
     = (Throw e, with_clock (S (clock s)) s)
     /\ (e = EmptyLayer (species +:+ "/" +:+ category layerInfo)
         \/ e = NoRenderableComponent
                  (species +:+ "/" +:+ category layerInfo)))
  /\ exists s',
       process_layer w cfg id species layerIndex layerInfo s = (Return tt, s')
       /\ attributes s' = attributes s
       /\ drawnCategories s' = drawnCategories s
       /\ ctx s' = ctx s
       /\ fs s' = fs s.
Proof.
  intros Hreq Hstorage Hlist Hnone.
  destruct (getRandomComponent_no_candidates layerInfo species s data
              Hreq Hlist Hnone) as (e & Hsel & He).
  split; [exists e; auto|].
  unfold process_layer. unfold bind at 1, get at 1.
  destruct (bool_decide (category layerInfo ∈ drawnCategories s)).
  { exists s. split; [reflexivity|]. auto. }
  unfold try_catch, this_getRandomComponent. rewrite Hstorage.
  rewrite (bind_throw _ _ _ _ _ Hsel).
  eexists. split; [reflexivity|]. simpl_state. auto.
Qed.


(** *** A layer whose image cannot be decoded *)

Lemma append_nonempty (a b : string) :
  b <> EmptyString -> a +:+ b <> EmptyString.
Proof. intros Hb. destruct a; [exact Hb | discriminate]. Qed.

Lemma describe_file_url fullPath name :
  file_url (describe_file w fullPath name) <> EmptyString.
Proof.
  unfold describe_file. cbn [file_url].
  apply append_nonempty. discriminate.
Qed.

Lemma pick_random_member (arr : list FileEntry) s f s' :
  pick_random w arr s = (Return f, s') -> In f arr.
Proof.
  unfold pick_random. unfold_run. simpl_state. unfold js_index.
  destruct (_ <? 0)%Z; [discriminate|].
  destruct (arr !! _) as [f'|] eqn:Hf; [|discriminate].
  intros Hrun. inversion Hrun; subst.
  apply list_elem_of_In. eapply list_elem_of_lookup_2. exact Hf.
Qed.

Lemma select_file_member type files s f s' :
  select_file w type files s = (Return f, s') -> In f files.
Proof.
  unfold select_file. destruct (_ && _)%bool; intros Hrun.
  - apply pick_random_member in Hrun. apply filter_In in Hrun. tauto.
  - apply pick_random_member in Hrun. exact Hrun.
Qed.

(** What [getRandomComponent] hands over names the layer it was asked for,
    and has a URL. *)
Lemma getRandomComponent_component layerInfo species s componentInfo s1 :
  getRandomComponent w layerInfo species s
  = (Return (Some componentInfo), s1) ->
  ci_url componentInfo <> EmptyString
  /\ ci_category componentInfo = category layerInfo
  /\ ci_type componentInfo = type layerInfo.
Proof.
  unfold getRandomComponent. unfold bind at 1, tick at 1.
  destruct (storage_list w (clock s) "space-babiez" _) as [e|[data|]].
  - discriminate.
  - destruct data as [|name data'].
    + destruct (optional layerInfo); discriminate.
    + destruct (List.map _ _) as [|f files'] eqn:Hfiles.
      * destruct (optional layerInfo); discriminate.
      * intros Hrun. apply bind_inv_return in Hrun as (sel & s2 & Hsel & Hret).
        inversion Hret; subst. cbn [ci_url ci_category ci_type].
        split; [|auto].
        apply select_file_member in Hsel. rewrite <- Hfiles in Hsel.
        apply in_map_iff in Hsel as (name' & <- & _).
        apply describe_file_url.
  - destruct (optional layerInfo); discriminate.
Qed.

Lemma drawLayer_undecodable imageInfo id s :
  ci_url imageInfo <> EmptyString ->
  loadImage w (clock s) (ci_url imageInfo) = None ->
  drawLayer w cfg imageInfo id s
  = if String.eqb (ci_type imageInfo) "background"
    then (Return true,
          with_ctx
            {| fillStyle := "#FFFFFF"; font := font (ctx s);
               textAlign := textAlign (ctx s);
               globalCompositeOperation := globalCompositeOperation (ctx s);
               drawn := FillRect "#FFFFFF" 0 0 (width cfg) (height cfg)
                        :: drawn (ctx s) |}
            (with_clock (S (clock s)) s))
    else (Return false, with_clock (S (clock s)) s).
Proof.
  intros Hurl Hload. unfold drawLayer.
  rewrite (proj2 (String.eqb_neq _ _) Hurl).
  unfold_run. simpl_state. rewrite Hload.
  destruct (String.eqb (ci_type imageInfo) "background"); reflexivity.
Qed.

(** C3, amended.  When the image of the selected component cannot be
    loaded: a layer whose type is not background is skipped, with no trait
    appended and nothing drawn, and the loop goes on; a layer of type
    background has the canvas filled white, counts as drawn and gets its
    trait. *)
Theorem undecodable_layer
    id species layerIndex layerInfo s componentInfo s1 :
  category layerInfo ∉ drawnCategories s ->
  this_getRandomComponent w cfg layerInfo species s
  = (Return (Some componentInfo), s1) ->
  loadImage w (clock s1) (ci_url componentInfo) = None ->
  exists s',
    process_layer w cfg id species layerIndex layerInfo s = (Return tt, s')
    /\ (type layerInfo <> "background" ->
        attributes s' = attributes s
        /\ drawnCategories s' = drawnCategories s
        /\ ctx s' = ctx s)
    /\ (type layerInfo = "background" ->
        attributes s'
        = (attributes s
           ++ [{| trait_type := category layerInfo;
                  value := fileNameWithoutExt (ci_name componentInfo) |}])%list
        /\ drawnCategories s' = {[category layerInfo]} ∪ drawnCategories s
        /\ drawn (ctx s')
           = FillRect "#FFFFFF" 0 0 (width cfg) (height cfg)
             :: drawn (ctx s)).
Proof.
  intros Hfresh Hsel Hload.
  assert (Hci : ci_url componentInfo <> EmptyString
                /\ ci_category componentInfo = category layerInfo
                /\ ci_type componentInfo = type layerInfo).
  { revert Hsel. unfold this_getRandomComponent.
    destruct (storage_configured cfg); [|discriminate].
    apply getRandomComponent_component. }
  destruct Hci as (Hurl & _ & Htype).
  destruct (this_getRandomComponent_frame w cfg layerInfo species s)
    as (o & n & Hframe).
  rewrite Hsel in Hframe. inversion Hframe; subst o s1. clear Hframe.
  pose proof (drawLayer_undecodable componentInfo id _ Hurl Hload) as Hdraw.
  rewrite Htype in Hdraw.
  unfold process_layer. unfold bind at 1, get at 1.
  rewrite (bool_decide_eq_false_2 _ Hfresh).
  unfold try_catch.
  rewrite (bind_return _ _ _ _ _ Hsel). cbv beta iota.
  destruct (String.eqb (type layerInfo) "background") eqn:Hbg.
  - apply String.eqb_eq in Hbg.
    rewrite (bind_return _ _ _ _ _ Hdraw).
    match goal with
    | |- context [ bind (if ?c then modify ?f else ret tt) _ ?st ] =>
        assert (Hflag : exists s3,
          (if c then modify f else ret tt) st = (Return tt, s3)
          /\ attributes s3 = attributes s
          /\ drawnCategories s3 = drawnCategories s
          /\ ctx s3 = ctx st)
          by (destruct c; eexists; (split; [reflexivity|]);
              simpl_state; auto)
    end.
    destruct Hflag as (s3 & Hflag & Ha3 & Hc3 & Hx3).
    rewrite (bind_return _ _ _ _ _ Hflag).
    erewrite bind_return by reflexivity.
    erewrite bind_return by reflexivity.
    destruct (SAVE_INTERMEDIATE_LAYERS cfg).
    + match goal with
      | |- context [ bind toBuffer ?k ?st ] =>
          destruct (save_canvas_frame w
            (outputFolder cfg +:+ "layer_" +:+ pretty (layerIndex + 1)%nat
             +:+ "_" +:+ category layerInfo +:+ "_" +:+ pretty id
             +:+ ".png") st) as (o & s' & Hsave & Ha & Hc & Hx)
      end.
      rewrite Hsave. simpl_state in Ha. simpl_state in Hc.
      simpl_state in Hx.
      exists s'. split; [destruct o as [[]|]; reflexivity|]. split.
      * intros Hne. contradiction.
      * intros _. rewrite Ha, Hc, Hx, Ha3, Hc3, Hx3. simpl_state. auto.
    + eexists. split; [reflexivity|]. split.
      * intros Hne. contradiction.
      * intros _. simpl_state. rewrite Ha3, Hc3, Hx3. simpl_state. auto.
  - apply String.eqb_neq in Hbg.
    rewrite (bind_return _ _ _ _ _ Hdraw).
    destruct (String.eqb (category layerInfo) "background");
      unfold_run; simpl_state; eexists; (split; [reflexivity|]);
      (split; [intros _; simpl_state; auto | intros Heq; contradiction]).
Qed.

End Layers.

(** The background layer of the default configuration over empty folders. *)
Lemma required_layer_without_candidates_is_skipped_witness :
  (exists e,
     getRandomComponent empty_bucket_world
       {| category := "background"; type := "background";
          optional := false |} "indigo" (boot ∅)
     = (Throw e, with_clock 1 (boot ∅))
     /\ (e = EmptyLayer "indigo/background"
         \/ e = NoRenderableComponent "indigo/background"))
  /\ exists s',
       process_layer empty_bucket_world (script false false) 1 "indigo" 0
         {| category := "background"; type := "background";
            optional := false |} (boot ∅) = (Return tt, s')
       /\ attributes s' = attributes (boot ∅)
       /\ drawnCategories s' = drawnCategories (boot ∅)
       /\ ctx s' = ctx (boot ∅)
       /\ fs s' = fs (boot ∅).
Proof.
  apply (required_layer_without_candidates_is_skipped empty_bucket_world
           (script false false) 1 "indigo" 0
           {| category := "background"; type := "background";
              optional := false |} (boot ∅) (Some []));
    reflexivity.
Defined.

(** C1 as stated fails: with every folder empty, the required layers among
    them, the script's [generate2DImage] completes and returns the species
    trait alone. *)
Lemma required_layers_silently_absent :
  (forall t path,
     storage_list empty_bucket_world t "space-babiez" path
     = ListData (Some []))
  /\ In {| category := "background"; type := "background";
           optional := false |} (cfg_layerConfig (script false false))
  /\ fst (generate2DImage empty_bucket_world (script false false) 1 (boot ∅))
     = Return {| nftPath := "./output/indigo_nft_1.png";
                 gen_attributes :=
                   [{| trait_type := "species"; value := "indigo" |}];
                 gen_species := "indigo" |}.
Proof.
  split; [reflexivity|]. split; [left; reflexivity|].
  vm_compute. reflexivity.
Qed.

(** The head layer of the default configuration, its image undecodable. *)
Lemma undecodable_layer_witness :
  let head := {| category := "head"; type := "base"; optional := false |} in
  let sky := {| ci_url := "https://sb.example/storage/v1/object/public/space-babiez/indigo/head/sky.png";
                ci_name := "sky.png"; ci_category := "head";
                ci_type := "base" |} in
  exists s',
    process_layer undecodable_world (script false false) 1 "indigo" 1 head
      (boot ∅) = (Return tt, s')
    /\ (type head <> "background" ->
        attributes s' = attributes (boot ∅)
        /\ drawnCategories s' = drawnCategories (boot ∅)
        /\ ctx s' = ctx (boot ∅))
    /\ (type head = "background" ->
        attributes s'
        = (attributes (boot ∅)
           ++ [{| trait_type := category head;
                  value := fileNameWithoutExt (ci_name sky) |}])%list
        /\ drawnCategories s' = {[category head]} ∪ drawnCategories (boot ∅)
        /\ drawn (ctx s')
           = FillRect "#FFFFFF" 0 0 (width (script false false))
               (height (script false false))
             :: drawn (ctx (boot ∅))).
Proof.
  apply (undecodable_layer undecodable_world (script false false) 1 "indigo" 1
           {| category := "head"; type := "base"; optional := false |}
           (boot ∅)
           {| ci_url := "https://sb.example/storage/v1/object/public/space-babiez/indigo/head/sky.png";
              ci_name := "sky.png"; ci_category := "head";
              ci_type := "base" |}
           (with_clock 2 (boot ∅))).
  - apply not_elem_of_empty.
  - vm_compute. reflexivity.
  - reflexivity.
Defined.

(** C3 as stated fails for the background: no image can be decoded, yet the
    background trait is in the list. *)
Lemma undecodable_background_keeps_trait :
  (forall t url, loadImage undecodable_world t url = None)
  /\ fst (generate2DImage undecodable_world (script false false) 1 (boot ∅))
     = Return {| nftPath := "./output/indigo_nft_1.png";
                 gen_attributes :=
                   [{| trait_type := "species"; value := "indigo" |};
                    {| trait_type := "background"; value := "sky" |}];
                 gen_species := "indigo" |}.
Proof.
  split; [reflexivity|]. vm_compute. reflexivity.
Qed.

(** ** The assembler *)

Section Assembler.

Context (w : World) (cfg : Config).

(** *** The emergency result and the batch loop *)

Lemma emergency_run id e s :
  fs_fault w (clock s)
    (outputFolder cfg +:+ "emergency_" +:+ pretty id +:+ ".png") = false ->
  exists s',
    emergency w cfg id e s
    = (Return {| nftPath := outputFolder cfg +:+ "emergency_" +:+ pretty id
                            +:+ ".png";
                 gen_attributes := emergency_traits;
                 gen_species := "error" |}, s')
    /\ fs s' !! (outputFolder cfg +:+ "emergency_" +:+ pretty id +:+ ".png")
       = Some (Png (FillText "black" "20px Arial" "center"
                      ("Error generating NFT #" +:+ pretty id)
                      (width cfg / 2) (height cfg / 2)
                    :: FillRect "#FF00FF" 0 0 (width cfg) (height cfg)
                    :: ClearRect 0 0 (width cfg) (height cfg)
                    :: drawn (ctx s))).
Proof.
  intros Hok. unfold emergency. unfold_run. simpl_state. rewrite Hok.
  eexists. split; [reflexivity|]. simpl_state. apply lookup_insert_eq.
Qed.

(** The batch loop always returns, with at most one result per identifier. *)
Lemma generate_from_returns remaining :
  forall i results s,
    exists results' s',
      generate_from w cfg i remaining results s = (Return results', s')
      /\ (length results' <= length results + remaining)%nat.
Proof.
  induction remaining as [|remaining IH]; intros i results s.
  - exists results, s. split; [reflexivity|]. lia.
  - cbn [generate_from]. unfold bind at 1, try_catch at 1, bind at 1.
    destruct (generateNFT w cfg i s) as [[result|e] s1].
    + destruct (IH (S i) (results ++ [result])%list s1)
        as (results' & s' & Hrun & Hlen).
      exists results', s'. split; [exact Hrun|].
      rewrite length_app in Hlen. cbn [length] in Hlen. lia.
    + destruct (IH (S i) results s1) as (results' & s' & Hrun & Hlen).
      exists results', s'. split; [exact Hrun|]. lia.
Qed.

(** An identifier whose generation throws is passed over. *)
Lemma generate_from_skips i remaining results s e s1 :
  generateNFT w cfg i s = (Throw e, s1) ->
  generate_from w cfg i (S remaining) results s
  = generate_from w cfg (S i) remaining results s1.
Proof.
  intros Hthrow. cbn [generate_from].
  unfold bind at 1, try_catch at 1, bind at 1. rewrite Hthrow. reflexivity.
Qed.

Lemma emergency_unwritable id e s :
  fs_fault w (clock s)
    (outputFolder cfg +:+ "emergency_" +:+ pretty id +:+ ".png") = true ->
  exists s',
    emergency w cfg id e s
    = (Throw (SystemError "open"
                (outputFolder cfg +:+ "emergency_" +:+ pretty id +:+ ".png")),
       s').
Proof.
  intros Hfault. unfold emergency. unfold_run. simpl_state. rewrite Hfault.
  eexists. reflexivity.
Qed.

(** C8, amended.  When the [try] block of [generate2DImage] throws and the
    emergency image can be written, [generate2DImage] returns the emergency
    path, the single trait error = generation_failed and the species error,
    and the file holds the canvas cleared, filled with #FF00FF and
    overwritten with the error text.  When the emergency image cannot be
    written, the exception of that write leaves [generate2DImage], and
    [generateNFT] with it.  Either way the batch loop returns: an identifier
    whose generation throws is passed over. *)
Theorem catastrophic_failure_yields_error_result id s e s1 :
  generate2DImage_try w cfg id s = (Throw e, s1) ->
  let emergencyPath :=
    outputFolder cfg +:+ "emergency_" +:+ pretty id +:+ ".png" in
  (fs_fault w (clock s1) emergencyPath = false ->
   exists s',
     generate2DImage w cfg id s
     = (Return {| nftPath := emergencyPath;
                  gen_attributes :=
                    [{| trait_type := "error";
                        value := "generation_failed" |}];
                  gen_species := "error" |}, s')
     /\ fs s' !! emergencyPath
        = Some (Png (FillText "black" "20px Arial" "center"
                       ("Error generating NFT #" +:+ pretty id)
                       (width cfg / 2) (height cfg / 2)
                     :: FillRect "#FF00FF" 0 0 (width cfg) (height cfg)
                     :: ClearRect 0 0 (width cfg) (height cfg)
                     :: drawn (ctx s1))))
  /\ (fs_fault w (clock s1) emergencyPath = true ->
      exists s',
        generate2DImage w cfg id s
        = (Throw (SystemError "open" emergencyPath), s'))
  /\ (forall s0 e0 s2,
        generate2DImage w cfg id
          (snd (clearRect 0 0 (width cfg) (height cfg) s0)) = (Throw e0, s2) ->
        generateNFT w cfg id s0 = (Throw e0, s2))
  /\ (forall count s0,
        exists results s',
          generateMultipleNFTs w cfg count s0 = (Return results, s')
          /\ (length results <= count)%nat)
  /\ (forall i remaining results s0 e0 s2,
        generateNFT w cfg i s0 = (Throw e0, s2) ->
        generate_from w cfg i (S remaining) results s0
        = generate_from w cfg (S i) remaining results s2).
Proof.
  intros Htry emergencyPath. split; [|split; [|split; [|split]]].
  - intros Hok.
    destruct (emergency_run id e s1 Hok) as (s' & Hrun & Hfile).
    exists s'. split; [|exact Hfile].
    unfold generate2DImage. rewrite (try_catch_throw _ _ _ _ _ Htry).
    exact Hrun.
  - intros Hfault.
    destruct (emergency_unwritable id e s1 Hfault) as (s' & Hrun).
    exists s'. unfold generate2DImage.
    rewrite (try_catch_throw _ _ _ _ _ Htry). exact Hrun.
  - intros s0 e0 s2 Hgen. unfold generateNFT.
    assert (Hclear :
      clearRect 0 0 (width cfg) (height cfg) s0
      = (Return tt, snd (clearRect 0 0 (width cfg) (height cfg) s0)))
      by reflexivity.
    rewrite (bind_return _ _ _ _ _ Hclear).
    apply bind_throw. exact Hgen.
  - intros count s0. unfold generateMultipleNFTs.
    destruct (generate_from_returns count 1%nat [] s0)
      as (results & s' & Hrun & Hlen).
    exists results, s'. split; [exact Hrun|]. cbn [length] in Hlen. lia.
  - intros i remaining results s0 e0 s2. apply generate_from_skips.
Qed.

End Assembler.

(** The output folder cannot be created, the emergency image can be
    written. *)
Lemma catastrophic_failure_yields_error_result_witness :
  exists s',
    generate2DImage emergency_only_world (script false false) 1 (boot ∅)
    = (Return {| nftPath := "./output/emergency_1.png";
                 gen_attributes :=
                   [{| trait_type := "error";
                       value := "generation_failed" |}];
                 gen_species := "error" |}, s')
    /\ fs s' !! "./output/emergency_1.png"
       = Some (Png [FillText "black" "20px Arial" "center"
                      "Error generating NFT #1" (512 / 2) (512 / 2);
                    FillRect "#FF00FF" 0 0 512 512;
                    ClearRect 0 0 512 512]).
Proof.
  destruct (catastrophic_failure_yields_error_result emergency_only_world
              (script false false) 1 (boot ∅)
              (SystemError "mkdir" "./output/") (with_clock 1 (boot ∅)))
    as [Hwritten _].
  - vm_compute. reflexivity.
  - apply Hwritten. reflexivity.
Defined.

(** C8 as stated fails: where no file can be written, the [try] block
    throws, the emergency image cannot be saved either, and the exception
    leaves [generate2DImage] and [generateNFT]. *)
Lemma emergency_image_unwritable :
  fst (generate2DImage_try read_only_world (script false false) 1 (boot ∅))
  = Throw (SystemError "mkdir" "./output/")
  /\ fst (generate2DImage read_only_world (script false false) 1 (boot ∅))
     = Throw (SystemError "open" "./output/emergency_1.png")
  /\ fst (generateNFT read_only_world (script false false) 1 (boot ∅))
     = Throw (SystemError "open" "./output/emergency_1.png").
Proof.
  repeat split; vm_compute; reflexivity.
Qed.

(** ** The pixelated artifact *)

Section Pixelation.

Context (w : World) (cfg : Config).

(** *** The pixelated artifact when the transform fails *)

Lemma copyFileSync_copies src dest c s :
  fs s !! src = Some c ->
  fs_fault w (clock s) dest = false ->
  copyFileSync w src dest s
  = (Return tt, with_fs (<[dest := c]> (fs s)) (with_clock (S (clock s)) s)).
Proof.
  intros Hsrc Hok. unfold copyFileSync. unfold_run. simpl_state.
  rewrite Hsrc, Hok. reflexivity.
Qed.

Lemma existsSync_present p c s :
  fs s !! p = Some c -> existsSync p s = (Return true, s).
Proof.
  intros Hp. unfold existsSync, get. rewrite Hp.
  rewrite bool_decide_eq_true_2 by eauto. reflexivity.
Qed.

Lemma existsSync_absent p s :
  fs s !! p = None -> existsSync p s = (Return false, s).
Proof.
  intros Hp. unfold existsSync, get. rewrite Hp.
  rewrite bool_decide_eq_false_2 by (intros [? ?]; discriminate).
  reflexivity.
Qed.

Lemma pixelateImage_jimp_throws inputPath outputPath c s :
  SKIP_PIXELATION cfg = false ->
  fs s !! inputPath = Some c ->
  jimp w (clock s) = JimpThrows ->
  fs_fault w (S (clock s)) outputPath = false ->
  pixelateImage w cfg inputPath outputPath s
  = (Return (Some outputPath),
     with_fs (<[outputPath := c]> (fs s)) (with_clock (S (S (clock s))) s)).
Proof.
  intros Hskip Hsrc Hjimp Hok. unfold pixelateImage. unfold_run.
  rewrite Hsrc, Hskip. rewrite bool_decide_eq_true_2 by eauto.
  cbn [negb].
  repeat first [rewrite Hsrc | rewrite Hjimp | rewrite Hok
               | progress simpl_state].
  reflexivity.
Qed.

Lemma pixelateImage_jimp_no_file inputPath outputPath c s :
  SKIP_PIXELATION cfg = false ->
  fs s !! inputPath = Some c ->
  jimp w (clock s) = JimpNoFile ->
  pixelateImage w cfg inputPath outputPath s
  = (Return (Some outputPath), with_clock (S (clock s)) s).
Proof.
  intros Hskip Hsrc Hjimp. unfold pixelateImage. unfold_run.
  rewrite Hsrc, Hskip. rewrite bool_decide_eq_true_2 by eauto.
  cbn [negb].
  repeat first [rewrite Hsrc | rewrite Hjimp | progress simpl_state].
  reflexivity.
Qed.

(** The transform failed: Jimp threw, or resolved leaving no file. *)
Lemma pixelate_or_copy_fallback nftPath pixelatedPath c s :
  SKIP_PIXELATION cfg = false ->
  fs s !! nftPath = Some c ->
  jimp w (clock s) = JimpThrows
  \/ (jimp w (clock s) = JimpNoFile /\ fs s !! pixelatedPath = None) ->
  (forall t, fs_fault w t pixelatedPath = false) ->
  exists n,
    pixelate_or_copy w cfg nftPath pixelatedPath s
    = (Return pixelatedPath,
       with_fs (<[pixelatedPath := c]> (fs s)) (with_clock n s)).
Proof.
  intros Hskip Hsrc Hfail Hwritable.
  unfold pixelate_or_copy.
  destruct Hfail as [Hthrows | [Hnofile Habsent]].
  - pose proof (pixelateImage_jimp_throws nftPath pixelatedPath c s
                  Hskip Hsrc Hthrows (Hwritable _)) as Hpix.
    unfold try_catch. rewrite (bind_return _ _ _ _ _ Hpix).
    erewrite (bind_return (bind (existsSync pixelatedPath) _)).
    2:{ erewrite bind_return; [reflexivity|].
        apply (existsSync_present _ c). simpl_state. apply lookup_insert_eq. }
    cbn [negb default]. eexists. reflexivity.
  - pose proof (pixelateImage_jimp_no_file nftPath pixelatedPath c s
                  Hskip Hsrc Hnofile) as Hpix.
    unfold try_catch. rewrite (bind_return _ _ _ _ _ Hpix).
    erewrite (bind_return (bind (existsSync pixelatedPath) _)).
    2:{ erewrite bind_return; [reflexivity|].
        apply existsSync_absent. simpl_state. exact Habsent. }
    cbn [negb].
    erewrite (bind_return (copyFileSync w nftPath pixelatedPath)).
    2:{ apply (copyFileSync_copies _ _ c); [exact Hsrc | apply Hwritable]. }
    eexists. reflexivity.
Qed.


(** Uploading never throws and only asks questions; it yields a URL when the
    file is there and the storage reports no error. *)
Lemma uploadToSupabase_run filePath bucket nftId s :
  exists o n,
    uploadToSupabase w filePath bucket nftId s = (Return o, with_clock n s)
    /\ ((forall t b key, storage_upload w t b key = None) ->
        is_Some (fs s !! filePath) -> is_Some o).
Proof.
  unfold uploadToSupabase, createFolderIfNotExists. unfold_run.
  destruct (fs s !! filePath) as [c|] eqn:Hfile.
  - rewrite bool_decide_eq_true_2 by eauto. cbn [negb]. simpl_state.
    rewrite Hfile. simpl_state.
    repeat match goal with
           | |- context [ match storage_list w ?t ?b ?p with _ => _ end ] =>
               destruct (storage_list w t b p); simpl_state
           | |- context [ match storage_upload w ?t ?b ?p with _ => _ end ] =>
               let Hup := fresh "Hup" in
               destruct (storage_upload w t b p) eqn:Hup; simpl_state
           | |- context [ if negb ?c then _ else _ ] =>
               destruct c; cbn [negb]; simpl_state
           end;
      eexists _, _; (split; [reflexivity|]); intros Hall _; eauto;
      match goal with
      | Hup : storage_upload w _ _ _ = Some _ |- _ =>
          rewrite Hall in Hup; discriminate
      end.
  - rewrite bool_decide_eq_false_2 by (intros [? ?]; discriminate).
    cbn [negb]. exists None, (clock s). split.
    + destruct s; reflexivity.
    + intros _ [? ?]. discriminate.
Qed.

Lemma json_is_not_pixelated (folder species number : string) :
  folder +:+ species +:+ "_nft_" +:+ number +:+ ".json"
  <> folder +:+ species +:+ "_nft_" +:+ number +:+ "_pixelated.png".
Proof.
  intros Heq. do 4 apply String.app_inj in Heq. discriminate.
Qed.

Lemma copyFileSync_faults src dest c s :
  fs s !! src = Some c ->
  fs_fault w (clock s) dest = true ->
  copyFileSync w src dest s
  = (Throw (SystemError "copyfile" dest), with_clock (S (clock s)) s).
Proof.
  intros Hsrc Hfault. unfold copyFileSync. unfold_run. simpl_state.
  rewrite Hsrc, Hfault. reflexivity.
Qed.

Lemma pixelateImage_jimp_throws_unwritable inputPath outputPath c s :
  SKIP_PIXELATION cfg = false ->
  fs s !! inputPath = Some c ->
  jimp w (clock s) = JimpThrows ->
  fs_fault w (S (clock s)) outputPath = true ->
  pixelateImage w cfg inputPath outputPath s
  = (Return None, with_clock (S (S (clock s))) s).
Proof.
  intros Hskip Hsrc Hjimp Hfault. unfold pixelateImage. unfold_run.
  rewrite Hsrc, Hskip. rewrite bool_decide_eq_true_2 by eauto.
  cbn [negb].
  repeat first [rewrite Hsrc | rewrite Hjimp | rewrite Hfault
               | progress simpl_state].
  reflexivity.
Qed.

(** With the pixelated path unwritable, the last copy throws. *)
Lemma pixelate_or_copy_unwritable nftPath pixelatedPath c s :
  SKIP_PIXELATION cfg = false ->
  fs s !! nftPath = Some c ->
  jimp w (clock s) = JimpThrows
  \/ (jimp w (clock s) = JimpNoFile /\ fs s !! pixelatedPath = None) ->
  (forall t, fs_fault w t pixelatedPath = true) ->
  exists n,
    pixelate_or_copy w cfg nftPath pixelatedPath s
    = (Throw (SystemError "copyfile" pixelatedPath), with_clock n s).
Proof.
  intros Hskip Hsrc Hfail Hfault.
  unfold pixelate_or_copy.
  destruct Hfail as [Hthrows | [Hnofile Habsent]].
  - pose proof (pixelateImage_jimp_throws_unwritable nftPath pixelatedPath c
                  s Hskip Hsrc Hthrows (Hfault _)) as Hpix.
    erewrite try_catch_throw.
    2:{ rewrite (bind_return _ _ _ _ _ Hpix).
        erewrite bind_return by reflexivity.
        apply bind_throw.
        apply (copyFileSync_faults _ _ c); [exact Hsrc | apply Hfault]. }
    erewrite bind_throw.
    2:{ apply (copyFileSync_faults _ _ c); [exact Hsrc | apply Hfault]. }
    eexists. reflexivity.
  - pose proof (pixelateImage_jimp_no_file nftPath pixelatedPath c s
                  Hskip Hsrc Hnofile) as Hpix.
    erewrite try_catch_throw.
    2:{ rewrite (bind_return _ _ _ _ _ Hpix).
        erewrite (bind_return (bind (existsSync pixelatedPath) _)).
        2:{ erewrite bind_return; [reflexivity|].
            apply existsSync_absent. simpl_state. exact Habsent. }
        cbn [negb]. apply bind_throw.
        apply (copyFileSync_faults _ _ c); [exact Hsrc | apply Hfault]. }
    erewrite bind_throw.
    2:{ apply (copyFileSync_faults _ _ c); [exact Hsrc | apply Hfault]. }
    eexists. reflexivity.
Qed.

(** With a file already at the pixelated path and a Jimp that leaves none,
    that file is taken for the pixelated artifact: nothing is copied. *)
Lemma pixelate_or_copy_stale nftPath pixelatedPath c old s :
  SKIP_PIXELATION cfg = false ->
  fs s !! nftPath = Some c ->
  jimp w (clock s) = JimpNoFile ->
  fs s !! pixelatedPath = Some old ->
  pixelate_or_copy w cfg nftPath pixelatedPath s
  = (Return pixelatedPath, with_clock (S (clock s)) s).
Proof.
  intros Hskip Hsrc Hnofile Hold. unfold pixelate_or_copy.
  pose proof (pixelateImage_jimp_no_file nftPath pixelatedPath c s
                Hskip Hsrc Hnofile) as Hpix.
  unfold try_catch. rewrite (bind_return _ _ _ _ _ Hpix).
  erewrite (bind_return (bind (existsSync pixelatedPath) _)).
  2:{ erewrite bind_return; [reflexivity|].
      apply (existsSync_present _ old). simpl_state. exact Hold. }
  cbn [negb default]. reflexivity.
Qed.

(** What [uploadToSupabase] answers: nothing for a missing file, and
    otherwise nothing or the public URL of the file name in the folder of
    the species its prefix names. *)
Lemma uploadToSupabase_url filePath bucket nftId s :
  exists url n,
    uploadToSupabase w filePath bucket nftId s = (Return url, with_clock n s)
    /\ (clock s <= n <= clock s + 3)%nat
    /\ (fs s !! filePath = None -> url = None /\ n = clock s)
    /\ (forall u,
          url = Some u ->
          is_Some (fs s !! filePath)
          /\ u = SUPABASE_URL w +:+ "/storage/v1/object/public/"
                 +:+ bucket +:+ "/"
                 +:+ ("nfts/"
                      +:+ (if JsString.startsWith (path_basename w filePath)
                                "green_"
                           then "green"
                           else if JsString.startsWith
                                     (path_basename w filePath) "indigo_"
                                then "indigo" else "unknown")
                      +:+ "/" +:+ pretty nftId)
                 +:+ "/" +:+ path_basename w filePath)
    /\ ((forall t b key, storage_upload w t b key = None) ->
        is_Some (fs s !! filePath) -> is_Some url)
    /\ ((forall t b key, storage_upload w t b key <> None) -> url = None).
Proof.
  unfold uploadToSupabase, createFolderIfNotExists. unfold_run.
  destruct (fs s !! filePath) as [c|] eqn:Hfile.
  - rewrite bool_decide_eq_true_2 by eauto. cbn [negb]. simpl_state.
    rewrite Hfile. simpl_state.
    repeat match goal with
           | |- context [ match storage_list w ?t ?b ?p with _ => _ end ] =>
               destruct (storage_list w t b p); simpl_state
           | |- context [ match storage_upload w ?t ?b ?p with _ => _ end ] =>
               let Hup := fresh "Hup" in
               destruct (storage_upload w t b p) eqn:Hup; simpl_state
           | |- context [ if negb ?c then _ else _ ] =>
               destruct c; cbn [negb]; simpl_state
           end;
      eexists _, _; (split; [reflexivity|]);
      (split; [lia|]); (split; [discriminate|]);
      (split; [intros u Hu; inversion Hu; subst; eauto|]);
      (split;
       [ intros Hall _; eauto;
         match goal with
         | Hup : storage_upload w _ _ _ = Some _ |- _ =>
             rewrite Hall in Hup; discriminate
         end
       | intros Hall; try reflexivity;
         match goal with
         | Hup : storage_upload w _ _ _ = None |- _ =>
             apply Hall in Hup; destruct Hup
         end ]).
  - rewrite bool_decide_eq_false_2 by (intros [? ?]; discriminate).
    cbn [negb]. exists None, (clock s). split; [destruct s; reflexivity|].
    split; [lia|]. split; [auto|]. split; [discriminate|].
    split; [intros _ [? ?]; discriminate | reflexivity].
Qed.

(** The steps of [generateNFT] after the pixelation, when the metadata can
    be written and no upload reports an error: the reference to the
    pixelated artifact is the URL of the file at the pixelated path. *)
Lemma generateNFT_after_pixelation id s g s1 c s2 c' :
  let pixelatedPath :=
    outputFolder cfg +:+ gen_species g +:+ "_nft_" +:+ pretty id
    +:+ "_pixelated.png" in
  let jsonPath :=
    outputFolder cfg +:+ gen_species g +:+ "_nft_" +:+ pretty id
    +:+ ".json" in
  generate2DImage w cfg id
    (snd (clearRect 0 0 (width cfg) (height cfg) s)) = (Return g, s1) ->
  fs s1 !! nftPath g = Some c ->
  pixelate_or_copy w cfg (nftPath g) pixelatedPath s1
  = (Return pixelatedPath, s2) ->
  fs s2 !! pixelatedPath = Some c' ->
  (forall t, fs_fault w t jsonPath = false) ->
  (forall t bucket key, storage_upload w t bucket key = None) ->
  exists nft s' species,
    generateNFT w cfg id s = (Return nft, s')
    /\ fs s' !! pixelatedPath = Some c'
    /\ In species ["green"; "indigo"; "unknown"]
    /\ pixelatedUrl nft
       = Some (SUPABASE_URL w +:+ "/storage/v1/object/public/"
               +:+ "nft-storage" +:+ "/"
               +:+ ("nfts/" +:+ species +:+ "/" +:+ pretty id)
               +:+ "/" +:+ path_basename w pixelatedPath)
    /\ md_pixelated (metadata nft) = pixelatedUrl nft
    /\ md_attributes (metadata nft) = gen_attributes g.
Proof.
  intros pixelatedPath jsonPath Hgen Hfile Hpix Hcopy Hjson Hup.
  assert (Hclear :
    clearRect 0 0 (width cfg) (height cfg) s
    = (Return tt, snd (clearRect 0 0 (width cfg) (height cfg) s)))
    by reflexivity.
  unfold generateNFT.
  rewrite (bind_return _ _ _ _ _ Hclear).
  rewrite (bind_return _ _ _ _ _ Hgen). cbv zeta.
  rewrite (bind_return _ _ _ _ _ (existsSync_present _ _ _ Hfile)).
  cbn [negb]. fold pixelatedPath. fold jsonPath.
  rewrite (bind_return _ _ _ _ _ Hpix).
  destruct (uploadToSupabase_url (nftPath g) "nft-storage" id s2)
    as (o1 & n1 & Hup1 & _).
  rewrite (bind_return _ _ _ _ _ Hup1).
  destruct (uploadToSupabase_url pixelatedPath "nft-storage" id
              (with_clock n1 s2))
    as (o2 & n2 & Hup2 & _ & _ & Hurl & Hsome & _).
  rewrite (bind_return _ _ _ _ _ Hup2).
  destruct (Hsome Hup) as [u Hu]; [simpl_state; eauto|]. subst o2.
  destruct (Hurl u eq_refl) as [_ Hu].
  unfold_run. simpl_state. rewrite Hjson.
  assert (Hsp : exists species,
            In species ["green"; "indigo"; "unknown"]
            /\ (if JsString.startsWith (path_basename w pixelatedPath)
                     "green_"
                then "green"
                else if JsString.startsWith (path_basename w pixelatedPath)
                          "indigo_"
                     then "indigo" else "unknown") = species).
  { destruct (JsString.startsWith _ "green_");
      [|destruct (JsString.startsWith _ "indigo_")];
      eexists; (split; [|reflexivity]); cbn; auto. }
  destruct Hsp as (species & Hin & Hsp). rewrite Hsp in Hu.
  eexists _, _, species. split; [reflexivity|]. simpl_state.
  cbn [pixelatedUrl metadata md_pixelated md_attributes].
  split.
  { rewrite lookup_insert_ne by apply json_is_not_pixelated. exact Hcopy. }
  split; [exact Hin|]. split; [rewrite Hu; reflexivity|].
  split; reflexivity.
Qed.

(** C9, amended.  When the transform fails (Jimp throws, or leaves no
    file) and no file of an earlier run is at the pixelated path: if the
    pixelated path can be written, the fallback leaves there a copy of the
    primary artifact, and [generateNFT] returns with the URL of that copy
    once the metadata file can be written and the uploads report no error;
    if the pixelated path cannot be written, the last fallback copy throws
    and [generateNFT] with it.  When Jimp leaves no file and a file of an
    earlier run is at the pixelated path, that file is kept for the
    pixelated artifact and nothing is copied. *)
Theorem transform_failure_falls_back_to_copy id s g s1 c :
  let pixelatedPath :=
    outputFolder cfg +:+ gen_species g +:+ "_nft_" +:+ pretty id
    +:+ "_pixelated.png" in
  let jsonPath :=
    outputFolder cfg +:+ gen_species g +:+ "_nft_" +:+ pretty id
    +:+ ".json" in
  let refers_to_pixelated (nft : NFT) :=
    exists species,
      In species ["green"; "indigo"; "unknown"]
      /\ pixelatedUrl nft
         = Some (SUPABASE_URL w +:+ "/storage/v1/object/public/"
                 +:+ "nft-storage" +:+ "/"
                 +:+ ("nfts/" +:+ species +:+ "/" +:+ pretty id)
                 +:+ "/" +:+ path_basename w pixelatedPath) in
  generate2DImage w cfg id
    (snd (clearRect 0 0 (width cfg) (height cfg) s)) = (Return g, s1) ->
  fs s1 !! nftPath g = Some c ->
  SKIP_PIXELATION cfg = false ->
  jimp w (clock s1) = JimpThrows \/ jimp w (clock s1) = JimpNoFile ->
  ((jimp w (clock s1) = JimpNoFile -> fs s1 !! pixelatedPath = None) ->
   ((forall t, fs_fault w t pixelatedPath = false) ->
    (exists n,
       pixelate_or_copy w cfg (nftPath g) pixelatedPath s1
       = (Return pixelatedPath,
          with_fs (<[pixelatedPath := c]> (fs s1)) (with_clock n s1)))
    /\ ((forall t, fs_fault w t jsonPath = false) ->
        (forall t bucket key, storage_upload w t bucket key = None) ->
        exists nft s',
          generateNFT w cfg id s = (Return nft, s')
          /\ fs s' !! pixelatedPath = Some c
          /\ refers_to_pixelated nft
          /\ md_pixelated (metadata nft) = pixelatedUrl nft
          /\ md_attributes (metadata nft) = gen_attributes g))
   /\ ((forall t, fs_fault w t pixelatedPath = true) ->
       exists s',
         generateNFT w cfg id s
         = (Throw (SystemError "copyfile" pixelatedPath), s')))
  /\ (forall old,
        jimp w (clock s1) = JimpNoFile ->
        fs s1 !! pixelatedPath = Some old ->
        pixelate_or_copy w cfg (nftPath g) pixelatedPath s1
        = (Return pixelatedPath, with_clock (S (clock s1)) s1)
        /\ ((forall t, fs_fault w t jsonPath = false) ->
            (forall t bucket key, storage_upload w t bucket key = None) ->
            exists nft s',
              generateNFT w cfg id s = (Return nft, s')
              /\ fs s' !! pixelatedPath = Some old
              /\ refers_to_pixelated nft
              /\ md_pixelated (metadata nft) = pixelatedUrl nft)).
Proof.
  intros pixelatedPath jsonPath refers_to_pixelated Hgen Hfile Hskip Hjimp.
  split.
  - intros Hfresh.
    assert (Hfail : jimp w (clock s1) = JimpThrows
                    \/ (jimp w (clock s1) = JimpNoFile
                        /\ fs s1 !! pixelatedPath = None)).
    { destruct Hjimp as [Hthrows | Hnofile]; [left; exact Hthrows|].
      right. split; [exact Hnofile | exact (Hfresh Hnofile)]. }
    split.
    + intros Hcopy.
      destruct (pixelate_or_copy_fallback (nftPath g) pixelatedPath c s1
                  Hskip Hfile Hfail Hcopy) as (n & Hpix).
      split; [exists n; exact Hpix|].
      intros Hjson Hup.
      destruct (generateNFT_after_pixelation id s g s1 c _ c Hgen Hfile
                  Hpix) as (nft & s' & species & Hrun & Hthere & Hin & Hurl
                            & Hmd & Hattr);
        [simpl_state; apply lookup_insert_eq | exact Hjson | exact Hup |].
      exists nft, s'. split; [exact Hrun|]. split; [exact Hthere|].
      split; [exists species; auto|]. auto.
    + intros Hfault.
      destruct (pixelate_or_copy_unwritable (nftPath g) pixelatedPath c s1
                  Hskip Hfile Hfail Hfault) as (n & Hpix).
      assert (Hclear :
        clearRect 0 0 (width cfg) (height cfg) s
        = (Return tt, snd (clearRect 0 0 (width cfg) (height cfg) s)))
        by reflexivity.
      unfold generateNFT.
      rewrite (bind_return _ _ _ _ _ Hclear).
      rewrite (bind_return _ _ _ _ _ Hgen). cbv zeta.
      rewrite (bind_return _ _ _ _ _ (existsSync_present _ _ _ Hfile)).
      cbn [negb]. fold pixelatedPath.
      rewrite (bind_throw _ _ _ _ _ Hpix). eexists. reflexivity.
  - intros old Hnofile Hold.
    pose proof (pixelate_or_copy_stale (nftPath g) pixelatedPath c old s1
                  Hskip Hfile Hnofile Hold) as Hpix.
    split; [exact Hpix|].
    intros Hjson Hup.
    destruct (generateNFT_after_pixelation id s g s1 c _ old Hgen Hfile
                Hpix) as (nft & s' & species & Hrun & Hthere & Hin & Hurl
                          & Hmd & _);
      [simpl_state; exact Hold | exact Hjson | exact Hup |].
    exists nft, s'. split; [exact Hrun|]. split; [exact Hthere|].
    split; [exists species; auto | exact Hmd].
Qed.

End Pixelation.

(** Jimp throws, everything else works. *)
Lemma transform_failure_falls_back_to_copy_witness :
  exists nft s',
    generateNFT jimp_throws_world (script false false) 1 (boot ∅)
    = (Return nft, s')
    /\ is_Some (fs s' !! "./output/indigo_nft_1_pixelated.png")
    /\ exists species,
         pixelatedUrl nft
         = Some ("https://sb.example/storage/v1/object/public/nft-storage/"
                 +:+ ("nfts/" +:+ species +:+ "/1") +:+ "/"
                 +:+ "indigo_nft_1_pixelated.png").
Proof.
  pose (g := {| nftPath := "./output/indigo_nft_1.png";
                gen_attributes :=
                  [{| trait_type := "species"; value := "indigo" |};
                   {| trait_type := "background"; value := "cap" |};
                   {| trait_type := "head"; value := "cap" |};
                   {| trait_type := "eyes"; value := "cap" |};
                   {| trait_type := "clothing"; value := "cap" |};
                   {| trait_type := "neck"; value := "cap" |};
                   {| trait_type := "hats"; value := "cap" |};
                   {| trait_type := "binky"; value := "cap" |};
                   {| trait_type := "special"; value := "cap" |}];
                gen_species := "indigo" |}).
  pose (s1 := snd (generate2DImage jimp_throws_world (script false false) 1
                     (snd (clearRect 0 0 512 512 (boot ∅))))).
  destruct (transform_failure_falls_back_to_copy jimp_throws_world
              (script false false) 1 (boot ∅) g s1 (Png (drawn (ctx s1))))
    as [Hfresh _].
  - vm_compute. reflexivity.
  - vm_compute. reflexivity.
  - reflexivity.
  - left. reflexivity.
  - destruct Hfresh as [Hwritable _]; [discriminate|].
    destruct Hwritable as [_ Hreturns]; [reflexivity|].
    destruct Hreturns as (nft & s' & Hrun & Hfile & (species & _ & Hurl) & _);
      [reflexivity | reflexivity |].
    exists nft, s'. split; [exact Hrun|]. split; [eexists; exact Hfile|].
    exists species. rewrite Hurl. reflexivity.
Defined.

(** C9 as stated fails: Jimp throws and the pixelated path cannot be
    written, so the fallback copy throws and [generateNFT] with it. *)
Lemma fallback_copy_unwritable :
  (forall t, jimp no_pixelated_world t = JimpThrows)
  /\ fst (generateNFT no_pixelated_world (script false false) 1 (boot ∅))
     = Throw (SystemError "copyfile" "./output/indigo_nft_1_pixelated.png").
Proof.
  split; [reflexivity|]. vm_compute. reflexivity.
Qed.

(** * Further properties of the program *)

(** ** The species of a run *)

Section Species.

Context (w : World) (cfg : Config).

Lemma existsb_eqb_In (x : string) (l : list string) :
  existsb (String.eqb x) l = true <-> In x l.
Proof.
  rewrite existsb_exists. split.
  - intros (y & Hy & Heq). apply String.eqb_eq in Heq. subst. exact Hy.
  - intros Hx. exists x. split; [exact Hx | apply String.eqb_refl].
Qed.

(** X1. [getSpeciesToGenerate] of the script never throws and answers a
    known species: "indigo" or a member of [availableSpecies].  With
    [SPECIES] unset it is "indigo"; with a [SPECIES] other than random it is
    the lower-cased value when that is available and "indigo" otherwise;
    with [SPECIES] random it is the one at the index
    [Math.floor(Math.random() * count)], for a draw that is a double below
    1: the slice of the unit interval that holds the draw up to the rounding
    of the product, and exactly that slice over two species, as the script
    has them. *)
Theorem script_species_is_known s :
  availableSpecies cfg <> [] ->
  unit_double (Math_random w (clock s)) ->
  exists species n,
    getSpeciesToGenerate w cfg s = (Return species, with_clock n s)
    /\ (species = "indigo" \/ In species (availableSpecies cfg))
    /\ (env_SPECIES w = None -> species = "indigo")
    /\ (forall env,
          env_SPECIES w = Some env ->
          JsString.toLowerCase env <> "random" ->
          (In (JsString.toLowerCase env) (availableSpecies cfg) ->
           species = JsString.toLowerCase env)
          /\ (~ In (JsString.toLowerCase env) (availableSpecies cfg) ->
              species = "indigo"))
    /\ (forall env,
          env_SPECIES w = Some env ->
          JsString.toLowerCase env = "random" ->
          picked_nearly_uniformly (availableSpecies cfg)
            (Math_random w (clock s)) species
          /\ (length (availableSpecies cfg) = 2%nat ->
              picked_uniformly (availableSpecies cfg)
                (Math_random w (clock s)) species)).
Proof.
  intros Hne Hdraw. unfold getSpeciesToGenerate.
  destruct (env_SPECIES w) as [env|] eqn:Henv; cbn [option_map].
  - destruct (String.eqb (JsString.toLowerCase env) "random") eqn:Hrandom.
    + apply String.eqb_eq in Hrandom.
      destruct (js_index_floor (availableSpecies cfg) _ Hne Hdraw)
        as (species & Hidx & Hpick).
      exists species, (S (clock s)). unfold_run. simpl_state.
      rewrite Hidx. cbn [default]. split; [reflexivity|].
      split; [right; exact (picked_in _ _ _ Hpick)|].
      split; [discriminate|]. split.
      * intros env' Heq Hnot. inversion Heq; subst. contradiction.
      * intros env' _ _. split; [exact Hpick|].
        intros Hlen. exact (picked_of_two _ _ _ Hlen Hdraw Hpick).
    + apply String.eqb_neq in Hrandom.
      destruct (existsb (String.eqb (JsString.toLowerCase env))
                  (availableSpecies cfg)) eqn:Hin.
      * apply existsb_eqb_In in Hin.
        exists (JsString.toLowerCase env), (clock s).
        split; [destruct s; reflexivity|].
        split; [right; exact Hin|]. split; [discriminate|]. split.
        -- intros env' Heq _. inversion Heq; subst. split; [reflexivity|].
           intros Hnot. contradiction.
        -- intros env' Heq Hr. inversion Heq; subst. contradiction.
      * assert (Hnot : ~ In (JsString.toLowerCase env) (availableSpecies cfg)).
        { intros Hyes. apply existsb_eqb_In in Hyes.
          rewrite Hyes in Hin. discriminate. }
        exists "indigo", (clock s).
        split; [destruct s; reflexivity|].
        split; [left; reflexivity|]. split; [discriminate|]. split.
        -- intros env' Heq _. inversion Heq; subst. split; [|reflexivity].
           intros Hyes. contradiction.
        -- intros env' Heq Hr. inversion Heq; subst. contradiction.
  - exists "indigo", (clock s). split; [destruct s; reflexivity|].
    split; [left; reflexivity|]. split; [reflexivity|].
    split; intros env' Heq; discriminate.
Qed.


End Species.

(** The species asked for at random, with the draw one half. *)
Lemma script_species_is_known_witness :
  exists species n,
    getSpeciesToGenerate offline_world (script false false) (boot ∅)
    = (Return species, with_clock n (boot ∅))
    /\ picked_uniformly ["indigo"; "green"] (1 # 2) species.
Proof.
  destruct (script_species_is_known offline_world (script false false)
              (boot ∅))
    as (species & n & Hrun & _ & _ & _ & Hrandom).
  - discriminate.
  - split; [discriminate|]. split; reflexivity.
  - exists species, n. split; [exact Hrun|].
    apply (Hrandom "random"); reflexivity.
Defined.


(** ** Trait values *)

Section Names.

Import JsString.

(** Either the character does not occur and the scan hands back its
    accumulator, or it occurs last at [k] and the scan answers the start
    index plus [k]. *)
Lemma lastIndexOf_from_cases (c : ascii) (s : string) :
  (forall i acc, lastIndexOf_from c s i acc = acc)
  \/ (exists k, (0 <= k < Z.of_nat (String.length s))%Z
                /\ forall i acc, lastIndexOf_from c s i acc = (i + k)%Z).
Proof.
  induction s as [|a s' IH].
  - left. reflexivity.
  - destruct IH as [Hnone | (k & Hk & Hlast)].
    + destruct (Ascii.eqb a c) eqn:Hac.
      * right. exists 0%Z. split; [cbn [String.length]; lia|].
        intros i acc. cbn [lastIndexOf_from]. rewrite Hac, Hnone. lia.
      * left. intros i acc. cbn [lastIndexOf_from]. rewrite Hac, Hnone.
        reflexivity.
    + right. exists (k + 1)%Z. split; [cbn [String.length]; lia|].
      intros i acc. cbn [lastIndexOf_from]. rewrite Hlast. lia.
Qed.

Lemma lastIndexOf_absent (c : ascii) (s : string) :
  lastIndexOf c s = (-1)%Z -> forall i acc, lastIndexOf_from c s i acc = acc.
Proof.
  unfold lastIndexOf. intros Hnone.
  destruct (lastIndexOf_from_cases c s) as [Hall | (k & Hk & Hlast)].
  - exact Hall.
  - rewrite Hlast in Hnone. lia.
Qed.

Lemma append_empty_l (s : string) : EmptyString +:+ s = s.
Proof. reflexivity. Qed.

Lemma append_String (c : ascii) (a b : string) :
  String c a +:+ b = String c (a +:+ b).
Proof. reflexivity. Qed.

Lemma lastIndexOf_from_append (c : ascii) (a b : string) :
  lastIndexOf c b = (-1)%Z ->
  forall i acc,
    lastIndexOf_from c (a +:+ String c b) i acc
    = (i + Z.of_nat (String.length a))%Z.
Proof.
  intros Hb. induction a as [|x a' IH]; intros i acc.
  - rewrite append_empty_l. cbn [lastIndexOf_from String.length].
    rewrite Ascii.eqb_refl, (lastIndexOf_absent c b Hb). lia.
  - rewrite append_String. cbn [lastIndexOf_from String.length].
    rewrite IH. lia.
Qed.

Lemma substring_prefix (a b : string) :
  String.substring 0 (String.length a) (a +:+ b) = a.
Proof.
  induction a as [|x a' IH].
  - rewrite append_empty_l. destruct b; reflexivity.
  - rewrite append_String. cbn [String.length String.substring].
    rewrite IH. reflexivity.
Qed.

Lemma fileNameWithoutExt_strips (base ext : string) :
  base <> EmptyString ->
  lastIndexOf "." ext = (-1)%Z ->
  fileNameWithoutExt (base +:+ "." +:+ ext) = base.
Proof.
  intros Hbase Hext. unfold fileNameWithoutExt, substring0, lastIndexOf.
  change (base +:+ "." +:+ ext) with (base +:+ String "." ext).
  rewrite (lastIndexOf_from_append "." base ext Hext).
  rewrite Z.add_0_l, Nat2Z.id, substring_prefix.
  destruct base; [contradiction | reflexivity].
Qed.

(** X3. The trait value of a file name: [base.ext] gives [base] when
    [base] is not empty and [ext] holds no dot; a name without a dot, and a
    name whose only dot comes first, are kept whole; a name that is not
    empty never gives an empty value. *)
Theorem fileNameWithoutExt_spec :
  (forall base ext,
      base <> EmptyString -> lastIndexOf "." ext = (-1)%Z ->
      fileNameWithoutExt (base +:+ "." +:+ ext) = base)
  /\ (forall name,
        lastIndexOf "." name = (-1)%Z -> fileNameWithoutExt name = name)
  /\ (forall ext,
        lastIndexOf "." ext = (-1)%Z ->
        fileNameWithoutExt ("." +:+ ext) = "." +:+ ext)
  /\ (forall name,
        name <> EmptyString -> fileNameWithoutExt name <> EmptyString).
Proof.
  split; [exact fileNameWithoutExt_strips|]. split; [|split].
  - intros name Hnone. unfold fileNameWithoutExt, substring0.
    rewrite Hnone. cbn [Z.to_nat].
    destruct name; reflexivity.
  - intros ext Hext. unfold fileNameWithoutExt, substring0, lastIndexOf.
    change ("." +:+ ext) with (EmptyString +:+ String "." ext).
    rewrite (lastIndexOf_from_append "." EmptyString ext Hext).
    rewrite !append_empty_l. reflexivity.
  - intros name Hname. unfold fileNameWithoutExt, or_else.
    destruct (substring0 _ name); [exact Hname | discriminate].
Qed.

End Names.

(** ** The file filter *)

Section Extensions.

Import JsString.

Lemma substring_whole (s : string) :
  String.substring 0 (String.length s) s = s.
Proof.
  induction s as [|c s' IH]; [reflexivity|].
  cbn [String.length String.substring]. rewrite IH. reflexivity.
Qed.

Lemma substring_suffix (p suffix : string) :
  String.substring (String.length p) (String.length suffix) (p +:+ suffix)
  = suffix.
Proof.
  induction p as [|c p' IH].
  - rewrite append_empty_l. apply substring_whole.
  - rewrite append_String. cbn [String.length String.substring]. exact IH.
Qed.

Lemma length_append (a b : string) :
  String.length (a +:+ b) = (String.length a + String.length b)%nat.
Proof.
  induction a as [|c a' IH]; [reflexivity|].
  rewrite append_String. cbn [String.length]. rewrite IH. reflexivity.
Qed.

Lemma substring_split (s : string) :
  forall m, (m <= String.length s)%nat ->
    s = String.substring 0 m s
        +:+ String.substring m (String.length s - m) s.
Proof.
  induction s as [|c s' IH]; intros m Hm.
  - cbn [String.length] in Hm. assert (m = 0%nat) by lia. subst. reflexivity.
  - destruct m as [|m'].
    + rewrite Nat.sub_0_r.
      change (String.substring 0 0 (String c s')) with EmptyString.
      rewrite append_empty_l. symmetry. apply substring_whole.
    + cbn [String.length] in *. cbn [String.substring Nat.sub].
      replace (String.substring 0 (S m') (String c s'))
        with (String c (String.substring 0 m' s')) by reflexivity.
      rewrite append_String. f_equal. apply IH. lia.
Qed.

(** [s.endsWith(suffix)] holds exactly of the strings that are some prefix
    followed by [suffix]. *)
Lemma endsWith_spec (s suffix : string) :
  endsWith s suffix = true <-> exists p, s = p +:+ suffix.
Proof.
  unfold endsWith. rewrite Bool.andb_true_iff, Nat.leb_le, String.eqb_eq.
  split.
  - intros [Hlen Hsub].
    exists (String.substring 0 (String.length s - String.length suffix) s).
    pose proof (substring_split s
                  (String.length s - String.length suffix)) as Hsplit.
    replace (String.length s - (String.length s - String.length suffix))%nat
      with (String.length suffix) in Hsplit by lia.
    rewrite Hsub in Hsplit. apply Hsplit. lia.
  - intros (p & ->). rewrite length_append. split; [lia|].
    replace (String.length p + String.length suffix - String.length suffix)%nat
      with (String.length p) by lia.
    apply substring_suffix.
Qed.

Lemma lower_upper_ascii (c : ascii) :
  lower_ascii (upper_ascii c) = lower_ascii c.
Proof.
  destruct c as [[] [] [] [] [] [] [] []]; reflexivity.
Qed.

Lemma toLowerCase_toUpperCase (s : string) :
  toLowerCase (toUpperCase s) = toLowerCase s.
Proof.
  induction s as [|c s' IH]; [reflexivity|].
  cbn [toUpperCase toLowerCase]. rewrite lower_upper_ascii, IH. reflexivity.
Qed.

(** X4. The file filter of [getRandomComponent] accepts exactly the names
    that, lower-cased, end in .png, .svg, .jpg or .jpeg; a name of ASCII
    characters is accepted whatever the case of its letters. *)
Theorem is_image_file_spec :
  (forall name,
      is_image_file name = true
      <-> exists stem ext,
            toLowerCase name = stem +:+ ext
            /\ In ext [".png"; ".svg"; ".jpg"; ".jpeg"])
  /\ (forall name,
        is_ascii name = true ->
        is_image_file (toUpperCase name) = is_image_file name)
  /\ is_ascii "CAP.PNG" = true
  /\ is_image_file "CAP.PNG" = true.
Proof.
  split.
  - intros name. unfold is_image_file.
    rewrite !Bool.orb_true_iff, !endsWith_spec. split.
    + intros [[[(p & Hp) | (p & Hp)] | (p & Hp)] | (p & Hp)];
        eexists p, _; (split; [exact Hp|]); cbn; auto.
    + intros (stem & ext & Hname & Hext). cbn in Hext.
      destruct Hext as [<- | [<- | [<- | [<- | []]]]]; eauto 6.
  - split; [|split; reflexivity].
    intros name _. unfold is_image_file.
    rewrite toLowerCase_toUpperCase. reflexivity.
Qed.

End Extensions.

(** ** What a turn of the loop can do *)

Section LayerOutcomes.

Context (w : World) (cfg : Config).

(** X5. A component that [getRandomComponent] returns is one of the
    listed files of the folder [species/category], has an image extension,
    carries the public URL of that file and the category and type of the
    layer, and cost one listing and one draw. *)
Theorem selected_component_is_listed_image layerInfo species s componentInfo s1 :
  getRandomComponent w layerInfo species s
  = (Return (Some componentInfo), s1) ->
  exists data name,
    storage_list w (clock s) "space-babiez"
      (species +:+ "/" +:+ category layerInfo) = ListData (Some data)
    /\ In name data
    /\ is_image_file name = true
    /\ ci_name componentInfo = name
    /\ ci_url componentInfo
       = SUPABASE_URL w +:+ "/storage/v1/object/public/space-babiez/"
         +:+ (species +:+ "/" +:+ category layerInfo) +:+ "/" +:+ name
    /\ ci_category componentInfo = category layerInfo
    /\ ci_type componentInfo = type layerInfo
    /\ s1 = with_clock (S (S (clock s))) s.
Proof.
  unfold getRandomComponent. unfold bind at 1, tick at 1.
  destruct (storage_list w (clock s) "space-babiez" _) as [e|[data|]].
  - discriminate.
  - destruct data as [|name0 data'].
    + destruct (optional layerInfo); discriminate.
    + destruct (List.map _ _) as [|f files'] eqn:Hfiles.
      * destruct (optional layerInfo); discriminate.
      * intros Hrun.
        apply bind_inv_return in Hrun as (sel & s2 & Hsel & Hret).
        destruct (select_file_frame w (type layerInfo) (f :: files')
                    (with_clock (S (clock s)) s)) as (o & Hframe).
        rewrite Hsel in Hframe. inversion Hframe; subst o s2.
        inversion Hret; subst. cbn [ci_url ci_name ci_category ci_type].
        apply select_file_member in Hsel. rewrite <- Hfiles in Hsel.
        apply in_map_iff in Hsel as (name & <- & Hname).
        apply filter_In in Hname as [Hin Himage].
        exists (name0 :: data'), name. cbn [describe_file file_url file_name].
        repeat split; auto.
  - destruct (optional layerInfo); discriminate.
Qed.

(** A turn of the loop whose selection throws or yields nothing returns
    with nothing but the clock changed. *)
Lemma process_layer_passes id species layerIndex layerInfo s o s1 :
  this_getRandomComponent w cfg layerInfo species s = (o, s1) ->
  (o = Return None \/ exists e, o = Throw e) ->
  exists s',
    process_layer w cfg id species layerIndex layerInfo s = (Return tt, s')
    /\ attributes s' = attributes s
    /\ drawnCategories s' = drawnCategories s
    /\ backgroundDrawn s' = backgroundDrawn s
    /\ ctx s' = ctx s
    /\ fs s' = fs s.
Proof.
  intros Hsel Ho.
  destruct (this_getRandomComponent_frame w cfg layerInfo species s)
    as (o' & n & Hframe).
  rewrite Hsel in Hframe. inversion Hframe; subst o' s1. clear Hframe.
  unfold process_layer. unfold bind at 1, get at 1.
  destruct (bool_decide (category layerInfo ∈ drawnCategories s)).
  { exists s. split; [reflexivity|]. auto 6. }
  unfold try_catch.
  destruct Ho as [-> | (e & ->)].
  - rewrite (bind_return _ _ _ _ _ Hsel).
    eexists. split; [reflexivity|]. simpl_state. auto 6.
  - rewrite (bind_throw _ _ _ _ _ Hsel).
    eexists. split; [reflexivity|]. simpl_state. auto 6.
Qed.

(** X6. An optional layer whose folder lists no image file: the selector
    returns [null] after the one listing, and the turn of the loop changes
    neither the traits, nor the drawn categories, nor the canvas, nor the
    files. *)
Theorem optional_layer_without_candidates_is_skipped
    id species layerIndex layerInfo s data :
  optional layerInfo = true ->
  storage_configured cfg = true ->
  storage_list w (clock s) "space-babiez"
    (species +:+ "/" +:+ category layerInfo) = ListData data ->
  List.filter is_image_file (default [] data) = [] ->
  getRandomComponent w layerInfo species s
  = (Return None, with_clock (S (clock s)) s)
  /\ exists s',
       process_layer w cfg id species layerIndex layerInfo s = (Return tt, s')
       /\ attributes s' = attributes s
       /\ drawnCategories s' = drawnCategories s
       /\ backgroundDrawn s' = backgroundDrawn s
       /\ ctx s' = ctx s
       /\ fs s' = fs s.
Proof.
  intros Hopt Hstorage Hlist Hnone.
  assert (Hsel : getRandomComponent w layerInfo species s
                 = (Return None, with_clock (S (clock s)) s)).
  { unfold getRandomComponent. unfold bind at 1, tick at 1.
    rewrite Hlist, Hopt.
    destruct data as [[|name data']|]; try reflexivity.
    change (List.filter is_image_file (name :: data') = []) in Hnone.
    rewrite Hnone. reflexivity. }
  split; [exact Hsel|].
  apply (process_layer_passes id species layerIndex layerInfo s
           (Return None) (with_clock (S (clock s)) s)).
  - unfold this_getRandomComponent. rewrite Hstorage. exact Hsel.
  - left. reflexivity.
Qed.

(** X7. When listing the folder fails, the selector throws the storage
    error, also for an optional layer; the loop of [generate2DImage] absorbs
    it and the turn changes nothing but the clock. *)
Theorem listing_error_is_thrown_then_absorbed
    id species layerIndex layerInfo s message :
  storage_configured cfg = true ->
  storage_list w (clock s) "space-babiez"
    (species +:+ "/" +:+ category layerInfo) = ListError message ->
  getRandomComponent w layerInfo species s
  = (Throw (StorageError message), with_clock (S (clock s)) s)
  /\ exists s',
       process_layer w cfg id species layerIndex layerInfo s = (Return tt, s')
       /\ attributes s' = attributes s
       /\ drawnCategories s' = drawnCategories s
       /\ backgroundDrawn s' = backgroundDrawn s
       /\ ctx s' = ctx s
       /\ fs s' = fs s.
Proof.
  intros Hstorage Hlist.
  assert (Hsel : getRandomComponent w layerInfo species s
                 = (Throw (StorageError message),
                    with_clock (S (clock s)) s)).
  { unfold getRandomComponent. unfold bind at 1, tick at 1.
    rewrite Hlist. reflexivity. }
  split; [exact Hsel|].
  apply (process_layer_passes id species layerIndex layerInfo s
           (Throw (StorageError message)) (with_clock (S (clock s)) s)).
  - unfold this_getRandomComponent. rewrite Hstorage. exact Hsel.
  - right. eexists. reflexivity.
Qed.

(** [drawLayer] never throws; it asks at most two questions, leaves the
    files and the locals alone, and leaves at most one mark on the canvas. *)
Lemma drawLayer_outcome imageInfo id s :
  exists layerDrawn s',
    drawLayer w cfg imageInfo id s = (Return layerDrawn, s')
    /\ attributes s' = attributes s
    /\ drawnCategories s' = drawnCategories s
    /\ backgroundDrawn s' = backgroundDrawn s
    /\ fs s' = fs s
    /\ (clock s <= clock s' <= clock s + 2)%nat
    /\ (layerDrawn = false -> drawn (ctx s') = drawn (ctx s))
    /\ (layerDrawn = true ->
        (exists image,
           drawn (ctx s')
           = DrawImage image
               (placement (width cfg) (height cfg) (ci_type imageInfo)
                  (ci_category imageInfo) image)
             :: drawn (ctx s))
        \/ (ci_type imageInfo = "background"
            /\ drawn (ctx s')
               = FillRect "#FFFFFF" 0 0 (width cfg) (height cfg)
                 :: drawn (ctx s))).
Proof.
  unfold drawLayer.
  destruct (String.eqb (ci_url imageInfo) EmptyString).
  { exists false, s. split; [reflexivity|].
    repeat split; auto; try lia; try discriminate. }
  unfold_run. simpl_state.
  destruct (loadImage w (clock s) (ci_url imageInfo)) as [image|].
  - simpl_state.
    destruct (drawImage_throws w _ image _).
    + destruct (String.eqb (ci_type imageInfo) "background") eqn:Hbg;
        eexists _, _; (split; [reflexivity|]); simpl_state;
        repeat split; auto; try lia; try discriminate.
      intros _. right. apply String.eqb_eq in Hbg. auto.
    + eexists _, _. split; [reflexivity|]. simpl_state.
      repeat split; auto; try lia; try discriminate.
      intros _. left. exists image. reflexivity.
  - destruct (String.eqb (ci_type imageInfo) "background") eqn:Hbg;
      eexists _, _; (split; [reflexivity|]); simpl_state;
      repeat split; auto; try lia; try discriminate.
    intros _. right. apply String.eqb_eq in Hbg. auto.
Qed.

Lemma cons_neq {A} (x : A) (l : list A) : x :: l <> l.
Proof. intros Heq. apply (f_equal length) in Heq. cbn in Heq. lia. Qed.

(** X8. [drawLayer] never throws, asks at most two questions and leaves
    the files and the locals alone.  It reports [true] exactly when it left
    one mark on the canvas, and [false] exactly when the canvas is as
    before; the mark is the image in its place, or the white fill that
    stands in for a background. *)
Theorem drawLayer_reports_its_mark imageInfo id s :
  exists layerDrawn s',
    drawLayer w cfg imageInfo id s = (Return layerDrawn, s')
    /\ attributes s' = attributes s
    /\ drawnCategories s' = drawnCategories s
    /\ backgroundDrawn s' = backgroundDrawn s
    /\ fs s' = fs s
    /\ (clock s <= clock s' <= clock s + 2)%nat
    /\ (layerDrawn = true
        <-> exists op, drawn (ctx s') = op :: drawn (ctx s))
    /\ (layerDrawn = false <-> drawn (ctx s') = drawn (ctx s))
    /\ (forall op,
          drawn (ctx s') = op :: drawn (ctx s) ->
          (exists image,
             op = DrawImage image
                    (placement (width cfg) (height cfg) (ci_type imageInfo)
                       (ci_category imageInfo) image))
          \/ (ci_type imageInfo = "background"
              /\ op = FillRect "#FFFFFF" 0 0 (width cfg) (height cfg))).
Proof.
  destruct (drawLayer_outcome imageInfo id s)
    as (layerDrawn & s' & Hrun & Ha & Hd & Hb & Hfs & Hclock & Hno & Hyes).
  exists layerDrawn, s'. split; [exact Hrun|].
  do 5 (split; [assumption|]).
  destruct layerDrawn.
  - assert (Hop : exists op, drawn (ctx s') = op :: drawn (ctx s)).
    { destruct (Hyes eq_refl) as [(image & Hm) | (_ & Hm)]; eauto. }
    split; [split; auto|]. split.
    + split; [discriminate|]. intros Hsame. destruct Hop as (op & Hop).
      rewrite Hsame in Hop. symmetry in Hop. destruct (cons_neq _ _ Hop).
    + intros op Heq.
      destruct (Hyes eq_refl) as [(image & Hm) | (Hbg & Hm)];
        rewrite Hm in Heq; inversion Heq; subst op; eauto.
  - specialize (Hno eq_refl). split.
    + split; [discriminate|]. intros (op & Hop). rewrite Hno in Hop.
      symmetry in Hop. destruct (cons_neq _ _ Hop).
    + split; [split; auto|]. intros op Hop. rewrite Hno in Hop.
      symmetry in Hop. destruct (cons_neq _ _ Hop).
Qed.

(** X9. An image that loads and cannot be drawn: [drawLayer] reports
    [false] and leaves the canvas alone, unless the layer is a background,
    for which it fills the canvas white and reports [true]. *)
Theorem drawLayer_draw_failure imageInfo id s image :
  ci_url imageInfo <> EmptyString ->
  loadImage w (clock s) (ci_url imageInfo) = Some image ->
  drawImage_throws w (S (clock s)) image
    (placement (width cfg) (height cfg) (ci_type imageInfo)
       (ci_category imageInfo) image) = true ->
  exists s',
    drawLayer w cfg imageInfo id s
    = (Return (String.eqb (ci_type imageInfo) "background"), s')
    /\ (ci_type imageInfo <> "background" ->
        drawn (ctx s') = drawn (ctx s) /\ fillStyle (ctx s') = fillStyle (ctx s))
    /\ (ci_type imageInfo = "background" ->
        drawn (ctx s')
        = FillRect "#FFFFFF" 0 0 (width cfg) (height cfg) :: drawn (ctx s)
        /\ fillStyle (ctx s') = "#FFFFFF").
Proof.
  intros Hurl Hload Hthrows. unfold drawLayer.
  rewrite (proj2 (String.eqb_neq _ _) Hurl).
  unfold_run. simpl_state. rewrite Hload. simpl_state. rewrite Hthrows.
  destruct (String.eqb (ci_type imageInfo) "background") eqn:Hbg.
  - apply String.eqb_eq in Hbg. eexists. split; [reflexivity|].
    simpl_state. split; [intros Hne; contradiction | auto].
  - apply String.eqb_neq in Hbg. eexists. split; [reflexivity|].
    simpl_state. split; [auto | intros Heq; contradiction].
Qed.

End LayerOutcomes.

Lemma selected_component_is_listed_image_witness :
  exists data name,
    storage_list one_png_world 0 "space-babiez" "indigo/background"
    = ListData (Some data)
    /\ In name data
    /\ is_image_file name = true.
Proof.
  destruct (getRandomComponent one_png_world
              {| category := "background"; type := "background";
                 optional := false |} "indigo" (boot ∅))
    as [[[componentInfo|]|e] s1] eqn:Hrun.
  - destruct (selected_component_is_listed_image one_png_world _ _ _ _ _ Hrun)
      as (data & name & Hlist & Hin & Himage & _).
    exists data, name. auto.
  - vm_compute in Hrun. discriminate.
  - vm_compute in Hrun. discriminate.
Defined.

Lemma optional_layer_without_candidates_is_skipped_witness :
  getRandomComponent empty_bucket_world
    {| category := "binky"; type := "accessory"; optional := true |}
    "indigo" (boot ∅)
  = (Return None, with_clock 1 (boot ∅))
  /\ exists s',
       process_layer empty_bucket_world (script false false) 1 "indigo" 6
         {| category := "binky"; type := "accessory"; optional := true |}
         (boot ∅) = (Return tt, s')
       /\ attributes s' = attributes (boot ∅)
       /\ drawnCategories s' = drawnCategories (boot ∅)
       /\ backgroundDrawn s' = backgroundDrawn (boot ∅)
       /\ ctx s' = ctx (boot ∅)
       /\ fs s' = fs (boot ∅).
Proof.
  apply (optional_layer_without_candidates_is_skipped empty_bucket_world
           (script false false) 1 "indigo" 6
           {| category := "binky"; type := "accessory"; optional := true |}
           (boot ∅) (Some []));
    reflexivity.
Defined.

Lemma listing_error_is_thrown_then_absorbed_witness :
  getRandomComponent unlisted_world
    {| category := "binky"; type := "accessory"; optional := true |}
    "indigo" (boot ∅)
  = (Throw (StorageError "Bucket not found"), with_clock 1 (boot ∅))
  /\ exists s',
       process_layer unlisted_world (script false false) 1 "indigo" 6
         {| category := "binky"; type := "accessory"; optional := true |}
         (boot ∅) = (Return tt, s')
       /\ attributes s' = attributes (boot ∅)
       /\ drawnCategories s' = drawnCategories (boot ∅)
       /\ backgroundDrawn s' = backgroundDrawn (boot ∅)
       /\ ctx s' = ctx (boot ∅)
       /\ fs s' = fs (boot ∅).
Proof.
  apply (listing_error_is_thrown_then_absorbed unlisted_world
           (script false false) 1 "indigo" 6
           {| category := "binky"; type := "accessory"; optional := true |}
           (boot ∅) "Bucket not found");
    reflexivity.
Defined.

Lemma drawLayer_draw_failure_witness :
  exists s',
    drawLayer undrawable_world (script false false)
      {| ci_url := "https://sb.example/hat.png"; ci_name := "hat.png";
         ci_category := "hats"; ci_type := "accessory" |} 1 (boot ∅)
    = (Return false, s')
    /\ drawn (ctx s') = drawn (ctx (boot ∅)).
Proof.
  destruct (drawLayer_draw_failure undrawable_world (script false false)
              {| ci_url := "https://sb.example/hat.png"; ci_name := "hat.png";
                 ci_category := "hats"; ci_type := "accessory" |} 1 (boot ∅)
              {| image_src := "https://sb.example/hat.png";
                 image_width := 512; image_height := 512 |})
    as (s' & Hrun & Hother & _).
  - discriminate.
  - reflexivity.
  - reflexivity.
  - exists s'. split; [exact Hrun|]. apply Hother. discriminate.
Defined.

(** ** Traits and marks of a composite *)

Section Composite.

Context (w : World) (cfg : Config).

(** One turn of the loop either changes neither the trait list nor the
    canvas, or appends the trait of its layer and leaves one mark. *)
Lemma process_layer_trait_and_mark id species layerIndex layerInfo s :
  exists s',
    process_layer w cfg id species layerIndex layerInfo s = (Return tt, s')
    /\ ((attributes s' = attributes s
         /\ drawn (ctx s') = drawn (ctx s))
        \/ (exists v op,
              attributes s'
              = (attributes s
                 ++ [{| trait_type := category layerInfo; value := v |}])%list
              /\ drawn (ctx s') = op :: drawn (ctx s))).
Proof.
  unfold process_layer. unfold bind at 1, get at 1.
  destruct (bool_decide (category layerInfo ∈ drawnCategories s)).
  { exists s. split; [reflexivity|]. left. auto. }
  destruct (this_getRandomComponent_frame w cfg layerInfo species s)
    as (o & n & Hsel).
  unfold try_catch.
  destruct o as [[componentInfo|]|e].
  - rewrite (bind_return _ _ _ _ _ Hsel). cbv beta iota.
    destruct (drawLayer_outcome w cfg componentInfo id
                (with_clock n s))
      as (layerDrawn & s2 & Hdraw & Hattr & _ & _ & _ & _ & Hnomark & Hmark).
    simpl_state in Hattr. simpl_state in Hnomark. simpl_state in Hmark.
    rewrite (bind_return _ _ _ _ _ Hdraw).
    set (s3 := if String.eqb (category layerInfo) "background"
               then with_backgroundDrawn layerDrawn s2 else s2).
    assert (Hflag :
      (if String.eqb (category layerInfo) "background"
       then modify (with_backgroundDrawn layerDrawn) else ret tt) s2
      = (Return tt, s3)).
    { subst s3. destruct (String.eqb (category layerInfo) "background");
        reflexivity. }
    assert (Hattr3 : attributes s3 = attributes s)
      by (subst s3; destruct (String.eqb _ _); exact Hattr).
    assert (Hctx3 : ctx s3 = ctx s2)
      by (subst s3; destruct (String.eqb _ _); reflexivity).
    rewrite (bind_return _ _ _ _ _ Hflag).
    destruct layerDrawn.
    + assert (Hop : exists op, drawn (ctx s2) = op :: drawn (ctx s)).
      { destruct (Hmark eq_refl) as [(image & Hm) | (_ & Hm)]; eauto. }
      destruct Hop as (op & Hop).
      erewrite bind_return by reflexivity.
      erewrite bind_return by reflexivity.
      destruct (SAVE_INTERMEDIATE_LAYERS cfg).
      * match goal with
        | |- context [ bind toBuffer ?k ?st ] =>
            destruct (save_canvas_frame w
              (outputFolder cfg +:+ "layer_" +:+ pretty (layerIndex + 1)%nat
               +:+ "_" +:+ category layerInfo +:+ "_" +:+ pretty id
               +:+ ".png") st) as (o & s' & Hsave & Ha & _ & Hx)
        end.
        rewrite Hsave. simpl_state in Ha. simpl_state in Hx.
        exists s'. split; [destruct o as [[]|]; reflexivity|].
        right. eexists _, op. split.
        -- rewrite Ha, Hattr3. reflexivity.
        -- rewrite Hx, Hctx3. exact Hop.
      * eexists. split; [reflexivity|]. right. eexists _, op.
        simpl_state. rewrite Hattr3, Hctx3. split; [reflexivity | exact Hop].
    + eexists. split; [reflexivity|]. left.
      rewrite Hattr3, Hctx3. split; [reflexivity | apply Hnomark; reflexivity].
  - rewrite (bind_return _ _ _ _ _ Hsel).
    eexists. split; [reflexivity|]. left. simpl_state. auto.
  - rewrite (bind_throw _ _ _ _ _ Hsel).
    eexists. split; [reflexivity|]. left. simpl_state. auto.
Qed.

(** The loop appends traits in the order of the layers, one mark on the
    canvas for each. *)
Lemma process_layers_traits_and_marks id species layers :
  forall layerIndex s,
    exists s' added marks,
      process_layers w cfg id species layerIndex layers s = (Return tt, s')
      /\ attributes s' = (attributes s ++ added)%list
      /\ drawn (ctx s') = (marks ++ drawn (ctx s))%list
      /\ length added = length marks
      /\ sublist (List.map trait_type added) (List.map category layers).
Proof.
  induction layers as [|layerInfo rest IH]; intros layerIndex s.
  - exists s, [], []. split; [reflexivity|].
    rewrite app_nil_r. repeat split. constructor.
  - destruct (process_layer_trait_and_mark id species layerIndex layerInfo s)
      as (s1 & Hrun1 & Hstep).
    destruct (IH (S layerIndex) s1)
      as (s2 & added & marks & Hrun2 & Hattr & Hmarks & Hlen & Hsub).
    cbn [process_layers]. rewrite (bind_return _ _ _ _ _ Hrun1).
    destruct Hstep as [[Ha Hd] | (v & op & Ha & Hd)].
    + exists s2, added, marks. split; [exact Hrun2|].
      rewrite Hattr, Hmarks, Ha, Hd. repeat split; [exact Hlen|].
      cbn [List.map]. apply sublist_cons. exact Hsub.
    + exists s2,
        ({| trait_type := category layerInfo; value := v |} :: added),
        (marks ++ [op])%list.
      split; [exact Hrun2|].
      rewrite Hattr, Hmarks, Ha, Hd. rewrite <- !app_assoc.
      repeat split.
      * rewrite length_app. cbn [length]. lia.
      * cbn [List.map trait_type]. apply sublist_skip. exact Hsub.
Qed.

(** What a composite that returns has done. *)
Lemma composite_returns id species s g s' :
  composite w cfg id species s = (Return g, s') ->
  exists added marks,
    gen_attributes g
    = {| trait_type := "species"; value := species |} :: added
    /\ gen_species g = species
    /\ sublist (List.map trait_type added)
         (List.map category (cfg_layerConfig cfg))
    /\ length added = length marks
    /\ drawn (ctx s')
       = (marks
          ++ FillRect "#FFFFFF" 0 0 (width cfg) (height cfg)
             :: ClearRect 0 0 (width cfg) (height cfg)
             :: drawn (ctx s))%list
    /\ (nftPath g
        = outputFolder cfg +:+ species +:+ "_nft_" +:+ pretty id +:+ ".png"
        \/ nftPath g
           = outputFolder cfg +:+ "fallback_" +:+ species +:+ "_"
             +:+ pretty id +:+ ".png")
    /\ fs s' !! nftPath g = Some (Png (drawn (ctx s'))).
Proof.
  unfold composite.
  do 7 (erewrite bind_return by reflexivity).
  match goal with
  | |- context [ bind (process_layers _ _ _ _ _ _) _ ?st ] =>
      destruct (process_layers_traits_and_marks id species
                  (cfg_layerConfig cfg) 0%nat st)
        as (s1 & added & marks & Hloop & Hattr & Hmarks & Hlen & Hsub)
  end.
  simpl_state in Hattr. simpl_state in Hmarks.
  rewrite (bind_return _ _ _ _ _ Hloop).
  unfold_run. simpl_state.
  repeat match goal with
         | |- context [ fs_fault w ?t ?p ] => destruct (fs_fault w t p)
         end;
    intros Hrun; inversion Hrun; subst; clear Hrun;
    exists added, marks; cbn [gen_attributes gen_species nftPath];
    simpl_state; rewrite Hattr, Hmarks;
    (repeat split; auto; try apply lookup_insert_eq).
Qed.

End Composite.

(** ** The pixelation step *)

Section PixelationOutcomes.

Context (w : World) (cfg : Config).

Lemma pixelateImage_cases inputPath outputPath s :
  exists result s',
    pixelateImage w cfg inputPath outputPath s = (Return result, s')
    /\ (result = None \/ result = Some outputPath)
    /\ ctx s' = ctx s
    /\ attributes s' = attributes s
    /\ (forall p, p <> outputPath -> fs s' !! p = fs s !! p)
    /\ (fs s !! inputPath = None -> result = None /\ s' = s)
    /\ (result = None -> fs s' = fs s)
    /\ (forall c,
          fs s !! inputPath = Some c -> result = Some outputPath ->
          fs s' !! outputPath = Some c
          \/ (SKIP_PIXELATION cfg = false
              /\ fs s' !! outputPath = Some (PixelatedPng 8 c))
          \/ (SKIP_PIXELATION cfg = false
              /\ jimp w (clock s) = JimpNoFile /\ fs s' = fs s)).
Proof.
  unfold pixelateImage. unfold_run.
  destruct (fs s !! inputPath) as [c|] eqn:Hin.
  2:{ rewrite bool_decide_eq_false_2 by (intros [? ?]; discriminate).
      cbn [negb]. exists None, s. split; [reflexivity|].
      repeat split; auto. intros c Hc. discriminate. }
  rewrite bool_decide_eq_true_2 by eauto. cbn [negb].
  destruct (SKIP_PIXELATION cfg) eqn:Hskip.
  - simpl_state. rewrite Hin.
    destruct (fs_fault w (clock s) outputPath); simpl_state.
    + exists None. eexists. split; [reflexivity|]. simpl_state.
      repeat split; auto; try discriminate.
    + exists (Some outputPath). eexists. split; [reflexivity|]. simpl_state.
      repeat split; auto; try discriminate.
      * intros p Hp. apply lookup_insert_ne. congruence.
      * intros c' Hc' _. inversion Hc'; subst. left. apply lookup_insert_eq.
  - simpl_state. rewrite Hin. simpl_state.
    destruct (jimp w (clock s)) eqn:Hjimp; simpl_state.
    + rewrite Hin.
      destruct (fs_fault w (S (clock s)) outputPath); simpl_state.
      * exists None. eexists. split; [reflexivity|]. simpl_state.
        repeat split; auto; try discriminate.
      * exists (Some outputPath). eexists. split; [reflexivity|].
        simpl_state. repeat split; auto; try discriminate.
        -- intros p Hp. apply lookup_insert_ne. congruence.
        -- intros c' Hc' _. inversion Hc'; subst. left.
           apply lookup_insert_eq.
    + exists (Some outputPath). eexists. split; [reflexivity|].
      simpl_state. repeat split; auto; try discriminate.
    + exists (Some outputPath). eexists. split; [reflexivity|].
      simpl_state. repeat split; auto; try discriminate.
      * intros p Hp. apply lookup_insert_ne. congruence.
      * intros c' Hc' _. inversion Hc'; subst. right. left.
        split; [reflexivity | apply lookup_insert_eq].
Qed.


Lemma copy_then_return src dest c s :
  fs s !! src = Some c ->
  (copyFileSync w src dest ;; ret dest) s
  = (Return dest,
     with_fs (<[dest := c]> (fs s)) (with_clock (S (clock s)) s))
  \/ (copyFileSync w src dest ;; ret dest) s
     = (Throw (SystemError "copyfile" dest), with_clock (S (clock s)) s).
Proof.
  intros Hsrc. destruct (fs_fault w (clock s) dest) eqn:Hfault.
  - right. apply bind_throw. apply (copyFileSync_faults w _ _ c); assumption.
  - left. erewrite bind_return;
      [reflexivity | apply (copyFileSync_copies w _ _ c); assumption].
Qed.

(** The two copies [generateNFT] falls back on, one after the other. *)
Lemma copy_twice src dest c s :
  fs s !! src = Some c ->
  exists o s',
    try_catch (copyFileSync w src dest ;; ret dest)
      (fun _ => copyFileSync w src dest ;; ret dest) s = (o, s')
    /\ ctx s' = ctx s
    /\ (o = Throw (SystemError "copyfile" dest) /\ fs s' = fs s
        \/ o = Return dest /\ fs s' = <[dest := c]> (fs s)).
Proof.
  intros Hsrc. unfold try_catch.
  destruct (copy_then_return src dest c s Hsrc) as [Hok | Hfail].
  - rewrite Hok. eexists _, _. split; [reflexivity|]. simpl_state. auto.
  - rewrite Hfail.
    destruct (copy_then_return src dest c (with_clock (S (clock s)) s) Hsrc)
      as [Hok2 | Hfail2].
    + rewrite Hok2. eexists _, _. split; [reflexivity|]. simpl_state. auto.
    + rewrite Hfail2. eexists _, _. split; [reflexivity|]. simpl_state. auto.
Qed.

Lemma pixelate_or_copy_cases nftPath pixelatedPath c s :
  fs s !! nftPath = Some c ->
  exists o s',
    pixelate_or_copy w cfg nftPath pixelatedPath s = (o, s')
    /\ ctx s' = ctx s
    /\ (forall p, p <> pixelatedPath -> fs s' !! p = fs s !! p)
    /\ (o = Throw (SystemError "copyfile" pixelatedPath) /\ fs s' = fs s
        \/ o = Return pixelatedPath
           /\ (fs s' !! pixelatedPath = Some c
               \/ fs s' !! pixelatedPath = Some (PixelatedPng 8 c)
               \/ (jimp w (clock s) = JimpNoFile
                   /\ is_Some (fs s !! pixelatedPath)
                   /\ fs s' = fs s))).
Proof.
  intros Hsrc. unfold pixelate_or_copy.
  destruct (pixelateImage_cases nftPath pixelatedPath s)
    as (result & s1 & Hpix & Hresult & Hctx & _ & Hother & _ & Hnone & Hsome).
  assert (Hfallback : forall st,
    fs st = fs s -> ctx st = ctx s ->
    exists o s',
      try_catch (copyFileSync w nftPath pixelatedPath ;; ret pixelatedPath)
        (fun _ => copyFileSync w nftPath pixelatedPath ;; ret pixelatedPath)
        st = (o, s')
      /\ ctx s' = ctx s
      /\ (forall p, p <> pixelatedPath -> fs s' !! p = fs s !! p)
      /\ (o = Throw (SystemError "copyfile" pixelatedPath) /\ fs s' = fs s
          \/ o = Return pixelatedPath
             /\ (fs s' !! pixelatedPath = Some c
                 \/ fs s' !! pixelatedPath = Some (PixelatedPng 8 c)
                 \/ (jimp w (clock s) = JimpNoFile
                     /\ is_Some (fs s !! pixelatedPath)
                     /\ fs s' = fs s)))).
  { intros st Hfs Hcx.
    destruct (copy_twice nftPath pixelatedPath c st) as (o & s' & Hrun & Hx & Hcases).
    { rewrite Hfs. exact Hsrc. }
    exists o, s'. split; [exact Hrun|]. split; [congruence|].
    destruct Hcases as [[-> Hfs'] | [-> Hfs']]; rewrite Hfs', Hfs.
    - split; [reflexivity|]. left. auto.
    - split; [intros p Hp; apply lookup_insert_ne; congruence|].
      right. split; [reflexivity|]. left. apply lookup_insert_eq. }
  unfold try_catch in *.
  rewrite (bind_return _ _ _ _ _ Hpix).
  destruct Hresult as [-> | ->].
  - erewrite bind_return by reflexivity.
    apply Hfallback; [apply Hnone; reflexivity | exact Hctx].
  - destruct (fs s1 !! pixelatedPath) as [c1|] eqn:Hout.
    + erewrite (bind_return (bind (existsSync pixelatedPath) _)).
      2:{ erewrite bind_return; [reflexivity|].
          apply (existsSync_present _ c1). exact Hout. }
      cbn [negb default]. eexists _, _. split; [reflexivity|].
      split; [exact Hctx|]. split; [exact Hother|].
      destruct (Hsome c Hsrc eq_refl) as [Hc | [[_ Hc] | (_ & Hj & Hfs)]].
      * right. split; [reflexivity|]. left. rewrite Hout. exact Hc.
      * right. split; [reflexivity|]. right. left. rewrite Hout. exact Hc.
      * right. split; [reflexivity|]. right. right.
        split; [exact Hj|]. split; [|exact Hfs].
        rewrite <- Hfs. eauto.
    + erewrite (bind_return (bind (existsSync pixelatedPath) _)).
      2:{ erewrite bind_return; [reflexivity|].
          apply existsSync_absent. exact Hout. }
      cbn [negb].
      destruct (Hsome c Hsrc eq_refl) as [Hc | [[_ Hc] | (_ & Hj & Hfs)]];
        try congruence.
      apply Hfallback; [exact Hfs | exact Hctx].
Qed.

(** X13. [pixelateImage] never throws.  It touches no file but the output
    path; [null] means no file was changed; a path is returned only for an
    input that exists, and is the output path; and a returned path has no
    file behind it only when Jimp resolved without writing one. *)
Theorem pixelateImage_never_throws inputPath outputPath s :
  exists result s',
    pixelateImage w cfg inputPath outputPath s = (Return result, s')
    /\ ctx s' = ctx s
    /\ (forall p, p <> outputPath -> fs s' !! p = fs s !! p)
    /\ (result = None -> fs s' = fs s)
    /\ (forall p,
          result = Some p ->
          p = outputPath /\ is_Some (fs s !! inputPath))
    /\ (forall p,
          result = Some p -> fs s' !! p = None ->
          SKIP_PIXELATION cfg = false /\ jimp w (clock s) = JimpNoFile).
Proof.
  destruct (pixelateImage_cases inputPath outputPath s)
    as (result & s' & Hrun & Hresult & Hctx & _ & Hother & Hmissing & Hnone
        & Hsome).
  exists result, s'. split; [exact Hrun|]. split; [exact Hctx|].
  split; [exact Hother|]. split; [exact Hnone|].
  assert (Hinput : forall p, result = Some p ->
            p = outputPath /\ is_Some (fs s !! inputPath)).
  { intros p Hp. split.
    - destruct Hresult as [Hr | Hr]; rewrite Hr in Hp;
        [discriminate | inversion Hp; reflexivity].
    - destruct (fs s !! inputPath) as [c|] eqn:Hin; [eauto|].
      destruct (Hmissing eq_refl) as [Hr _]. rewrite Hr in Hp.
      discriminate. }
  split; [exact Hinput|].
  intros p Hp Hgone. destruct (Hinput p Hp) as [-> [c Hc]].
  destruct (Hsome c Hc Hp) as [Hfile | [[_ Hfile] | (Hskip & Hjimp & _)]];
    [congruence | congruence | auto].
Qed.

(** X14. With the primary artifact on disk, the pixelation step of
    [generateNFT] either returns the pixelated path with a file behind it,
    having touched no other file (a fresh file is the transform or a copy
    of the primary artifact), or throws the failed copy with the files
    unchanged. *)
Theorem pixelated_artifact_after_fallbacks nftPath pixelatedPath c s :
  fs s !! nftPath = Some c ->
  (forall p s',
      pixelate_or_copy w cfg nftPath pixelatedPath s = (Return p, s') ->
      p = pixelatedPath
      /\ is_Some (fs s' !! pixelatedPath)
      /\ ctx s' = ctx s
      /\ (forall q, q <> pixelatedPath -> fs s' !! q = fs s !! q)
      /\ (fs s !! pixelatedPath = None ->
          fs s' !! pixelatedPath = Some c
          \/ fs s' !! pixelatedPath = Some (PixelatedPng 8 c)))
  /\ (forall e s',
        pixelate_or_copy w cfg nftPath pixelatedPath s = (Throw e, s') ->
        e = SystemError "copyfile" pixelatedPath /\ fs s' = fs s).
Proof.
  intros Hsrc.
  destruct (pixelate_or_copy_cases nftPath pixelatedPath c s Hsrc)
    as (o & s1 & Hrun & Hctx & Hother & Hcases).
  split.
  - intros p s' Heq. rewrite Hrun in Heq.
    destruct Hcases as [[-> _] | [-> Hfile]]; inversion Heq; subst p s1.
    split; [reflexivity|]. split.
    { destruct Hfile as [Hc | [Hc | (_ & Hold & Hfs)]];
        [eauto | eauto | rewrite Hfs; exact Hold]. }
    split; [exact Hctx|]. split; [exact Hother|].
    intros Hfresh.
    destruct Hfile as [Hc | [Hc | (_ & [c' Hold] & _)]];
      [auto | auto | congruence].
  - intros e s' Heq. rewrite Hrun in Heq.
    destruct Hcases as [[-> Hfs] | [-> _]]; inversion Heq; subst e s1.
    auto.
Qed.

End PixelationOutcomes.

Lemma pixelated_artifact_after_fallbacks_witness :
  let s := boot {[ "./output/a.png" := Png [] ]} in
  (forall p s',
      pixelate_or_copy jimp_throws_world (script false false)
        "./output/a.png" "./output/a_pixelated.png" s = (Return p, s') ->
      p = "./output/a_pixelated.png"
      /\ is_Some (fs s' !! "./output/a_pixelated.png")
      /\ ctx s' = ctx s
      /\ (forall q, q <> "./output/a_pixelated.png" ->
                    fs s' !! q = fs s !! q)
      /\ (fs s !! "./output/a_pixelated.png" = None ->
          fs s' !! "./output/a_pixelated.png" = Some (Png [])
          \/ fs s' !! "./output/a_pixelated.png"
             = Some (PixelatedPng 8 (Png []))))
  /\ (forall e s',
        pixelate_or_copy jimp_throws_world (script false false)
          "./output/a.png" "./output/a_pixelated.png" s = (Throw e, s') ->
        e = SystemError "copyfile" "./output/a_pixelated.png"
        /\ fs s' = fs s).
Proof.
  apply (pixelated_artifact_after_fallbacks jimp_throws_world
           (script false false) "./output/a.png" "./output/a_pixelated.png"
           (Png []) (boot {[ "./output/a.png" := Png [] ]})).
  reflexivity.
Defined.

(** ** The artifact of a result *)

Section Artifacts.

Context (w : World) (cfg : Config).

Lemma emergency_outcome id e s :
  exists o s',
    emergency w cfg id e s = (o, s')
    /\ (o = Throw (SystemError "open"
                     (outputFolder cfg +:+ "emergency_" +:+ pretty id
                      +:+ ".png"))
        \/ exists g,
             o = Return g
             /\ nftPath g
                = outputFolder cfg +:+ "emergency_" +:+ pretty id +:+ ".png"
             /\ gen_attributes g = emergency_traits
             /\ gen_species g = "error"
             /\ fs s' !! nftPath g = Some (Png (drawn (ctx s')))).
Proof.
  unfold emergency. unfold_run. simpl_state.
  match goal with
  | |- context [ fs_fault w ?t ?p ] => destruct (fs_fault w t p)
  end; eexists _, _; (split; [reflexivity|]).
  - left. reflexivity.
  - right. eexists. split; [reflexivity|].
    cbn [nftPath gen_attributes gen_species]. simpl_state.
    repeat split. apply lookup_insert_eq.
Qed.

Lemma try_catch_emergency (body : M Generated) id s :
  (forall g s', body s = (Return g, s') ->
     fs s' !! nftPath g = Some (Png (drawn (ctx s')))) ->
  exists o s',
    try_catch body (emergency w cfg id) s = (o, s')
    /\ (o = Throw (SystemError "open"
                     (outputFolder cfg +:+ "emergency_" +:+ pretty id
                      +:+ ".png"))
        \/ exists g,
             o = Return g
             /\ fs s' !! nftPath g = Some (Png (drawn (ctx s')))
             /\ (body s = (Return g, s')
                 \/ (nftPath g
                     = outputFolder cfg +:+ "emergency_" +:+ pretty id
                       +:+ ".png"
                     /\ gen_attributes g = emergency_traits
                     /\ gen_species g = "error"))).
Proof.
  intros Hbody. unfold try_catch.
  destruct (body s) as [[g|e] s1] eqn:Hrun.
  - eexists _, _. split; [reflexivity|]. right. exists g.
    split; [reflexivity|]. split; [apply Hbody; reflexivity|]. left.
    reflexivity.
  - destruct (emergency_outcome id e s1)
      as (o & s' & Hem & [-> | (g & -> & Hp & Ha & Hs & Hf)]);
      rewrite Hem; eexists _, _; (split; [reflexivity|]).
    + left. reflexivity.
    + right. exists g. split; [reflexivity|]. split; [exact Hf|]. right. auto.
Qed.

Lemma script_try_stored id s g s' :
  generate2DImage_try w cfg id s = (Return g, s') ->
  fs s' !! nftPath g = Some (Png (drawn (ctx s'))).
Proof.
  unfold generate2DImage_try. intros Hrun.
  apply bind_inv_return in Hrun as (? & s2 & _ & Hrun).
  apply bind_inv_return in Hrun as (species & s3 & _ & Hrun).
  apply composite_returns in Hrun as (added & marks & Hrest).
  apply Hrest.
Qed.

Lemma class_try_stored id given s g s' :
  Generator.generate2DImage_try w cfg id given s = (Return g, s') ->
  fs s' !! nftPath g = Some (Png (drawn (ctx s'))).
Proof.
  unfold Generator.generate2DImage_try. intros Hrun.
  apply bind_inv_return in Hrun as (? & s2 & _ & Hrun).
  apply bind_inv_return in Hrun as (species & s3 & _ & Hrun).
  apply composite_returns in Hrun as (added & marks & Hrest).
  apply Hrest.
Qed.

(** X12. Whatever [generate2DImage] returns, of the script or of the
    class, the file at [nftPath] exists and holds the canvas; the only error
    it throws is the failed write of the emergency image. *)
Theorem returned_artifact_is_on_disk :
  (forall id s g s',
      generate2DImage w cfg id s = (Return g, s') ->
      fs s' !! nftPath g = Some (Png (drawn (ctx s'))))
  /\ (forall id given s g s',
        Generator.generate2DImage w cfg id given s = (Return g, s') ->
        fs s' !! nftPath g = Some (Png (drawn (ctx s'))))
  /\ (forall id s e s',
        generate2DImage w cfg id s = (Throw e, s') ->
        e = SystemError "open"
              (outputFolder cfg +:+ "emergency_" +:+ pretty id +:+ ".png"))
  /\ (forall id given s e s',
        Generator.generate2DImage w cfg id given s = (Throw e, s') ->
        e = SystemError "open"
              (outputFolder cfg +:+ "emergency_" +:+ pretty id +:+ ".png")).
Proof.
  repeat split.
  - intros id s g s' Hrun.
    destruct (try_catch_emergency (generate2DImage_try w cfg id) id s
                (script_try_stored id s))
      as (o & s2 & Hcatch & [-> | (g' & -> & Hfile & _)]);
      unfold generate2DImage in Hrun; rewrite Hcatch in Hrun;
      inversion Hrun; subst. exact Hfile.
  - intros id given s g s' Hrun.
    destruct (try_catch_emergency
                (Generator.generate2DImage_try w cfg id given) id s
                (class_try_stored id given s))
      as (o & s2 & Hcatch & [-> | (g' & -> & Hfile & _)]);
      unfold Generator.generate2DImage in Hrun; rewrite Hcatch in Hrun;
      inversion Hrun; subst. exact Hfile.
  - intros id s e s' Hrun.
    destruct (try_catch_emergency (generate2DImage_try w cfg id) id s
                (script_try_stored id s))
      as (o & s2 & Hcatch & [-> | (g' & -> & _)]);
      unfold generate2DImage in Hrun; rewrite Hcatch in Hrun;
      inversion Hrun; subst. reflexivity.
  - intros id given s e s' Hrun.
    destruct (try_catch_emergency
                (Generator.generate2DImage_try w cfg id given) id s
                (class_try_stored id given s))
      as (o & s2 & Hcatch & [-> | (g' & -> & _)]);
      unfold Generator.generate2DImage in Hrun; rewrite Hcatch in Hrun;
      inversion Hrun; subst. reflexivity.
Qed.

End Artifacts.

(** ** The order of the traits *)

Section Order.

Context (w : World) (cfg : Config).

(** A [generate2DImage] that returns went through the emergency handler or
    returns what its composite returned. *)
Lemma generate2DImage_shape id s g s' :
  generate2DImage w cfg id s = (Return g, s') ->
  (gen_attributes g = emergency_traits /\ gen_species g = "error")
  \/ exists s0, composite w cfg id (gen_species g) s0 = (Return g, s').
Proof.
  intros Hrun.
  destruct (try_catch_emergency w cfg (generate2DImage_try w cfg id) id s
              (script_try_stored w cfg id s))
    as (o & s2 & Hcatch & [-> | (g' & -> & _ & Hcases)]);
    unfold generate2DImage in Hrun; rewrite Hcatch in Hrun;
    inversion Hrun; subst g' s2.
  destruct Hcases as [Htry | (_ & Ha & Hs)]; [right | left; auto].
  unfold generate2DImage_try in Htry.
  apply bind_inv_return in Htry as (? & s3 & _ & Htry).
  apply bind_inv_return in Htry as (species & s4 & _ & Htry).
  exists s4.
  destruct (composite_returns w cfg id species s4 g s' Htry)
    as (added & marks & _ & -> & _).
  exact Htry.
Qed.

(** X10. The traits of a result of [generate2DImage] are the emergency
    traits, or the species followed by layer traits whose trait types
    follow the order of the layer configuration, at most one for each
    layer. *)
Theorem traits_follow_configuration_order id s g s' :
  generate2DImage w cfg id s = (Return g, s') ->
  gen_attributes g = emergency_traits
  \/ exists added,
       gen_attributes g
       = {| trait_type := "species"; value := gen_species g |} :: added
       /\ sublist (List.map trait_type added)
            (List.map category (cfg_layerConfig cfg))
       /\ (length added <= length (cfg_layerConfig cfg))%nat.
Proof.
  intros Hrun.
  destruct (generate2DImage_shape id s g s' Hrun)
    as [[Ha _] | (s0 & Hcomposite)]; [left; exact Ha | right].
  apply composite_returns in Hcomposite
    as (added & marks & Hattr & _ & Hsub & _).
  exists added. split; [exact Hattr|]. split; [exact Hsub|].
  apply sublist_length in Hsub. rewrite !length_map in Hsub. exact Hsub.
Qed.

(** X11. Unless it is the emergency result, a result of
    [generate2DImage] has one mark on the canvas for each layer trait, all
    above the white fill and the clearing of the canvas, and the file at
    [nftPath] holds that canvas. *)
Theorem one_mark_per_layer_trait id s g s' :
  generate2DImage w cfg id s = (Return g, s') ->
  gen_attributes g = emergency_traits
  \/ exists marks below,
       drawn (ctx s')
       = (marks
          ++ FillRect "#FFFFFF" 0 0 (width cfg) (height cfg)
             :: ClearRect 0 0 (width cfg) (height cfg)
             :: below)%list
       /\ length (gen_attributes g) = S (length marks)
       /\ fs s' !! nftPath g = Some (Png (drawn (ctx s'))).
Proof.
  intros Hrun.
  destruct (generate2DImage_shape id s g s' Hrun)
    as [[Ha _] | (s0 & Hcomposite)]; [left; exact Ha | right].
  apply composite_returns in Hcomposite
    as (added & marks & Hattr & _ & _ & Hlen & Hdrawn & _ & Hfile).
  exists marks, (drawn (ctx s0)). split; [exact Hdrawn|].
  split; [|exact Hfile]. rewrite Hattr. cbn [length]. rewrite Hlen.
  reflexivity.
Qed.

End Order.

Lemma traits_follow_configuration_order_witness :
  exists g s',
    generate2DImage one_png_world (script false false) 1 (boot ∅)
    = (Return g, s')
    /\ (gen_attributes g = emergency_traits
        \/ exists added,
             gen_attributes g
             = {| trait_type := "species"; value := gen_species g |} :: added
             /\ sublist (List.map trait_type added)
                  (List.map category layerConfig)
             /\ (length added <= length layerConfig)%nat).
Proof.
  destruct (generate2DImage one_png_world (script false false) 1 (boot ∅))
    as [[g|e] s'] eqn:Hrun.
  - exists g, s'. split; [reflexivity|].
    exact (traits_follow_configuration_order one_png_world
             (script false false) 1 (boot ∅) g s' Hrun).
  - vm_compute in Hrun. discriminate.
Defined.

Lemma one_mark_per_layer_trait_witness :
  exists g s',
    generate2DImage one_png_world (script false false) 1 (boot ∅)
    = (Return g, s')
    /\ (gen_attributes g = emergency_traits
        \/ exists marks below,
             drawn (ctx s')
             = (marks ++ FillRect "#FFFFFF" 0 0 512 512
                      :: ClearRect 0 0 512 512 :: below)%list
             /\ length (gen_attributes g) = S (length marks)
             /\ fs s' !! nftPath g = Some (Png (drawn (ctx s')))).
Proof.
  destruct (generate2DImage one_png_world (script false false) 1 (boot ∅))
    as [[g|e] s'] eqn:Hrun.
  - exists g, s'. split; [reflexivity|].
    exact (one_mark_per_layer_trait one_png_world (script false false) 1
             (boot ∅) g s' Hrun).
  - vm_compute in Hrun. discriminate.
Defined.

(** ** Uploads and the assembled result *)

Section Uploads.

Context (w : World) (cfg : Config).

(** X15. [uploadToSupabase] never throws and changes nothing but the
    clock, by at most three questions.  A missing file gives [null] without
    a storage call.  A URL is returned only for an existing file; it is
    the public URL of the file name in the folder [nfts/species/id], where
    the species is green for a file name that starts with green_, indigo
    for one that starts with indigo_, and unknown for any other.  For an
    existing file a URL is returned when no upload reports an error, and
    [null] when every upload does. *)
Theorem uploadToSupabase_outcome filePath bucket nftId s :
  exists url n,
    uploadToSupabase w filePath bucket nftId s = (Return url, with_clock n s)
    /\ (clock s <= n <= clock s + 3)%nat
    /\ (fs s !! filePath = None -> url = None /\ n = clock s)
    /\ (forall u,
          url = Some u ->
          is_Some (fs s !! filePath)
          /\ exists species,
               u = SUPABASE_URL w +:+ "/storage/v1/object/public/"
                   +:+ bucket +:+ "/"
                   +:+ ("nfts/" +:+ species +:+ "/" +:+ pretty nftId)
                   +:+ "/" +:+ path_basename w filePath
               /\ (JsString.startsWith (path_basename w filePath) "green_"
                   = true -> species = "green")
               /\ (JsString.startsWith (path_basename w filePath) "green_"
                   = false ->
                   JsString.startsWith (path_basename w filePath) "indigo_"
                   = true -> species = "indigo")
               /\ (JsString.startsWith (path_basename w filePath) "green_"
                   = false ->
                   JsString.startsWith (path_basename w filePath) "indigo_"
                   = false -> species = "unknown"))
    /\ (is_Some (fs s !! filePath) ->
        ((forall t b key, storage_upload w t b key = None) -> is_Some url)
        /\ ((forall t b key, storage_upload w t b key <> None) ->
            url = None)).
Proof.
  destruct (uploadToSupabase_url w filePath bucket nftId s)
    as (url & n & Hrun & Hclock & Hmissing & Hurl & Hsome & Hnone).
  exists url, n. split; [exact Hrun|]. split; [exact Hclock|].
  split; [exact Hmissing|]. split.
  - intros u Hu. destruct (Hurl u Hu) as [Hfile ->].
    split; [exact Hfile|].
    destruct (JsString.startsWith (path_basename w filePath) "green_");
      [|destruct (JsString.startsWith (path_basename w filePath) "indigo_")];
      eexists; (split; [reflexivity|]);
      repeat split; intros; try reflexivity; discriminate.
  - intros Hfile. split; [intros Hall; exact (Hsome Hall Hfile)|].
    exact Hnone.
Qed.

Lemma generateNFT_outcome id s :
  exists o s',
    generateNFT w cfg id s = (o, s')
    /\ ((o = Throw (SystemError "open"
                      (outputFolder cfg +:+ "emergency_" +:+ pretty id
                       +:+ ".png"))
         \/ exists species,
              o = Throw (SystemError "copyfile"
                           (outputFolder cfg +:+ species +:+ "_nft_"
                            +:+ pretty id +:+ "_pixelated.png"))
              \/ o = Throw (SystemError "open"
                              (outputFolder cfg +:+ species +:+ "_nft_"
                               +:+ pretty id +:+ ".json")))
        \/ exists nft,
             o = Return nft
             /\ nft_id nft = id
             /\ md_id (metadata nft) = id
             /\ md_image2D (metadata nft) = nftUrl nft
             /\ md_pixelated (metadata nft) = pixelatedUrl nft
             /\ fs s' !! (outputFolder cfg +:+ nft_species nft +:+ "_nft_"
                          +:+ pretty id +:+ ".json")
                = Some (Json (metadata nft))
             /\ is_Some (fs s' !! (outputFolder cfg +:+ nft_species nft
                                   +:+ "_nft_" +:+ pretty id
                                   +:+ "_pixelated.png"))
             /\ ((nft_species nft = "error"
                  /\ md_attributes (metadata nft) = emergency_traits)
                 \/ exists added,
                      md_attributes (metadata nft)
                      = {| trait_type := "species";
                           value := nft_species nft |} :: added)).
Proof.
  unfold generateNFT.
  assert (Hclear :
    clearRect 0 0 (width cfg) (height cfg) s
    = (Return tt, snd (clearRect 0 0 (width cfg) (height cfg) s)))
    by reflexivity.
  rewrite (bind_return _ _ _ _ _ Hclear).
  set (s0 := snd (clearRect 0 0 (width cfg) (height cfg) s)).
  destruct (try_catch_emergency w cfg (generate2DImage_try w cfg id) id s0
              (script_try_stored w cfg id s0))
    as (o & s1 & Hgen & Hcases).
  fold (generate2DImage w cfg id) in Hgen.
  destruct Hcases as [-> | (g & -> & Hfile & Hshape)].
  { rewrite (bind_throw _ _ _ _ _ Hgen). eexists _, _.
    split; [reflexivity|]. left. left. reflexivity. }
  rewrite (bind_return _ _ _ _ _ Hgen). cbv zeta.
  rewrite (bind_return _ _ _ _ _ (existsSync_present _ _ _ Hfile)).
  cbn [negb].
  destruct (pixelate_or_copy_cases w cfg (nftPath g)
              (outputFolder cfg +:+ gen_species g +:+ "_nft_" +:+ pretty id
               +:+ "_pixelated.png") _ s1 Hfile)
    as (o & s2 & Hpix & _ & _ & [[-> _] | [-> Hpixfile]]).
  { rewrite (bind_throw _ _ _ _ _ Hpix). eexists _, _.
    split; [reflexivity|]. left. right. exists (gen_species g). left.
    reflexivity. }
  rewrite (bind_return _ _ _ _ _ Hpix).
  assert (Hpresent : is_Some (fs s2 !! (outputFolder cfg +:+ gen_species g
                      +:+ "_nft_" +:+ pretty id +:+ "_pixelated.png"))).
  { destruct Hpixfile as [Hc | [Hc | (_ & Hc & Hfs)]];
      [eauto | eauto | rewrite Hfs; exact Hc]. }
  match goal with
  | |- context [ bind (uploadToSupabase w ?p ?b ?i) _ ?st ] =>
      destruct (uploadToSupabase_run w p b i st) as (o1 & n1 & Hup1 & _)
  end.
  rewrite (bind_return _ _ _ _ _ Hup1).
  match goal with
  | |- context [ bind (uploadToSupabase w ?p ?b ?i) _ ?st ] =>
      destruct (uploadToSupabase_run w p b i st) as (o2 & n2 & Hup2 & _)
  end.
  rewrite (bind_return _ _ _ _ _ Hup2).
  unfold_run. simpl_state.
  match goal with
  | |- context [ fs_fault w ?t ?p ] => destruct (fs_fault w t p)
  end; eexists _, _; (split; [reflexivity|]).
  { left. right. exists (gen_species g). right. reflexivity. }
  right. eexists. split; [reflexivity|].
  cbn [nft_id nft_species nftUrl pixelatedUrl metadata md_id md_image2D
       md_pixelated md_attributes]. simpl_state.
  repeat split.
  - apply lookup_insert_eq.
  - rewrite lookup_insert_ne by apply json_is_not_pixelated. exact Hpresent.
  - destruct Hshape as [Htry | (_ & Ha & Hs)]; [|left; auto].
    right. unfold generate2DImage_try in Htry.
    apply bind_inv_return in Htry as (? & s3 & _ & Htry).
    apply bind_inv_return in Htry as (species & s4 & _ & Htry).
    apply composite_returns in Htry as (added & marks & Hattr & Hsp & _).
    exists added. rewrite Hattr, Hsp. reflexivity.
Qed.

End Uploads.

(** ** Batches *)

Section Batch.

Context (w : World) (cfg : Config).

(** X16. A result of [generateNFT]: its identifier and that of its
    metadata are the one asked for, the metadata carries the two URLs of the
    result, the metadata file and the pixelated file are on disk, and the
    traits are the emergency traits (with species "error") or start with
    the species of the result. *)
Theorem generateNFT_result_is_consistent :
  forall id s nft s',
    generateNFT w cfg id s = (Return nft, s') ->
    nft_id nft = id
    /\ md_id (metadata nft) = id
    /\ md_image2D (metadata nft) = nftUrl nft
    /\ md_pixelated (metadata nft) = pixelatedUrl nft
    /\ fs s' !! (outputFolder cfg +:+ nft_species nft +:+ "_nft_"
                 +:+ pretty id +:+ ".json")
       = Some (Json (metadata nft))
    /\ is_Some (fs s' !! (outputFolder cfg +:+ nft_species nft
                          +:+ "_nft_" +:+ pretty id +:+ "_pixelated.png"))
    /\ ((nft_species nft = "error"
         /\ md_attributes (metadata nft) = emergency_traits)
        \/ exists added,
             md_attributes (metadata nft)
             = {| trait_type := "species"; value := nft_species nft |}
               :: added).
Proof.
  intros id s nft s' Hrun.
  destruct (generateNFT_outcome w cfg id s) as (o & s2 & Hout & Hcases).
  rewrite Hrun in Hout. inversion Hout; subst o s2. clear Hout.
  destruct Hcases as [[Hthrow | (species & [Hthrow | Hthrow])]
                     | (nft' & Hret & Hfacts)];
    try discriminate.
  inversion Hret; subst nft'. exact Hfacts.
Qed.

(** X17. [generateNFT] throws only file-system errors: the write of the
    emergency image, the fallback copy of the pixelated artifact, or the
    write of the metadata.  In particular its own check of the primary
    artifact never fails. *)
Theorem generateNFT_throws_only_file_errors :
  forall id s e s',
    generateNFT w cfg id s = (Throw e, s') ->
    e = SystemError "open"
          (outputFolder cfg +:+ "emergency_" +:+ pretty id +:+ ".png")
    \/ exists species,
         e = SystemError "copyfile"
               (outputFolder cfg +:+ species +:+ "_nft_" +:+ pretty id
                +:+ "_pixelated.png")
         \/ e = SystemError "open"
                  (outputFolder cfg +:+ species +:+ "_nft_" +:+ pretty id
                   +:+ ".json").
Proof.
  intros id s e s' Hrun.
  destruct (generateNFT_outcome w cfg id s) as (o & s2 & Hout & Hcases).
  rewrite Hrun in Hout. inversion Hout; subst o s2. clear Hout.
  destruct Hcases as [[Hthrow | (species & [Hthrow | Hthrow])]
                     | (nft' & Hret & _)];
    try discriminate.
  - inversion Hthrow. left. reflexivity.
  - inversion Hthrow. right. exists species. left. reflexivity.
  - inversion Hthrow. right. exists species. right. reflexivity.
Qed.

Lemma generateNFT_identifier id s nft s' :
  generateNFT w cfg id s = (Return nft, s') ->
  nft_id nft = id /\ md_id (metadata nft) = id.
Proof.
  intros Hrun.
  destruct (generateNFT_outcome w cfg id s) as (o & s2 & Hout & Hcases).
  rewrite Hrun in Hout. inversion Hout; subst o s2. clear Hout.
  destruct Hcases as [[Hthrow | (species & [Hthrow | Hthrow])]
                     | (nft' & Hret & Hid & Hmd & _)];
    try discriminate.
  inversion Hret; subst nft'. auto.
Qed.

Lemma generate_from_ids s0 remaining :
  forall a results,
    exists new,
      generate_from w cfg (S a) remaining results (loop_state w cfg a s0)
      = (Return (results ++ new)%list,
         loop_state w cfg (a + remaining) s0)
      /\ sublist (List.map nft_id new) (seq (S a) remaining)
      /\ Forall (fun nft => md_id (metadata nft) = nft_id nft) new
      /\ (forall nft,
            In nft new
            <-> exists i,
                  (a < i <= a + remaining)%nat
                  /\ fst (generateNFT w cfg i
                            (loop_state w cfg (i - 1) s0))
                     = Return nft).
Proof.
  induction remaining as [|remaining IH]; intros a results.
  - exists []. rewrite app_nil_r, Nat.add_0_r. split; [reflexivity|].
    split; [constructor|]. split; [constructor|].
    intros nft. split; [intros []|intros (i & Hi & _); lia].
  - cbn [generate_from]. unfold bind at 1, try_catch at 1, bind at 1.
    destruct (IH (S a) (results ++
                        match fst (generateNFT w cfg (S a)
                                     (loop_state w cfg a s0)) with
                        | Return result => [result]
                        | Throw _ => []
                        end)%list)
      as (new & Hrun & Hsub & Hall & Hin).
    cbn [loop_state] in Hrun.
    replace (S a + remaining)%nat with (a + S remaining)%nat in Hrun by lia.
    destruct (generateNFT w cfg (S a) (loop_state w cfg a s0))
      as [[result|e] s1] eqn:Hgen; cbn [fst snd] in Hrun.
    + destruct (generateNFT_identifier (S a) _ result s1 Hgen)
        as (Hid & Hmd).
      exists (result :: new). split.
      * unfold ret. rewrite Hrun, <- app_assoc. reflexivity.
      * split; [|split].
        -- cbn [List.map seq]. rewrite Hid. apply sublist_skip. exact Hsub.
        -- constructor; [congruence | exact Hall].
        -- intros nft. cbn [In]. rewrite Hin. split.
           ++ intros [<- | (i & Hi & Hnft)].
              ** exists (S a). split; [lia|].
                 replace (S a - 1)%nat with a by lia.
                 rewrite Hgen. reflexivity.
              ** exists i. split; [lia | exact Hnft].
           ++ intros (i & Hi & Hnft).
              destruct (Nat.eq_dec i (S a)) as [-> | Hne].
              ** left. replace (S a - 1)%nat with a in Hnft by lia.
                 rewrite Hgen in Hnft. cbn [fst] in Hnft. congruence.
              ** right. exists i. split; [lia | exact Hnft].
    + exists new. rewrite app_nil_r in Hrun.
      split; [unfold ret; exact Hrun|].
      split; [cbn [seq]; apply sublist_cons; exact Hsub|].
      split; [exact Hall|].
      intros nft. rewrite Hin. split.
      * intros (i & Hi & Hnft). exists i. split; [lia | exact Hnft].
      * intros (i & Hi & Hnft).
        destruct (Nat.eq_dec i (S a)) as [-> | Hne].
        -- replace (S a - 1)%nat with a in Hnft by lia.
           rewrite Hgen in Hnft. discriminate.
        -- exists i. split; [lia | exact Hnft].
Qed.

(** X18. [generateMultipleNFTs] never throws and runs the generations 1
    to [count] one after the other, each in the state the one before
    left.  Its results are exactly the results of the generations that
    returned, in the order of the identifiers: without repetition, with a
    gap where a generation threw, and each with its identifier in its
    metadata. *)
Theorem batch_results_in_identifier_order count s :
  exists results,
    generateMultipleNFTs w cfg count s
    = (Return results, loop_state w cfg count s)
    /\ sublist (List.map nft_id results) (seq 1 count)
    /\ Forall (fun nft => md_id (metadata nft) = nft_id nft) results
    /\ (forall nft,
          In nft results
          <-> exists i,
                (1 <= i <= count)%nat
                /\ fst (generateNFT w cfg i (loop_state w cfg (i - 1) s))
                   = Return nft).
Proof.
  unfold generateMultipleNFTs.
  destruct (generate_from_ids s count 0%nat [])
    as (new & Hrun & Hsub & Hall & Hin).
  exists new. rewrite app_nil_l in Hrun. cbn [loop_state Nat.add] in Hrun.
  split; [exact Hrun|]. split; [exact Hsub|]. split; [exact Hall|].
  intros nft. rewrite Hin. split; intros (i & Hi & Hnft); exists i;
    (split; [lia | exact Hnft]).
Qed.

End Batch.

Lemma generateNFT_result_is_consistent_witness :
  exists nft s',
    generateNFT one_png_world (script false false) 1 (boot ∅)
    = (Return nft, s')
    /\ nft_id nft = 1%nat
    /\ md_id (metadata nft) = 1%nat
    /\ md_image2D (metadata nft) = nftUrl nft
    /\ md_pixelated (metadata nft) = pixelatedUrl nft.
Proof.
  destruct (generateNFT one_png_world (script false false) 1 (boot ∅))
    as [[nft|e] s'] eqn:Hrun.
  - exists nft, s'. split; [reflexivity|].
    destruct (generateNFT_result_is_consistent one_png_world
                (script false false) 1 (boot ∅) nft s' Hrun)
      as (Hid & Hmd & H2D & Hpix & _).
    auto.
  - vm_compute in Hrun. discriminate.
Defined.

Lemma generateNFT_throws_only_file_errors_witness :
  exists e s',
    generateNFT read_only_world (script false false) 1 (boot ∅)
    = (Throw e, s')
    /\ (e = SystemError "open" "./output/emergency_1.png"
        \/ exists species,
             e = SystemError "copyfile"
                   ("./output/" +:+ species +:+ "_nft_1_pixelated.png")
             \/ e = SystemError "open"
                      ("./output/" +:+ species +:+ "_nft_1.json")).
Proof.
  destruct (generateNFT read_only_world (script false false) 1 (boot ∅))
    as [[nft|e] s'] eqn:Hrun.
  - vm_compute in Hrun. discriminate.
  - exists e, s'. split; [reflexivity|].
    exact (generateNFT_throws_only_file_errors read_only_world
             (script false false) 1 (boot ∅) e s' Hrun).
Defined.

(** ** The storage providers *)

Section Providers.

Context (w : World).

Lemma tick_bind {A} (k : nat -> M A) s :
  bind tick k s = k (clock s) (with_clock (S (clock s)) s).
Proof. reflexivity. Qed.

(** X19. [S3Storage.getRandomComponent] never throws for an optional
    layer; a rejected listing gives [null] for an optional layer and is
    thrown unchanged for a required one; a component it returns is a listed
    key with an image extension, under the URL of the components bucket. *)
Theorem s3_errors_spare_optional_layers this listObjectsV2 layerInfo species s :
  let prefix := species +:+ "/" +:+ category layerInfo +:+ "/" in
  let run := S3Storage.getRandomComponent w this listObjectsV2
               layerInfo species s in
  (optional layerInfo = true ->
   exists o n, run = (Return o, with_clock n s))
  /\ (forall message,
        listObjectsV2 (clock s) (S3Storage.componentsBucket this) prefix
        = S3Rejects message ->
        run = (if optional layerInfo then Return None
               else Throw (StorageError message),
               with_clock (S (clock s)) s))
  /\ (forall componentInfo s',
        run = (Return (Some componentInfo), s') ->
        exists keys key,
          listObjectsV2 (clock s) (S3Storage.componentsBucket this) prefix
          = S3Contents (Some keys)
          /\ In key keys
          /\ is_image_file key = true
          /\ ci_url componentInfo
             = "https://" +:+ S3Storage.componentsBucket this +:+ ".s3."
               +:+ S3Storage.region this +:+ ".amazonaws.com/" +:+ key
          /\ ci_name componentInfo = path_basename w key
          /\ ci_category componentInfo = category layerInfo
          /\ ci_type componentInfo = type layerInfo).
Proof.
  intros prefix run. subst run. unfold S3Storage.getRandomComponent.
  fold prefix.
  match goal with
  | |- context [ try_catch ?b ?h s ] => set (body := b); set (handler := h)
  end.
  assert (Hbody : exists o n,
    body s = (o, with_clock n s)
    /\ (forall message,
          listObjectsV2 (clock s) (S3Storage.componentsBucket this) prefix
          = S3Rejects message ->
          o = Throw (StorageError message) /\ n = S (clock s))
    /\ (forall componentInfo,
          o = Return (Some componentInfo) ->
          exists keys key,
            listObjectsV2 (clock s) (S3Storage.componentsBucket this) prefix
            = S3Contents (Some keys)
            /\ In key keys
            /\ is_image_file key = true
            /\ ci_url componentInfo
               = "https://" +:+ S3Storage.componentsBucket this +:+ ".s3."
                 +:+ S3Storage.region this +:+ ".amazonaws.com/" +:+ key
            /\ ci_name componentInfo = path_basename w key
            /\ ci_category componentInfo = category layerInfo
            /\ ci_type componentInfo = type layerInfo)).
  { subst body. rewrite tick_bind.
    destruct (listObjectsV2 (clock s) (S3Storage.componentsBucket this)
                prefix) as [message | Contents] eqn:Hlist.
    { eexists _, _. split; [reflexivity|]. split.
      - intros m Hm. inversion Hm; subst. auto.
      - discriminate. }
    destruct (length (default [] Contents) =? 0)%nat eqn:Hlen.
    { destruct (optional layerInfo); eexists _, _;
        (split; [reflexivity|]); split; discriminate. }
    destruct (length (List.map _ _) =? 0)%nat eqn:Hfiles.
    { destruct (optional layerInfo); eexists _, _;
        (split; [reflexivity|]); split; discriminate. }
    match goal with
    | |- context [ select_file w ?t ?fl ] =>
        set (files := fl);
        destruct (select_file_frame w t files (with_clock (S (clock s)) s))
          as ([f|e] & Hsel)
    end.
    - rewrite (bind_return _ _ _ _ _ Hsel). unfold ret.
      eexists _, _. simpl_state. split; [reflexivity|].
      split; [discriminate|].
      intros ci Hci. inversion Hci; subst ci.
      apply select_file_member in Hsel. subst files.
      apply in_map_iff in Hsel as (key & <- & Hin).
      apply filter_In in Hin as [Hin Himg].
      destruct Contents as [keys|]; [|destruct Hin].
      exists keys, key. cbn in Hin. cbn. auto 10.
    - rewrite (bind_throw _ _ _ _ _ Hsel).
      eexists _, _. simpl_state. split; [reflexivity|].
      split; discriminate. }
  destruct Hbody as (o & n & Hrun & Hrejects & Hsome).
  destruct o as [o|e].
  - rewrite (try_catch_return _ _ _ _ _ Hrun).
    split; [|split].
    + intros _. eauto.
    + intros m Hm. destruct (Hrejects m Hm) as [? _]. discriminate.
    + intros ci s' Heq. inversion Heq; subst. apply Hsome. reflexivity.
  - rewrite (try_catch_throw _ _ _ _ _ Hrun). subst handler. cbv beta.
    split; [|split].
    + intros ->. eexists _, _. reflexivity.
    + intros m Hm. destruct (Hrejects m Hm) as [He ->].
      inversion He; subst. destruct (optional layerInfo); reflexivity.
    + intros ci s'. destruct (optional layerInfo); discriminate.
Qed.

(** X20. [SupabaseStorage.uploadFile] changes nothing but the clock, by
    at most three questions.  For a missing file it throws without a storage
    call; a returned URL is the public URL of the destination; and for an
    existing file the only error is the one of the upload itself: a folder
    that could not be created does not stop it. *)
Theorem uploadFile_outcome storageBucket path_dirname filePath destinationPath s :
  exists o n,
    SupabaseStorage.uploadFile w storageBucket path_dirname
      filePath destinationPath s = (o, with_clock n s)
    /\ (clock s <= n <= clock s + 3)%nat
    /\ (fs s !! filePath = None ->
        o = Throw (JsError ("File does not exist: " +:+ filePath))
        /\ n = clock s)
    /\ (forall fileUrl,
          o = Return fileUrl ->
          is_Some (fs s !! filePath)
          /\ fileUrl = SUPABASE_URL w +:+ "/storage/v1/object/public/"
                       +:+ storageBucket +:+ "/" +:+ destinationPath)
    /\ (forall e,
          o = Throw e ->
          is_Some (fs s !! filePath) ->
          exists t message,
            storage_upload w t storageBucket destinationPath = Some message
            /\ e = StorageError message).
Proof.
  unfold SupabaseStorage.uploadFile, createFolderIfNotExists. unfold_run.
  destruct (fs s !! filePath) as [c|] eqn:Hfile.
  - rewrite bool_decide_eq_true_2 by eauto. cbn [negb]. simpl_state.
    rewrite Hfile. simpl_state.
    destruct (negb (path_dirname destinationPath =? "."));
      simpl_state;
      repeat match goal with
           | |- context [ match storage_list w ?t ?b ?p with _ => _ end ] =>
               destruct (storage_list w t b p); simpl_state
           | |- context [ match storage_upload w ?t ?b ?p with _ => _ end ] =>
               let H := fresh "Hup" in
               destruct (storage_upload w t b p) eqn:H; simpl_state
           | |- context [ if negb ?c then _ else _ ] =>
               destruct c; cbn [negb]; simpl_state
           end;
      eexists _, _; (split; [reflexivity|]);
      (split; [lia|]); (split; [discriminate|]);
      (split; [intros u Hu; inversion Hu; subst; eauto
              |intros e He _; inversion He; subst; eauto]).
  - rewrite bool_decide_eq_false_2 by (intros [? ?]; discriminate).
    cbn [negb]. eexists _, (clock s). split; [destruct s; reflexivity|].
    split; [lia|]. split; [auto|].
    split; [discriminate|]. intros e _ [? ?]. discriminate.
Qed.

End Providers.

(** ** The assembler of the class *)

Section ClassNFT.

Context (w : World) (this : Config).

(** X21. The upload step of [Generator.generateNFT] never throws.
    Without a storage both URLs are the local paths; when the first upload
    fails both stay local; when only the second fails the first URL is the
    uploaded one and the second stays local. *)
Theorem upload_failure_keeps_local_paths species id nftPath pixelatedImagePath s :
  GeneratorNFT.upload_artifacts None species id nftPath pixelatedImagePath s
  = (Return (nftPath, pixelatedImagePath), s)
  /\ forall uploadFile,
       let first := uploadFile nftPath
         ("nfts/" +:+ species +:+ "/" +:+ pretty id +:+ "/image.png") in
       let second := uploadFile pixelatedImagePath
         ("nfts/" +:+ species +:+ "/" +:+ pretty id
          +:+ "/image_pixelated.png") in
       exists nftUrl pixelatedUrl s',
         GeneratorNFT.upload_artifacts (Some uploadFile) species id
           nftPath pixelatedImagePath s
         = (Return (nftUrl, pixelatedUrl), s')
         /\ ((exists e, first s = (Throw e, s')
                        /\ nftUrl = nftPath
                        /\ pixelatedUrl = pixelatedImagePath)
             \/ exists s1,
                  first s = (Return nftUrl, s1)
                  /\ ((exists e, second s1 = (Throw e, s')
                                 /\ pixelatedUrl = pixelatedImagePath)
                      \/ second s1 = (Return pixelatedUrl, s'))).
Proof.
  split; [reflexivity|].
  intros uploadFile first second. unfold GeneratorNFT.upload_artifacts.
  fold first. fold second. unfold try_catch, bind, ret.
  destruct (first s) as [[u1|e1] s1] eqn:H1.
  - destruct (second s1) as [[u2|e2] s2] eqn:H2.
    + eexists _, _, _. split; [reflexivity|]. right. eauto.
    + eexists _, _, _. split; [reflexivity|]. right.
      exists s1. split; [reflexivity|]. left. eauto.
  - eexists _, _, _. split; [reflexivity|]. left. eauto.
Qed.



End ClassNFT.


(** ** The transparency analysis *)

Section Transparency.

Import TransparencyChecker.

Lemma count_row (p : nat -> bool) (l : list nat) (n : nat) :
  fold_left (fun acc x => if p x then S acc else acc) l n
  = (n + length (List.filter p l))%nat.
Proof.
  revert n. induction l as [|x l IH]; intros n; cbn [fold_left List.filter].
  - cbn. lia.
  - rewrite IH. destruct (p x); cbn [length]; lia.
Qed.

Lemma count_rows (p : nat -> nat -> bool) (cols rows : list nat) (n : nat) :
  fold_left
    (fun acc y => fold_left (fun acc x => if p x y then S acc else acc)
                    cols acc)
    rows n
  = (n + list_sum (List.map (fun y => length (List.filter (fun x => p x y) cols))
                     rows))%nat.
Proof.
  revert n. induction rows as [|y rows IH]; intros n; simpl.
  - lia.
  - rewrite IH, (count_row (fun x => p x y)). lia.
Qed.

Lemma list_sum_bound (f : nat -> nat) (rows : list nat) (b : nat) :
  (forall y, f y <= b)%nat ->
  (list_sum (List.map f rows) <= length rows * b)%nat.
Proof.
  intros Hf. induction rows as [|y rows IH]; simpl.
  - lia.
  - specialize (Hf y). lia.
Qed.

Lemma list_sum_zero (f : nat -> nat) (rows : list nat) :
  list_sum (List.map f rows) = 0%nat <-> forall y, In y rows -> f y = 0%nat.
Proof.
  induction rows as [|y rows IH]; simpl.
  - split; [intros _ y []|reflexivity].
  - split.
    + intros Hsum z [<-|Hz]; [lia|]. apply IH; [lia|exact Hz].
    + intros Hall.
      assert (Hy : f y = 0%nat) by (apply Hall; left; reflexivity).
      assert (Hrest : list_sum (List.map f rows) = 0%nat).
      { apply IH. intros z Hz. apply Hall. right. exact Hz. }
      lia.
Qed.

Lemma filter_nil_iff {A} (p : A -> bool) (l : list A) :
  length (List.filter p l) = 0%nat <-> forall x, In x l -> p x = false.
Proof.
  induction l as [|x l IH]; cbn [List.filter].
  - split; [intros _ x []|reflexivity].
  - destruct (p x) eqn:Hp; cbn [length].
    + split; [discriminate|]. intros Hall.
      rewrite Hall in Hp by (left; reflexivity). discriminate.
    + rewrite IH. split.
      * intros Hall z [<-|Hz]; auto.
      * intros Hall z Hz. apply Hall. right. exact Hz.
Qed.

(** The counting scan of [checkImage]. *)
Lemma scan_counts (image : Bitmap) :
  let count :=
    scan image 0 0 (bitmap_width image) (bitmap_height image)
      (fun x y idx transparentPixels =>
         if alpha_below_255 image idx then S transparentPixels
         else transparentPixels)
      0%nat in
  (count <= bitmap_width image * bitmap_height image)%nat
  /\ (count = 0%nat <-> ~ some_pixel_transparent image).
Proof.
  intros count. subst count. unfold scan.
  rewrite (count_rows (transparent_at image)). cbn [Nat.add].
  split.
  - etransitivity.
    + apply list_sum_bound with (b := bitmap_width image).
      intros y. etransitivity; [apply filter_length_le|].
      rewrite length_seq. reflexivity.
    + rewrite length_seq. lia.
  - rewrite list_sum_zero. unfold some_pixel_transparent. split.
    + intros Hall (x & y & Hx & Hy & Ht).
      assert (Hrow := Hall y ltac:(apply in_seq; lia)).
      rewrite filter_nil_iff in Hrow.
      rewrite Hrow in Ht by (apply in_seq; lia). discriminate.
    + intros Hnone y Hy. apply filter_nil_iff. intros x Hx.
      apply in_seq in Hx, Hy.
      destruct (transparent_at image x y) eqn:Ht; [|reflexivity].
      exfalso. apply Hnone. exists x, y. repeat split; [lia|lia|exact Ht].
Qed.

Lemma flag_row (p : nat -> bool) (l : list nat) (b : bool) (n : nat) :
  fold_left
    (fun (acc : bool * nat) x =>
       let '(hasTransparency, transparentPixels) := acc in
       if p x then (true, S transparentPixels)
       else (hasTransparency, transparentPixels))
    l (b, n)
  = (b || existsb p l, (n + length (List.filter p l))%nat).
Proof.
  revert b n. induction l as [|x l IH]; intros b n;
    cbn [fold_left List.filter existsb].
  - rewrite orb_false_r. f_equal. cbn. lia.
  - destruct (p x); rewrite IH; cbn [length orb].
    + rewrite orb_true_r. f_equal. lia.
    + f_equal.
Qed.

Lemma flag_rows (p : nat -> nat -> bool) (cols rows : list nat) (b : bool)
    (n : nat) :
  fst (fold_left
         (fun (acc : bool * nat) y =>
            fold_left
              (fun (acc : bool * nat) x =>
                 let '(hasTransparency, transparentPixels) := acc in
                 if p x y then (true, S transparentPixels)
                 else (hasTransparency, transparentPixels))
              cols acc)
         rows (b, n))
  = b || existsb (fun y => existsb (fun x => p x y) cols) rows.
Proof.
  revert b n. induction rows as [|y rows IH]; intros b n;
    cbn [fold_left existsb].
  - rewrite orb_false_r. reflexivity.
  - rewrite (flag_row (fun x => p x y)), IH. rewrite orb_assoc. reflexivity.
Qed.

Lemma scan_flags (image : Bitmap) :
  fst (scan image 0 0 (bitmap_width image) (bitmap_height image)
         (fun x y idx '(hasTransparency, transparentPixels) =>
            if alpha_below_255 image idx
            then (true, S transparentPixels)
            else (hasTransparency, transparentPixels))
         (false, 0%nat))
  = true
  <-> some_pixel_transparent image.
Proof.
  unfold scan. rewrite (flag_rows (transparent_at image)). cbn [orb].
  rewrite existsb_exists. unfold some_pixel_transparent. split.
  - intros (y & Hy & Hrow). apply existsb_exists in Hrow as (x & Hx & Ht).
    apply in_seq in Hx, Hy. exists x, y. repeat split; [lia|lia|exact Ht].
  - intros (x & y & Hx & Hy & Ht). exists y. split; [apply in_seq; lia|].
    apply existsb_exists. exists x. split; [apply in_seq; lia|exact Ht].
Qed.

Lemma percentage_range (t total : nat) (p : Q) :
  (t <= total)%nat ->
  percentage t total 100 = Some p ->
  0 <= p <= 100 /\ (p == 0 <-> t = 0%nat) /\ (p == 100 <-> t = total).
Proof.
  unfold percentage. intros Hle.
  destruct (total =? 0)%nat eqn:Htotal; [discriminate|].
  apply Nat.eqb_neq in Htotal. intros Hp. inversion Hp; subst p. clear Hp.
  set (a := inject_Z (Z.of_nat t)). set (b := inject_Z (Z.of_nat total)).
  assert (Hb : 0 < b).
  { subst b. change 0 with (inject_Z 0). rewrite <- Zlt_Qlt. lia. }
  assert (Ha : 0 <= a).
  { subst a. change 0 with (inject_Z 0). rewrite <- Zle_Qle. lia. }
  assert (Hab : a <= b).
  { subst a b. rewrite <- Zle_Qle. lia. }
  assert (Hq0 : 0 <= a / b).
  { apply Qle_shift_div_l; [exact Hb|]. lra. }
  assert (Hq1 : a / b <= 1).
  { apply Qle_shift_div_r; [exact Hb|]. lra. }
  assert (Hmul : a / b * b == a) by (field; lra).
  assert (Hone : b / b == 1) by (field; lra).
  assert (Hzero : 0 / b == 0) by (field; lra).
  remember (a / b) as q eqn:Hq. 
  split; [split; lra|]. split.
  - split.
    + intros Hz. assert (Hq0' : q == 0) by (clear - Hz; lra).
      assert (Hz' : a == 0) by (rewrite <- Hmul, Hq0'; ring).
      subst a. change 0 with (inject_Z 0) in Hz'.
      rewrite inject_Z_injective in Hz'. lia.
    + intros Ht. assert (Ha0 : a == 0) by (subst a; rewrite Ht; reflexivity).
      subst q. rewrite Ha0, Hzero. ring.
  - split.
    + intros Hz. assert (Hq1' : q == 1) by (clear - Hz; lra).
      assert (Hz' : a == b) by (rewrite <- Hmul, Hq1'; ring).
      subst a b. rewrite inject_Z_injective in Hz'. lia.
    + intros Ht. assert (Hab' : a == b) by (subst a b; rewrite Ht; reflexivity).
      subst q. rewrite Hab', Hone. ring.
Qed.

Context (w : World) (Jimp_read : nat -> string -> JimpRead).

(** X23. [TransparencyChecker.checkImage] throws for a missing file
    before reading it.  For an existing file whose path ends in .svg,
    whatever the case, it answers with the file name and the layer without
    reading the file.  Any other existing file is read once: a failed read
    is thrown again as an analysis error with its message, and a decoded
    image gives a report that carries the file name, the layer and the
    size of the image.  In a report on a bitmap the total is width times
    height, the count of transparent pixels is at most the total and is
    zero exactly when no pixel is below full opacity, and the percentage
    is undefined exactly for an image without pixels, and otherwise
    between 0 and 100. *)
Theorem checkImage_report filePath layerType s :
  exists o n,
    checkImage w Jimp_read filePath layerType s = (o, with_clock n s)
    /\ (fs s !! filePath = None ->
        o = Throw (JsError ("File does not exist: " +:+ filePath))
        /\ n = clock s)
    /\ (is_Some (fs s !! filePath) ->
        (JsString.endsWith (JsString.toLowerCase filePath) ".svg" = true ->
         o = Return (Vector (path_basename w filePath) layerType)
         /\ n = clock s)
        /\ (JsString.endsWith (JsString.toLowerCase filePath) ".svg" = false ->
            n = S (clock s)
            /\ (forall message,
                  Jimp_read (clock s) filePath = ReadFails message ->
                  o = Throw (JsError ("Error analyzing " +:+ filePath
                                      +:+ ": " +:+ message)))
            /\ (forall image,
                  Jimp_read (clock s) filePath = ReadImage image ->
                  exists report,
                    o = Return (Bitmapped report)
                    /\ r_file report = path_basename w filePath
                    /\ r_layer report = layerType
                    /\ r_width report = bitmap_width image
                    /\ r_height report = bitmap_height image)))
    /\ (forall file layer,
          o = Return (Vector file layer) ->
          JsString.endsWith (JsString.toLowerCase filePath) ".svg" = true
          /\ layer = layerType /\ n = clock s)
    /\ (forall report,
          o = Return (Bitmapped report) ->
          exists image,
            Jimp_read (clock s) filePath = ReadImage image
            /\ r_totalPixels report
               = (bitmap_width image * bitmap_height image)%nat
            /\ (r_transparentPixels report <= r_totalPixels report)%nat
            /\ (r_transparentPixels report = 0%nat
                <-> ~ some_pixel_transparent image)
            /\ (r_transparencyPercent report = None
                <-> r_totalPixels report = 0%nat)
            /\ (forall p,
                  r_transparencyPercent report = Some p ->
                  0 <= p <= 100
                  /\ (p == 0 <-> ~ some_pixel_transparent image))
            /\ r_appropriateTransparency report
               = appropriateTransparency layerType
                   (r_transparencyPercent report)
            /\ r_warnings report
               = getTransparencyWarnings layerType
                   (r_transparencyPercent report)).
Proof.
  unfold checkImage. unfold_run.
  destruct (fs s !! filePath) as [c|] eqn:Hfile.
  2:{ rewrite bool_decide_eq_false_2 by (intros [? ?]; discriminate).
      cbn [negb]. eexists _, (clock s).
      split; [destruct s; reflexivity|].
      split; [auto|]. split; [intros [? ?]; discriminate|].
      split; discriminate. }
  rewrite bool_decide_eq_true_2 by eauto. cbn [negb].
  destruct (JsString.endsWith _ ".svg") eqn:Hsvg.
  { eexists _, (clock s). split; [destruct s; reflexivity|].
    split; [discriminate|]. split; [|split; [|discriminate]].
    - intros _. split; [auto | discriminate].
    - intros file layer Heq. inversion Heq; subst. auto. }
  simpl_state.
  destruct (Jimp_read (clock s) filePath) as [message|image] eqn:Hread;
    simpl_state.
  { eexists _, _. split; [reflexivity|].
    split; [discriminate|]. split; [|split; discriminate].
    intros _. split; [discriminate|]. intros _.
    split; [reflexivity|]. split; [|discriminate].
    intros message' Heq. inversion Heq; subst. reflexivity. }
  eexists _, _. split; [reflexivity|].
  split; [discriminate|]. split; [|split; [discriminate|]].
  { intros _. split; [discriminate|]. intros _.
    split; [reflexivity|]. split; [discriminate|].
    intros image' Heq. inversion Heq; subst image'.
    eexists. split; [reflexivity|]. repeat split. }
  intros report Heq. inversion Heq; subst report. clear Heq.
  exists image. cbn [r_totalPixels r_transparentPixels r_transparencyPercent
                     r_appropriateTransparency r_warnings].
  destruct (scan_counts image) as [Hle Hzero]. cbv zeta in Hle, Hzero.
  split; [reflexivity|]. split; [reflexivity|]. split; [exact Hle|].
  split; [exact Hzero|]. split.
  { unfold percentage.
    destruct (_ =? 0)%nat eqn:Ht; [apply Nat.eqb_eq in Ht|
                                    apply Nat.eqb_neq in Ht];
      split; intros; congruence. }
  split; [|split; reflexivity].
  intros p Hp. apply (percentage_range _ _ _ Hle) in Hp as (Hr & Hp0 & _).
  split; [exact Hr|]. rewrite Hp0. exact Hzero.
Qed.

(** X24. [getTransparencyWarnings] gives at most one warning, and none
    when the transparency is judged appropriate.  For a layer other than
    the background the verdict is positive exactly when there is no
    warning; for the background the two disagree exactly at 5 percent,
    which is neither appropriate nor warned about; an undefined percentage
    is never appropriate and never warned about. *)
Theorem warnings_agree_with_verdict layerType (percent : option Q) :
  (length (getTransparencyWarnings layerType percent) <= 1)%nat
  /\ (appropriateTransparency layerType percent = true ->
      getTransparencyWarnings layerType percent = [])
  /\ (layerType <> "background" ->
      forall p,
        appropriateTransparency layerType (Some p) = true
        <-> getTransparencyWarnings layerType (Some p) = [])
  /\ (forall p,
        (appropriateTransparency "background" (Some p) = false
         /\ getTransparencyWarnings "background" (Some p) = [])
        <-> p == 5)
  /\ (appropriateTransparency layerType None = false
      /\ getTransparencyWarnings layerType None = []).
Proof.
  unfold getTransparencyWarnings, appropriateTransparency.
  split; [|split; [|split; [|split]]].
  - destruct (layerType =? "background"), (js_gt percent 5),
      (js_lt percent 30); cbn; lia.
  - destruct (layerType =? "background") eqn:Hbg; cbn [andb orb negb].
    + destruct percent as [p|]; cbn [js_lt js_gt]; [|discriminate].
      destruct (Qle_bool 5 p) eqn:H5; [discriminate|]. intros _.
      destruct (Qle_bool p 5) eqn:H5'; [reflexivity|].
      exfalso.
      assert (~ 5 <= p) by (rewrite <- Qle_bool_iff; congruence).
      assert (~ p <= 5) by (rewrite <- Qle_bool_iff; congruence).
      lra.
    + destruct percent as [p|]; cbn [js_lt js_ge]; [|discriminate].
      intros ->. reflexivity.
  - intros Hne p. apply String.eqb_neq in Hne. rewrite Hne.
    cbn [andb orb negb js_lt js_ge].
    destruct (Qle_bool 30 p); cbn; split; congruence.
  - intros p. cbn [String.eqb Ascii.eqb Bool.eqb andb orb negb js_lt js_gt].
    change ("background" =? "background") with true. cbn [andb orb negb].
    destruct (Qle_bool 5 p) eqn:H5, (Qle_bool p 5) eqn:H5'; cbn [negb];
      try (apply Qle_bool_iff in H5); try (apply Qle_bool_iff in H5');
      split;
      try (intros [? ?]; discriminate);
      try (intros _; lra);
      try (intros; split; reflexivity).
    + intros Heq. assert (~ p <= 5) by (rewrite <- Qle_bool_iff; congruence).
      lra.
    + intros Heq. assert (~ 5 <= p) by (rewrite <- Qle_bool_iff; congruence).
      lra.
    + intros Heq. assert (~ 5 <= p) by (rewrite <- Qle_bool_iff; congruence).
      assert (~ p <= 5) by (rewrite <- Qle_bool_iff; congruence). lra.
  - cbn [js_lt js_gt js_ge]. destruct (layerType =? "background"); auto.
Qed.

(** X25. [checkImageTransparency] of the script never throws and changes
    nothing but the clock; it answers [true] exactly when the file exists,
    can be read, and has a pixel below full opacity. *)
Theorem checkImageTransparency_flag imagePath layerType s :
  exists hasTransparency n,
    checkImageTransparency Jimp_read imagePath layerType s
    = (Return hasTransparency, with_clock n s)
    /\ (hasTransparency = true
        <-> is_Some (fs s !! imagePath)
            /\ exists image,
                 Jimp_read (clock s) imagePath = ReadImage image
                 /\ some_pixel_transparent image).
Proof.
  unfold checkImageTransparency. unfold_run.
  destruct (fs s !! imagePath) as [c|] eqn:Hfile.
  2:{ rewrite bool_decide_eq_false_2 by (intros [? ?]; discriminate).
      cbn [negb]. exists false, (clock s).
      split; [destruct s; reflexivity|].
      split; [discriminate|]. intros [[? ?] _]. discriminate. }
  rewrite bool_decide_eq_true_2 by eauto. cbn [negb]. simpl_state.
  destruct (Jimp_read (clock s) imagePath) as [message|image] eqn:Hread;
    simpl_state.
  { eexists _, _. split; [reflexivity|]. split; [discriminate|].
    intros (_ & image & Himg & _). discriminate. }
  eexists _, _. split; [reflexivity|].
  rewrite scan_flags. split.
  - intros Hsome. split; [eauto|]. exists image. auto.
  - intros (_ & image' & Himg & Hsome). inversion Himg; subst. exact Hsome.
Qed.

End Transparency.

(** ** Image utilities *)

Section Utilities.

Import ImageUtils.

Lemma lt_num_spec (a b : Q) : lt_num a b = true <-> a < b.
Proof.
  unfold lt_num. destruct (Qle_bool b a) eqn:Hle; cbn [negb].
  - apply Qle_bool_iff in Hle. split; [discriminate|]. intros Hlt. lra.
  - split; [|reflexivity]. intros _.
    assert (~ b <= a) by (rewrite <- Qle_bool_iff; congruence). lra.
Qed.

Lemma lt_num_false (a b : Q) : lt_num a b = false <-> b <= a.
Proof.
  unfold lt_num. destruct (Qle_bool b a) eqn:Hle; cbn [negb].
  - apply Qle_bool_iff in Hle. tauto.
  - split; [discriminate|]. intros Hba. apply Qle_bool_iff in Hba.
    congruence.
Qed.

(** X26. The colour that [createTextureFromHeightmap] computes for a
    heightmap pixel is opaque and has no negative channel; its channels stay
    within a byte exactly when the three bytes of the pixel add up to at most
    726: for brighter pixels the mountain grey exceeds 255. *)
Theorem mountain_grey_leaves_the_byte_range (r g b : Z) :
  (0 <= r <= 255)%Z -> (0 <= g <= 255)%Z -> (0 <= b <= 255)%Z ->
  let c := color r g b in
  color_a c = 255
  /\ (0 <= color_r c /\ 0 <= color_g c /\ 0 <= color_b c)
  /\ ((color_r c <= 255 /\ color_g c <= 255 /\ color_b c <= 255)
      <-> (r + g + b <= 726)%Z).
Proof.
  intros Hr Hg Hb. unfold color.
  set (total := (r + g + b)%Z).
  assert (Htotal : (0 <= total <= 765)%Z) by (subst total; lia).
  set (h := inject_Z total / 3 / 255).
  assert (Hh : h * 765 == inject_Z total) by (subst h; field).
  assert (H0 : 0 <= inject_Z total).
  { change 0 with (inject_Z 0). rewrite <- Zle_Qle. lia. }
  assert (Hlow : (total <= 726)%Z <-> inject_Z total <= 726).
  { change 726 with (inject_Z 726). rewrite <- Zle_Qle. reflexivity. }
  assert (Hhigh : (727 <= total)%Z <-> 727 <= inject_Z total).
  { change 727 with (inject_Z 727). rewrite <- Zle_Qle. reflexivity. }
  clearbody h. 
  destruct (lt_num h 0.2) eqn:H2.
  { apply lt_num_spec in H2. cbn [color_r color_g color_b color_a].
    split; [reflexivity|]. split; [repeat split; lra|].
    split; [intros _; apply Hlow; lra | intros _; repeat split; lra]. }
  apply lt_num_false in H2.
  destruct (lt_num h 0.3) eqn:H3.
  { apply lt_num_spec in H3. cbn [color_r color_g color_b color_a].
    split; [reflexivity|]. split; [repeat split; lra|].
    split; [intros _; apply Hlow; lra | intros _; repeat split; lra]. }
  apply lt_num_false in H3.
  destruct (lt_num h 0.7) eqn:H7.
  { apply lt_num_spec in H7. cbn [color_r color_g color_b color_a].
    split; [reflexivity|]. split; [repeat split; lra|].
    split; [intros _; apply Hlow; lra | intros _; repeat split; lra]. }
  apply lt_num_false in H7. cbn [color_r color_g color_b color_a].
  split; [reflexivity|]. split; [repeat split; lra|]. split.
  - intros (Hgrey & _).
    destruct (Z_le_gt_dec total 726) as [Hle | Hgt]; [exact Hle|].
    assert (H727 : 727 <= inject_Z total) by (apply Hhigh; lia). lra.
  - intros Hle. apply Hlow in Hle. repeat split; lra.
Qed.

Context (w : World) (Jimp_read : nat -> string -> JimpRead).

(** X27. [ImageUtils.checkTransparency] throws for a missing file; in
    its report the total is width times height, the count is at most the
    total and [hasTransparency] holds exactly when a pixel is below full
    opacity; the flag is the answer of the script's
    [checkImageTransparency] on the same file, which answers [false] where
    this one throws. *)
Theorem checkTransparency_agrees_with_the_script imagePath layerType s :
  exists o n,
    checkTransparency Jimp_read imagePath s = (o, with_clock n s)
    /\ (fs s !! imagePath = None ->
        o = Throw (JsError ("File does not exist: " +:+ imagePath)))
    /\ (forall report,
          o = Return report ->
          exists image,
            Jimp_read (clock s) imagePath = ReadImage image
            /\ dimensions report = (bitmap_width image, bitmap_height image)
            /\ totalPixels report
               = (bitmap_width image * bitmap_height image)%nat
            /\ (transparentPixels report <= totalPixels report)%nat
            /\ (hasTransparency report = true
                <-> some_pixel_transparent image)
            /\ TransparencyChecker.checkImageTransparency Jimp_read
                 imagePath layerType s
               = (Return (hasTransparency report), with_clock n s))
    /\ (forall e,
          o = Throw e ->
          TransparencyChecker.checkImageTransparency Jimp_read
            imagePath layerType s
          = (Return false, with_clock n s)).
Proof.
  unfold checkTransparency, TransparencyChecker.checkImageTransparency.
  unfold_run.
  destruct (fs s !! imagePath) as [c|] eqn:Hfile.
  2:{ rewrite bool_decide_eq_false_2 by (intros [? ?]; discriminate).
      cbn [negb]. eexists _, (clock s).
      split; [destruct s; reflexivity|]. split; [auto|].
      split; [discriminate|]. intros e _. destruct s; reflexivity. }
  rewrite bool_decide_eq_true_2 by eauto. cbn [negb]. simpl_state.
  destruct (Jimp_read (clock s) imagePath) as [message|image] eqn:Hread;
    simpl_state.
  { eexists _, _. split; [reflexivity|].
    split; [discriminate|]. split; [discriminate|]. reflexivity. }
  eexists _, _. split; [reflexivity|]. split; [discriminate|].
  split; [|discriminate].
  intros report Heq. inversion Heq; subst report. clear Heq.
  cbn [dimensions totalPixels transparentPixels hasTransparency].
  destruct (scan_counts image) as [Hle Hzero]. cbv zeta in Hle, Hzero.
  exists image. split; [reflexivity|]. split; [reflexivity|].
  split; [reflexivity|]. split; [exact Hle|].
  assert (Hhas : (0 <? scan image 0 0 (bitmap_width image)
                        (bitmap_height image)
                        (fun x y idx transparentPixels =>
                           if alpha_below_255 image idx
                           then S transparentPixels else transparentPixels)
                        0%nat)%nat = true
                 <-> some_pixel_transparent image).
  { rewrite Nat.ltb_lt. split.
    - intros Hpos.
      pose proof (scan_flags image) as Hscan.
      destruct (fst _) in Hscan; [apply Hscan; reflexivity|].
      assert (Hnone : ~ some_pixel_transparent image).
      { intros Hsome. apply Hscan in Hsome. discriminate. }
      apply Hzero in Hnone. lia.
    - intros Hsome.
      destruct (Nat.eq_dec (scan image 0 0 (bitmap_width image)
                  (bitmap_height image)
                  (fun x y idx transparentPixels =>
                     if alpha_below_255 image idx
                     then S transparentPixels else transparentPixels)
                  0%nat) 0%nat) as [Hz | Hnz]; [|lia].
      apply Hzero in Hz. contradiction. }
  split; [exact Hhas|].
  f_equal. f_equal.
  apply Bool.eq_true_iff_eq. rewrite Hhas. apply scan_flags.
Qed.

End Utilities.

Lemma mountain_grey_leaves_the_byte_range_witness :
  let c := ImageUtils.color 250 250 250 in
  ImageUtils.color_a c = 255
  /\ (0 <= ImageUtils.color_r c /\ 0 <= ImageUtils.color_g c
      /\ 0 <= ImageUtils.color_b c)
  /\ ((ImageUtils.color_r c <= 255 /\ ImageUtils.color_g c <= 255
       /\ ImageUtils.color_b c <= 255)
      <-> (250 + 250 + 250 <= 726)%Z).
Proof.
  apply (mountain_grey_leaves_the_byte_range 250 250 250); lia.
Defined.
